(** * Penglai / openEuler test tree: the SBI base-extension dispatcher and
      the IMA securityfs front end

    Two C translation units are embedded here:

    - [sbi_ecall_base.c] of OpenSBI 0.6 with the Penglai secure-monitor
      calls added to [sbi_ecall_base_handler] (module [Sbi]);
    - [security/integrity/ima/ima_fs.c] of the openEuler kernel: the
      measurement-list iterator, the data-upload write path and the
      securityfs set-up (module [Ima]).

    Calls that leave the translation unit (the [sm_*] handlers, CSR reads,
    kernel services) are nodes of a program tree; a tree is run against an
    arbitrary implementation of those calls. *)

From Stdlib Require Import ZArith List Lia Bool Strings.Byte.
From stdpp Require Import base gmap strings list fin_maps.

Local Open Scope Z_scope.

(** ** Program trees *)

(** A C function body as a finite tree: it returns, it dereferences an
    invalid pointer ([Oops]), or it calls out with [e] and continues with
    the answer. *)
Inductive prog (E : Type -> Type) (R : Type) : Type :=
| Ret (r : R)
| Oops
| Call {X : Type} (e : E X) (k : X -> prog E R).

Arguments Ret {E R} r.
Arguments Oops {E R}.
Arguments Call {E R X} e k.

Fixpoint bind {E : Type -> Type} {A B : Type}
    (p : prog E A) (f : A -> prog E B) : prog E B :=
  match p with
  | Ret a => f a
  | Oops => Oops
  | Call e k => Call e (fun x => bind (k x) f)
  end.

Notation "'do' x <- c ; k" := (bind c (fun x => k))
  (at level 10, x name, c at level 100, k at level 200).

(** One external call, its answer returned as it is. *)
Definition call {E : Type -> Type} {X : Type} (e : E X) : prog E X :=
  Call e Ret.

(** An implementation of the external calls over a world [W]. *)
Definition handler (E : Type -> Type) (W : Type) : Type :=
  forall X : Type, E X -> W -> X * W.

(** Running a tree: [None] is the invalid dereference. *)
Fixpoint run {E : Type -> Type} {W R : Type}
    (h : handler E W) (p : prog E R) (w : W) : option (R * W) :=
  match p with
  | Ret r => Some (r, w)
  | Oops => None
  | Call e k => let '(x, w') := h _ e w in run h (k x) w'
  end.

(** A call with its answer type forgotten, as an entry of a trace. *)
Definition ev {E : Type -> Type} {X : Type} (e : E X) : sigT E := existT X e.

(** The external calls made on the way, in order. *)
Fixpoint calls {E : Type -> Type} {W R : Type}
    (h : handler E W) (p : prog E R) (w : W) : list (sigT E) :=
  match p with
  | Ret _ => []
  | Oops => []
  | Call e k => ev e :: (let '(x, w') := h _ e w in calls h (k x) w')
  end.

(** [avoids bad p]: no call satisfying [bad] occurs anywhere in [p],
    whatever the answers are. *)
Fixpoint avoids {E : Type -> Type} {R : Type}
    (bad : forall X, E X -> bool) (p : prog E R) : Prop :=
  match p with
  | Ret _ => True
  | Oops => True
  | Call e k => bad _ e = false /\ forall x, avoids bad (k x)
  end.

(** ** C integer conversions *)

(** Conversion to [int] (32 bits, two's complement). *)
Definition to_int (v : Z) : Z := (v + 2 ^ 31) mod 2 ^ 32 - 2 ^ 31.

(** Conversion to an unsigned type of [w] bits. *)
Definition to_unsigned (w : Z) (v : Z) : Z := v mod 2 ^ w.

(** Conversion to a signed type of [w] bits. *)
Definition to_signed (w : Z) (v : Z) : Z :=
  (v + 2 ^ (w - 1)) mod 2 ^ w - 2 ^ (w - 1).

(** ** The SBI base extension ([lib/sbi/sbi_ecall_base.c]) *)

Module Sbi.

(** Constants of [sbi_ecall_interface.h], [sbi_error.h], [sbi_ecall.h] and
    [sbi_version.h], and the register width of the target. None of these
    headers is part of the sources; they are taken as parameters. *)
Record platform : Type := {
  XLEN : Z;
  SBI_EXT_BASE_GET_SPEC_VERSION : Z;
  SBI_EXT_BASE_GET_IMP_ID : Z;
  SBI_EXT_BASE_GET_IMP_VERSION : Z;
  SBI_EXT_BASE_PROBE_EXT : Z;
  SBI_EXT_BASE_GET_MVENDORID : Z;
  SBI_EXT_BASE_GET_MARCHID : Z;
  SBI_EXT_BASE_GET_MIMPID : Z;
  SBI_MM_INIT : Z;
  SBI_MEMORY_EXTEND : Z;
  SBI_ALLOC_ENCLAVE_MM : Z;
  SBI_CREATE_ENCLAVE : Z;
  SBI_RUN_ENCLAVE : Z;
  SBI_EXIT_ENCLAVE : Z;
  SBI_ENOTSUPP : Z;
  SBI_ECALL_VERSION_MAJOR : Z;
  SBI_ECALL_VERSION_MINOR : Z;
  SBI_SPEC_VERSION_MAJOR_OFFSET : Z;
  SBI_SPEC_VERSION_MAJOR_MASK : Z;
  SBI_OPENSBI_IMPID : Z;
  OPENSBI_VERSION : Z
}.

(** The case labels of the switch, in source order. *)
Definition base_ids (pf : platform) : list Z :=
  [ SBI_EXT_BASE_GET_SPEC_VERSION pf; SBI_EXT_BASE_GET_IMP_ID pf;
    SBI_EXT_BASE_GET_IMP_VERSION pf; SBI_EXT_BASE_GET_MVENDORID pf;
    SBI_EXT_BASE_GET_MARCHID pf; SBI_EXT_BASE_GET_MIMPID pf;
    SBI_EXT_BASE_PROBE_EXT pf ].

Definition monitor_ids (pf : platform) : list Z :=
  [ SBI_MM_INIT pf; SBI_MEMORY_EXTEND pf; SBI_ALLOC_ENCLAVE_MM pf;
    SBI_CREATE_ENCLAVE pf; SBI_RUN_ENCLAVE pf; SBI_EXIT_ENCLAVE pf ].

Definition funcids (pf : platform) : list Z := base_ids pf ++ monitor_ids pf.

(** What a C compiler and the SBI convention require of the constants:
    a 32- or 64-bit target, pairwise distinct case labels that are
    non-negative [int]s, and a negative [int] error code. *)
Definition platform_ok (pf : platform) : bool :=
  ((XLEN pf =? 32) || (XLEN pf =? 64))
  && bool_decide (NoDup (funcids pf))
  && forallb (fun i => (0 <=? i) && (i <? 2 ^ 31)) (funcids pf)
  && (SBI_ENOTSUPP pf <? 0) && (- 2 ^ 31 <=? SBI_ENOTSUPP pf).

Inductive csr : Type := CSR_MVENDORID | CSR_MARCHID | CSR_MIMPID.

(** [struct sbi_ecall_extension]; function pointers are addresses, 0 is
    the null pointer. *)
Record sbi_ecall_extension : Type := {
  extid_start : Z;
  extid_end : Z;
  handle : Z;
  probe : Z
}.

(** The calls that leave [sbi_ecall_base.c]. [ext_probe fn scratch extid
    out] is the indirect call [ext->probe(scratch, extid, out_val)] with
    [out] the word [out_val] points to; it answers the callback's status
    and the word left in [*out_val]. *)
Inductive sbiE : Type -> Type :=
| csr_read (c : csr) : sbiE Z
| sbi_ecall_find_extension (extid : Z) : sbiE (option sbi_ecall_extension)
| ext_probe (fn scratch extid out : Z) : sbiE (Z * Z)
| sm_mm_init (paddr size : Z) : sbiE Z
| sm_mm_extend (paddr size : Z) : sbiE Z
| sm_alloc_enclave_mem (mm_alloc_arg : Z) : sbiE Z
| sm_create_enclave (enclave_sbi_param : Z) : sbiE Z
| sm_run_enclave (regs eid : Z) : sbiE Z
| sm_exit_enclave (regs retval : Z) : sbiE Z.

(** The secure-monitor entry points among the calls. *)
Definition is_sm_call (X : Type) (e : sbiE X) : bool :=
  match e with
  | sm_mm_init _ _ | sm_mm_extend _ _ | sm_alloc_enclave_mem _
  | sm_create_enclave _ | sm_run_enclave _ _ | sm_exit_enclave _ _ => true
  | _ => false
  end.

(** [args[i]] of the argument array the trap handler passes in. *)
Definition arg (args : list Z) (i : nat) : Z := nth i args 0.

(** [sbi_ecall_base_probe]; the result is the returned status and the
    word in [*out_val] afterwards. *)
Definition sbi_ecall_base_probe (scratch extid out_val : Z)
    : prog sbiE (Z * Z) :=
  do ext <- call (sbi_ecall_find_extension extid);
  match ext with
  | None => Ret (0, 0)
  | Some ext =>
      if negb (probe ext =? 0)
      then call (ext_probe (probe ext) scratch extid out_val)
      else Ret (0, 1)
  end.

(** [sbi_ecall_base_handler]. [ret] is an [int]: the [uintptr_t] a
    monitor handler returns is converted on assignment. The result is
    [ret] and the word in [*out_val] afterwards. *)
Definition sbi_ecall_base_handler (pf : platform)
    (scratch extid funcid : Z) (args : list Z) (out_val : Z)
    : prog sbiE (Z * Z) :=
  let ret := 0 in
  if funcid =? SBI_EXT_BASE_GET_SPEC_VERSION pf then
    let out_val :=
      to_unsigned (XLEN pf)
        (Z.land
           (Z.shiftl (SBI_ECALL_VERSION_MAJOR pf)
                     (SBI_SPEC_VERSION_MAJOR_OFFSET pf))
           (Z.shiftl (SBI_SPEC_VERSION_MAJOR_MASK pf)
                     (SBI_SPEC_VERSION_MAJOR_OFFSET pf))) in
    let out_val :=
      Z.lor out_val (to_unsigned (XLEN pf) (SBI_ECALL_VERSION_MINOR pf)) in
    Ret (ret, out_val)
  else if funcid =? SBI_EXT_BASE_GET_IMP_ID pf then
    Ret (ret, to_unsigned (XLEN pf) (SBI_OPENSBI_IMPID pf))
  else if funcid =? SBI_EXT_BASE_GET_IMP_VERSION pf then
    Ret (ret, to_unsigned (XLEN pf) (OPENSBI_VERSION pf))
  else if funcid =? SBI_EXT_BASE_GET_MVENDORID pf then
    do v <- call (csr_read CSR_MVENDORID); Ret (ret, v)
  else if funcid =? SBI_EXT_BASE_GET_MARCHID pf then
    do v <- call (csr_read CSR_MARCHID); Ret (ret, v)
  else if funcid =? SBI_EXT_BASE_GET_MIMPID pf then
    do v <- call (csr_read CSR_MIMPID); Ret (ret, v)
  else if funcid =? SBI_EXT_BASE_PROBE_EXT pf then
    sbi_ecall_base_probe scratch (arg args 0) out_val
  else if funcid =? SBI_MM_INIT pf then
    do r <- call (sm_mm_init (arg args 0) (arg args 1));
    Ret (to_int r, out_val)
  else if funcid =? SBI_MEMORY_EXTEND pf then
    do r <- call (sm_mm_extend (arg args 0) (arg args 1));
    Ret (to_int r, out_val)
  else if funcid =? SBI_ALLOC_ENCLAVE_MM pf then
    do r <- call (sm_alloc_enclave_mem (arg args 0));
    Ret (to_int r, out_val)
  else if funcid =? SBI_CREATE_ENCLAVE pf then
    do r <- call (sm_create_enclave (arg args 0));
    Ret (to_int r, out_val)
  else if funcid =? SBI_RUN_ENCLAVE pf then
    do r <- call (sm_run_enclave (arg args 5) (arg args 0));
    Ret (to_int r, out_val)
  else if funcid =? SBI_EXIT_ENCLAVE pf then
    do r <- call (sm_exit_enclave (arg args 5) (arg args 0));
    Ret (to_int r, out_val)
  else
    Ret (SBI_ENOTSUPP pf, out_val).

(** One admissible assignment of the constants, for a 64-bit hart: the
    base function ids and the error code are those of the SBI
    specification, the six monitor ids are distinct vendor numbers. *)
Definition rv64 : platform := {|
  XLEN := 64;
  SBI_EXT_BASE_GET_SPEC_VERSION := 0;
  SBI_EXT_BASE_GET_IMP_ID := 1;
  SBI_EXT_BASE_GET_IMP_VERSION := 2;
  SBI_EXT_BASE_PROBE_EXT := 3;
  SBI_EXT_BASE_GET_MVENDORID := 4;
  SBI_EXT_BASE_GET_MARCHID := 5;
  SBI_EXT_BASE_GET_MIMPID := 6;
  SBI_MM_INIT := 100;
  SBI_MEMORY_EXTEND := 92;
  SBI_ALLOC_ENCLAVE_MM := 93;
  SBI_CREATE_ENCLAVE := 99;
  SBI_RUN_ENCLAVE := 97;
  SBI_EXIT_ENCLAVE := 89;
  SBI_ENOTSUPP := -2;
  SBI_ECALL_VERSION_MAJOR := 0;
  SBI_ECALL_VERSION_MINOR := 2;
  SBI_SPEC_VERSION_MAJOR_OFFSET := 24;
  SBI_SPEC_VERSION_MAJOR_MASK := 127;
  SBI_OPENSBI_IMPID := 1;
  OPENSBI_VERSION := 6
|}.

End Sbi.

(** ** The lifecycle manager behind the run and exit calls *)

Module Sm.

(** Modelled from the spec: the register context of section 3 ("general
    registers, privilege-mode control state, program counter"), with the
    designated return-value register of section 8 kept apart. The monitor
    sources ([sm/enclave.c], [sm/sm.c], [sm/thread.c]) are missing. *)
Record context : Type := {
  pc : Z;
  retreg : Z;
  others : list Z
}.

(** Modelled from the spec: who executes on the hart once the trap
    returns (section 3, "exactly one context is live per hart"). *)
Inductive principal : Type := Host | Enclave (eid : Z).

(** Modelled from the spec: the lifecycle states of section 4.6. *)
Inductive lifecycle : Type := FRESH | CREATED | RUNNING | SUSPENDED | DESTROYED.

(** Modelled from the spec: the outcomes named in sections 4.6 and 7. *)
Inductive status : Type := OK | UnknownEnclaveId | InvalidState | InvalidParameters.

(** Modelled from the spec: an enclave-table entry (section 3). *)
Record enclave : Type := {
  state : lifecycle;
  saved : context
}.

(** Modelled from the spec: the monitor state seen by one hart. The
    register-save area at an address holds the context that becomes live
    when the trap returns; [host_saved] is the host context kept while an
    enclave runs; [one_shot] is the configuration choice of section 4.6. *)
Record monitor : Type := {
  save_area : gmap Z context;
  table : gmap Z enclave;
  host_saved : option context;
  live : principal;
  one_shot : bool
}.

(** Modelled from the spec: "run(id): requires CREATED or SUSPENDED". *)
Definition runnable (s : lifecycle) : bool :=
  match s with CREATED | SUSPENDED => true | _ => false end.

(** Modelled from the spec: [run] of section 4.6 with [enter] of section
    4.5: save the host's live context, restore the enclave's saved one,
    transfer control, go to RUNNING; an unknown id or a wrong state fails
    and switches nothing. *)
Definition run_enclave (regs eid : Z) (m : monitor) : status * monitor :=
  match live m with
  | Enclave _ => (InvalidState, m)
  | Host =>
      match table m !! eid with
      | None => (UnknownEnclaveId, m)
      | Some e =>
          if runnable (state e) then
            match save_area m !! regs with
            | None => (InvalidParameters, m)
            | Some host =>
                (OK, {| save_area := <[regs := saved e]> (save_area m);
                        table := <[eid := {| state := RUNNING;
                                             saved := saved e |}]> (table m);
                        host_saved := Some host;
                        live := Enclave eid;
                        one_shot := one_shot m |})
            end
          else (InvalidState, m)
      end
  end.

(** Modelled from the spec: [exit] of sections 4.5 and 4.6: only from
    within the running enclave; the inverse switch, recording the return
    value in the host's return-value register; the enclave goes to
    DESTROYED (one-shot) or SUSPENDED. *)
Definition exit_enclave (regs retval : Z) (m : monitor) : status * monitor :=
  match live m, host_saved m, save_area m !! regs with
  | Enclave eid, Some host, Some cur =>
      (OK, {| save_area :=
                <[regs := {| pc := pc host; retreg := retval;
                             others := others host |}]> (save_area m);
              table :=
                <[eid := {| state := if one_shot m then DESTROYED
                                     else SUSPENDED;
                            saved := cur |}]> (table m);
              host_saved := None;
              live := Host;
              one_shot := one_shot m |})
  | Enclave _, _, _ => (InvalidParameters, m)
  | Host, _, _ => (InvalidState, m)
  end.

(** Modelled from the spec: the two entry points as implementations of
    the dispatcher's [sm_run_enclave] and [sm_exit_enclave] calls; [code]
    is the numeric status encoding and [h] implements every other call. *)
Definition sm_handler (code : status -> Z) (h : handler Sbi.sbiE monitor)
    : handler Sbi.sbiE monitor :=
  fun X e =>
    match e in Sbi.sbiE T return monitor -> T * monitor with
    | Sbi.sm_run_enclave regs eid =>
        fun m => let '(s, m') := run_enclave regs eid m in (code s, m')
    | Sbi.sm_exit_enclave regs retval =>
        fun m => let '(s, m') := exit_enclave regs retval m in (code s, m')
    | e' => h _ e'
    end.

End Sm.

(** ** The IMA securityfs front end ([security/integrity/ima/ima_fs.c]) *)

Module Ima.

(** A [struct dentry *]: null, an [ERR_PTR] value, or a live dentry. *)
Inductive dentry_ptr : Type :=
| NULL
| ERR_PTR (e : Z)
| Dentry (d : nat).

#[export] Instance dentry_ptr_eq_dec : EqDecision dentry_ptr.
Proof. solve_decision. Defined.

Definition IS_ERR (p : dentry_ptr) : bool :=
  match p with ERR_PTR _ => true | _ => false end.

(** The four [struct file_operations] tables of the file. *)
Inductive fops : Type :=
| ima_measurements_ops
| ima_ascii_measurements_ops
| ima_htable_value_ops
| ima_data_upload_ops.

#[export] Instance fops_eq_dec : EqDecision fops.
Proof. solve_decision. Defined.

(** The file-scope dentry variables. *)
Inductive global : Type :=
| ima_dir
| ima_symlink
| binary_runtime_measurements
| ascii_runtime_measurements
| runtime_measurements_count
| violations
| ima_policy
| digests_count
| digest_list_data
| digest_list_data_del.

Definition global_index (g : global) : nat :=
  match g with
  | ima_dir => 0
  | ima_symlink => 1
  | binary_runtime_measurements => 2
  | ascii_runtime_measurements => 3
  | runtime_measurements_count => 4
  | violations => 5
  | ima_policy => 6
  | digests_count => 7
  | digest_list_data => 8
  | digest_list_data_del => 9
  end%nat.

Definition global_eqb (g g' : global) : bool :=
  Nat.eqb (global_index g) (global_index g').

(** The file-scope state: the dentry variables, [valid_policy] and
    [ima_fs_flags]. *)
Record statics : Type := {
  dent : global -> dentry_ptr;
  valid_policy : Z;
  ima_fs_flags : Z
}.

Definition set_dent (g : global) (p : dentry_ptr) (st : statics) : statics :=
  {| dent := fun g' => if global_eqb g' g then p else dent st g';
     valid_policy := valid_policy st;
     ima_fs_flags := ima_fs_flags st |}.

Definition set_valid_policy (v : Z) (st : statics) : statics :=
  {| dent := dent st; valid_policy := v; ima_fs_flags := ima_fs_flags st |}.

(** The state at load time: zero-initialised pointers, [valid_policy = 1]. *)
Definition boot : statics :=
  {| dent := fun _ => NULL; valid_policy := 1; ima_fs_flags := 0 |}.

(** Kernel constants the file uses ([errno-base.h], [ima.h]). *)
Record kconsts : Type := {
  EINVAL : Z;
  EFBIG : Z;
  ENOMEM : Z;
  EFAULT : Z;
  EACCES : Z;
  IMA_APPRAISE_POLICY : Z
}.

(** Error numbers are positive and below [MAX_ERRNO]. *)
Definition kconsts_ok (k : kconsts) : bool :=
  forallb (fun e => (0 <? e) && (e <=? 4095))
    [EINVAL k; EFBIG k; ENOMEM k; EFAULT k; EACCES k].

(** The values of Linux on every architecture the file is built for. *)
Definition linux : kconsts := {|
  EINVAL := 22; EFBIG := 27; ENOMEM := 12; EFAULT := 14; EACCES := 13;
  IMA_APPRAISE_POLICY := 8
|}.

(** *** securityfs *)

(** The live securityfs objects with the file operations they were
    created with (none for a directory or a symlink), and the number of
    creation requests made so far, which names the next dentry. *)
Record securityfs : Type := {
  files : gmap nat (option fops);
  created : nat
}.

Section Securityfs.

(** Which creation requests fail, and with what error. *)
Variable fails : nat -> option Z.

Definition securityfs_create (ops : option fops) (fs : securityfs)
    : dentry_ptr * securityfs :=
  let n := created fs in
  match fails n with
  | Some e => (ERR_PTR e, {| files := files fs; created := S n |})
  | None => (Dentry n, {| files := <[n := ops]> (files fs); created := S n |})
  end.

Definition securityfs_create_dir := securityfs_create None.
Definition securityfs_create_symlink := securityfs_create None.
Definition securityfs_create_file (ops : fops) := securityfs_create (Some ops).

(** [securityfs_remove] ignores null and error pointers. *)
Definition securityfs_remove (p : dentry_ptr) (fs : securityfs) : securityfs :=
  match p with
  | Dentry d => {| files := delete d (files fs); created := created fs |}
  | _ => fs
  end.

(** The [out:] label of [ima_fs_init]. *)
Definition ima_fs_init_out (st : statics) (fs : securityfs)
    : Z * statics * securityfs :=
  let fs := securityfs_remove (dent st digest_list_data_del) fs in
  let fs := securityfs_remove (dent st digest_list_data) fs in
  let fs := securityfs_remove (dent st digests_count) fs in
  let fs := securityfs_remove (dent st violations) fs in
  let fs := securityfs_remove (dent st runtime_measurements_count) fs in
  let fs := securityfs_remove (dent st ascii_runtime_measurements) fs in
  let fs := securityfs_remove (dent st binary_runtime_measurements) fs in
  let fs := securityfs_remove (dent st ima_symlink) fs in
  let fs := securityfs_remove (dent st ima_dir) fs in
  let fs := securityfs_remove (dent st ima_policy) fs in
  (-1, st, fs).

(** The part of [ima_fs_init] under [#ifdef CONFIG_IMA_DIGEST_LIST]. *)
Definition ima_fs_init_digest_list (st : statics) (fs : securityfs)
    : Z * statics * securityfs :=
  let '(p, fs) := securityfs_create_file ima_htable_value_ops fs in
  let st := set_dent digests_count p st in
  if IS_ERR (dent st digests_count) then ima_fs_init_out st fs else
  let '(p, fs) := securityfs_create_file ima_data_upload_ops fs in
  let st := set_dent digest_list_data p st in
  if IS_ERR (dent st digest_list_data) then ima_fs_init_out st fs else
  let '(p, fs) := securityfs_create_file ima_data_upload_ops fs in
  let st := set_dent digest_list_data_del p st in
  if IS_ERR (dent st digest_list_data_del) then ima_fs_init_out st fs else
  (0, st, fs).

(** [ima_fs_init]; [CONFIG_IMA_DIGEST_LIST] is the build option. *)
Definition ima_fs_init (CONFIG_IMA_DIGEST_LIST : bool)
    (st : statics) (fs : securityfs) : Z * statics * securityfs :=
  let '(p, fs) := securityfs_create_dir fs in
  let st := set_dent ima_dir p st in
  if IS_ERR (dent st ima_dir) then (-1, st, fs) else
  let '(p, fs) := securityfs_create_symlink fs in
  let st := set_dent ima_symlink p st in
  if IS_ERR (dent st ima_symlink) then ima_fs_init_out st fs else
  let '(p, fs) := securityfs_create_file ima_measurements_ops fs in
  let st := set_dent binary_runtime_measurements p st in
  if IS_ERR (dent st binary_runtime_measurements)
  then ima_fs_init_out st fs else
  let '(p, fs) := securityfs_create_file ima_ascii_measurements_ops fs in
  let st := set_dent ascii_runtime_measurements p st in
  if IS_ERR (dent st ascii_runtime_measurements)
  then ima_fs_init_out st fs else
  let '(p, fs) := securityfs_create_file ima_htable_value_ops fs in
  let st := set_dent runtime_measurements_count p st in
  if IS_ERR (dent st runtime_measurements_count)
  then ima_fs_init_out st fs else
  let '(p, fs) := securityfs_create_file ima_htable_value_ops fs in
  let st := set_dent violations p st in
  if IS_ERR (dent st violations) then ima_fs_init_out st fs else
  let '(p, fs) := securityfs_create_file ima_data_upload_ops fs in
  let st := set_dent ima_policy p st in
  if IS_ERR (dent st ima_policy) then ima_fs_init_out st fs else
  if CONFIG_IMA_DIGEST_LIST then ima_fs_init_digest_list st fs
  else (0, st, fs).

End Securityfs.

(** No live object carries the counter file operations. *)
Definition no_htable_files (fs : securityfs) : bool :=
  bool_decide (map_Forall (fun _ o => o <> Some ima_htable_value_ops)
                          (files fs)).

(** *** Calls that leave the file *)

Inductive counter : Type :=
| ima_htable_violations
| ima_htable_len
| ima_digests_htable_len.

Inductive digest_list_op : Type := DIGEST_LIST_OP_ADD | DIGEST_LIST_OP_DEL.

(** Kernel services and the other IMA units. [copy_from_user] answers the
    number of bytes it could not copy and the bytes now in the kernel
    buffer; [scnprintf_li] is [scnprintf(tmpbuf, size, "%li\n", v)];
    [simple_read_from_buffer] answers its result and the new [*ppos].
    [ima_read_file] is the static function of this file that loads a
    policy or digest list named by path; the write path reaches it only
    with the write mutex held and it is kept as a call here, with any
    answer; [WritePath.ima_write_data] runs its body in place of the
    call. *)
Inductive imaE : Type -> Type :=
| atomic_long_read (c : counter) : imaE Z
| scnprintf_li (size v : Z) : imaE (list byte * Z)
| simple_read_from_buffer (buf count ppos : Z) (from : list byte)
    (available : Z) : imaE (Z * Z)
| vmalloc (size : Z) : imaE Z
| vfree (p : Z) : imaE unit
| copy_from_user (to from n : Z) : imaE (Z * list byte)
| mutex_lock_interruptible : imaE Z
| mutex_unlock : imaE unit
| read_ima_appraise : imaE Z
| pr_err (msg : string) : imaE unit
| integrity_audit_msg (op cause : string) (result info : Z) : imaE unit
| ima_current_is_parser : imaE bool
| ima_parse_add_rule (rule : list byte) : imaE Z
| ima_parse_compact_list (len : Z) (buf : list byte) (op : digest_list_op)
    : imaE Z
| ima_read_file (path : list byte) (dentry : dentry_ptr) : imaE Z.

(** [ima_show_htable_value]: [val] stays null unless the file's dentry is
    one of the counter files; [atomic_long_read(val)] dereferences it. *)
Definition ima_show_htable_value (CONFIG_IMA_DIGEST_LIST : bool)
    (st : statics) (filp_dentry : dentry_ptr) (buf count ppos : Z)
    : prog imaE (Z * Z) :=
  let val : option counter :=
    if decide (filp_dentry = dent st violations) then
      Some ima_htable_violations
    else if decide (filp_dentry = dent st runtime_measurements_count) then
      Some ima_htable_len
    else if CONFIG_IMA_DIGEST_LIST
            && bool_decide (filp_dentry = dent st digests_count) then
      Some ima_digests_htable_len
    else None in
  match val with
  | None => Oops
  | Some c =>
      do v <- call (atomic_long_read c);
      do r <- call (scnprintf_li 32 v);
      call (simple_read_from_buffer buf count ppos (fst r) (snd r))
  end.

(** The [out:] label of [ima_write_data]. *)
Definition ima_write_data_out (st : statics) (dentry : dentry_ptr)
    (result : Z) : prog imaE (Z * statics) :=
  if bool_decide (dentry = dent st ima_policy) && (result <? 0)
  then Ret (result, set_valid_policy 0 st)
  else Ret (result, st).

(** The [out_free:] label of [ima_write_data]. *)
Definition ima_write_data_out_free (st : statics) (dentry : dentry_ptr)
    (data : Z) (result : Z) : prog imaE (Z * statics) :=
  do _ <- call (vfree data);
  ima_write_data_out st dentry result.

(** [ima_write_data]; [dentry] is [file_dentry(file)], [ppos] the value
    of [*ppos]. The result is the returned [ssize_t] and the file-scope
    state afterwards. *)
Definition ima_write_data (k : kconsts) (st : statics)
    (dentry : dentry_ptr) (buf datalen ppos : Z) : prog imaE (Z * statics) :=
  let result := - EINVAL k in
  if negb (ppos =? 0) then ima_write_data_out st dentry result else
  let result := - EFBIG k in
  if datalen >? 64 * 1024 * 1024 - 1
  then ima_write_data_out st dentry result else
  let result := - ENOMEM k in
  do data <- call (vmalloc (datalen + 1));
  if data =? 0 then ima_write_data_out st dentry result else
  let result := - EFAULT k in
  do c <- call (copy_from_user data buf datalen);
  if negb (fst c =? 0) then ima_write_data_out_free st dentry data result else
  let content := firstn (Z.to_nat datalen) (snd c) ++ [x00] in
  do result <- call mutex_lock_interruptible;
  if result <? 0 then ima_write_data_out_free st dentry data result else
  do result <-
    (if Byte.eqb (nth 0 content x00) x2f then
       call (ima_read_file content dentry)
     else if decide (dentry = dent st ima_policy) then
       do a <- call read_ima_appraise;
       if negb (Z.land a (IMA_APPRAISE_POLICY k) =? 0) then
         do _ <- call (pr_err
           "signed policy file (specified as an absolute pathname) required");
         do _ <- call (integrity_audit_msg "policy_update"
                         "signed policy required" 1 0);
         Ret (- EACCES k)
       else call (ima_parse_add_rule content)
     else if decide (dentry = dent st digest_list_data) then
       do b <- call ima_current_is_parser;
       if negb b then Ret (- EACCES k)
       else call (ima_parse_compact_list datalen content DIGEST_LIST_OP_ADD)
     else if decide (dentry = dent st digest_list_data_del) then
       do b <- call ima_current_is_parser;
       if negb b then Ret (- EACCES k)
       else call (ima_parse_compact_list datalen content DIGEST_LIST_OP_DEL)
     else
       do _ <- call (pr_err "Unknown data type");
       Ret (- EINVAL k));
  do _ <- call mutex_unlock;
  ima_write_data_out_free st dentry data result.

(** *** The measurement list *)

(** [struct list_head]. *)
Record list_head : Type := {
  next : Z;
  prev : Z
}.

(** The result of a walk over kernel memory: a value, an access to an
    unmapped address, or the step budget exhausted. *)
Inductive outcome (A : Type) : Type :=
| Done (a : A)
| Fault
| OutOfFuel.

Arguments Done {A} a.
Arguments Fault {A}.
Arguments OutOfFuel {A}.

Section Measurements.

(** The address of the list head [ima_measurements] and the offset of the
    member [later] in [struct ima_queue_entry]. *)
Variable ima_measurements : Z.
Variable later : Z.

(** [list_entry(ptr, struct ima_queue_entry, later)] and [&qe->later]. *)
Definition list_entry (ptr : Z) : Z := ptr - later.
Definition later_of (qe : Z) : Z := qe + later.

(** The loop of [ima_measurements_start] from the entry [qe] on, with
    [l] the countdown ([loff_t], 64 bits, signed). *)
Fixpoint list_for_each_entry (fuel : nat) (mem : gmap Z list_head)
    (qe : Z) (l : Z) : outcome Z :=
  match fuel with
  | O => OutOfFuel
  | S fuel =>
      if later_of qe =? ima_measurements then Done 0
      else if l =? 0 then Done qe
      else
        match mem !! later_of qe with
        | None => Fault
        | Some lh =>
            list_for_each_entry fuel mem (list_entry (next lh))
              (to_signed 64 (l - 1))
        end
  end.

(** [ima_measurements_start]; [pos] is the value of [*pos], the result is
    the returned pointer (0 is [NULL]). The RCU read lock has no effect
    on a single thread of execution. *)
Definition ima_measurements_start (fuel : nat) (mem : gmap Z list_head)
    (pos : Z) : outcome Z :=
  let l := pos in
  match mem !! ima_measurements with
  | None => Fault
  | Some head => list_for_each_entry fuel mem (list_entry (next head)) l
  end.

(** [ima_measurements_next]: the returned pointer and the new [*pos]. *)
Definition ima_measurements_next (mem : gmap Z list_head) (v pos : Z)
    : outcome (Z * Z) :=
  let qe := v in
  match mem !! later_of qe with
  | None => Fault
  | Some lh =>
      let qe := list_entry (next lh) in
      let pos := to_signed 64 (pos + 1) in
      Done (if later_of qe =? ima_measurements then 0 else qe, pos)
  end.

(** The queue entries [records], in this order, are linked after
    [from]: every entry is a non-null object other than the head and
    its [later.next] leads to the following one, the last one to the
    head. *)
Fixpoint linked (mem : gmap Z list_head) (from : Z) (records : list Z)
    : bool :=
  match records with
  | [] => from =? ima_measurements
  | qe :: rest =>
      (from =? later_of qe) && negb (qe =? 0)
      && negb (later_of qe =? ima_measurements)
      && match mem !! later_of qe with
         | Some lh => linked mem (next lh) rest
         | None => false
         end
  end.

(** [records] is the content of the measurement list, oldest first. *)
Definition measurement_list (mem : gmap Z list_head) (records : list Z)
    : bool :=
  match mem !! ima_measurements with
  | Some head => linked mem (next head) records
  | None => false
  end.

(** Modelled from the spec: the log "accepts append-only digest records"
    (section 6). [ima_queue.c], which queues an entry with
    [list_add_tail_rcu(&qe->later, &ima_measurements)], is missing; this
    is that insertion on the list memory, [new] being [&qe->later]. *)
Definition list_add_tail_rcu (new : Z) (mem : gmap Z list_head)
    : gmap Z list_head :=
  match mem !! ima_measurements with
  | None => mem
  | Some head =>
      let last := prev head in
      let mem := <[new := {| next := ima_measurements; prev := last |}]> mem in
      let mem := alter (fun lh => {| next := new; prev := prev lh |}) last mem in
      alter (fun lh => {| next := next lh; prev := new |}) ima_measurements mem
  end.

(** Modelled from the spec: the empty log, [LIST_HEAD(ima_measurements)]. *)
Definition empty_log : gmap Z list_head :=
  {[ ima_measurements := {| next := ima_measurements;
                            prev := ima_measurements |} ]}.

(** Modelled from the spec: the log after [entries] were appended in this
    order. *)
Definition log_of (entries : list Z) : gmap Z list_head :=
  foldl (fun mem qe => list_add_tail_rcu (later_of qe) mem) empty_log entries.

(** The list head that closes the list: the last entry's, or the head
    itself. *)
Definition tail_of (records : list Z) : Z :=
  match last records with
  | Some qe => later_of qe
  | None => ima_measurements
  end.

(** [records] is the content of the list, the head's [prev] points to
    the last entry, and no entry is queued twice. *)
Definition measurement_queue (mem : gmap Z list_head) (records : list Z)
    : bool :=
  measurement_list mem records
  && match mem !! ima_measurements with
     | Some head => prev head =? tail_of records
     | None => false
     end
  && bool_decide (NoDup records).

(** The queue entry at position [p] of the list, counted from 0, if
    there is one. *)
Definition record_at (records : list Z) (p : Z) : option Z :=
  if p <? 0 then None else records !! Z.to_nat p.

(** A queue entry as the pointer the iterator returns, [NULL] for none. *)
Definition pointer (o : option Z) : Z :=
  match o with Some qe => qe | None => 0 end.

End Measurements.

End Ima.

(** ** The ecall interface as the specification states it *)

Module Ecall.
Import Sbi.

(** The table of section 6 of the specification for the six monitor
    functions: the function id and the handler call with the argument
    words it is given. *)
Definition monitor_table (pf : platform) (args : list Z)
    : list (Z * sbiE Z) :=
  [ (SBI_MM_INIT pf, sm_mm_init (arg args 0) (arg args 1));
    (SBI_MEMORY_EXTEND pf, sm_mm_extend (arg args 0) (arg args 1));
    (SBI_ALLOC_ENCLAVE_MM pf, sm_alloc_enclave_mem (arg args 0));
    (SBI_CREATE_ENCLAVE pf, sm_create_enclave (arg args 0));
    (SBI_RUN_ENCLAVE pf, sm_run_enclave (arg args 5) (arg args 0));
    (SBI_EXIT_ENCLAVE pf, sm_exit_enclave (arg args 5) (arg args 0)) ].

(** The [int] result [ret], stored back in a register of [xlen] bits, is
    the value [r] the handler returned. *)
Definition exact (xlen ret r : Z) : Prop := to_unsigned xlen ret = r.

(** A run or exit call whose register-save area fails the check [valid]. *)
Definition unchecked_regs (valid : Z -> bool) (X : Type) (e : sbiE X)
    : bool :=
  match e with
  | sm_run_enclave regs _ | sm_exit_enclave regs _ => negb (valid regs)
  | _ => false
  end.

(** The six argument words of an ecall, each a register value. *)
Definition argument_words (pf : platform) (args : list Z) : Prop :=
  length args = 6%nat /\ Forall (fun a => 0 <= a < 2 ^ XLEN pf) args.

(** The dispatcher hands the run and exit handlers only register-save
    areas accepted by [valid]. *)
Definition regs_validated (pf : platform) (valid : Z -> bool) : Prop :=
  forall (scratch extid funcid : Z) (args : list Z) (out_val : Z),
    argument_words pf args ->
    avoids (unchecked_regs valid)
      (sbi_ecall_base_handler pf scratch extid funcid args out_val).

(** Probing never fails: whatever the registered extensions do, the
    status is 0. *)
Definition probe_never_fails : Prop :=
  forall (W : Type) (h : handler sbiE W) (w : W) (scratch extid out_val : Z),
    exists (o : Z) (w' : W),
      run h (sbi_ecall_base_probe scratch extid out_val) w = Some ((0, o), w').

(** An environment without state in which every monitor handler and CSR
    read answers [v], no extension is registered and a probe callback
    would answer [(v, out)]. *)
Definition answering (v : Z) : handler sbiE unit :=
  fun X e =>
    match e in sbiE T return unit -> T * unit with
    | sbi_ecall_find_extension _ => fun w => (None, w)
    | ext_probe _ _ _ out => fun w => ((v, out), w)
    | _ => fun w => (v, w)
    end.

(** An environment in which one extension covers every id and its probe
    callback, at address [fn], answers [status] and leaves [*out_val]. *)
Definition probing (fn status : Z) : handler sbiE unit :=
  fun X e =>
    match e in sbiE T return unit -> T * unit with
    | sbi_ecall_find_extension extid =>
        fun w => (Some {| extid_start := extid; extid_end := extid;
                          handle := 0; probe := fn |}, w)
    | ext_probe _ _ _ out => fun w => ((status, out), w)
    | _ => fun w => (0, w)
    end.

(** Every monitor ecall returns the value its handler returned: the
    result, stored back in a register, is that value. *)
Definition handler_result_returned (pf : platform) : Prop :=
  forall (W : Type) (h : handler sbiE W) (w : W) (scratch extid : Z)
         (args : list Z) (out_val : Z) (entry : Z * sbiE Z),
    In entry (monitor_table pf args) ->
    exists (ret o : Z) (w' : W),
      run h (sbi_ecall_base_handler pf scratch extid (fst entry) args
               out_val) w
      = Some ((ret, o), w')
      /\ exact (XLEN pf) ret (fst (h Z (snd entry) w)).

End Ecall.

(** ** The securityfs files as a user of the interface sees them *)

Module ImaSpec.
Import Ima.

(** securityfs before IMA registers anything. *)
Definition empty_securityfs : securityfs := {| files := ∅; created := 0 |}.

(** The file-scope state after a set-up in which every creation
    succeeds, with digest lists configured. *)
Definition mounted : statics :=
  snd (fst (ima_fs_init (fun _ => None) true boot empty_securityfs)).

(** A write at a non-zero offset fails with [-EINVAL], a write longer
    than [64 * 1024 * 1024 - 1] bytes fails with [-EFBIG], and either
    way the function returns at once with the file-scope state as it
    was. *)
Definition write_rejected_without_effect (k : kconsts) : Prop :=
  forall (st : statics) (dentry : dentry_ptr) (buf datalen ppos : Z),
    (ppos <> 0 ->
     ima_write_data k st dentry buf datalen ppos = Ret (- EINVAL k, st))
    /\ (datalen > 64 * 1024 * 1024 - 1 ->
        ima_write_data k st dentry buf datalen ppos = Ret (- EFBIG k, st)).

End ImaSpec.

(** ** Paths through a program tree *)

(** A call together with the answer it got. *)
Definition step (E : Type -> Type) : Type := {X : Type & (E X * X)%type}.

Definition answered {E : Type -> Type} {X : Type} (e : E X) (x : X)
    : step E :=
  existT X (e, x).

(** The calls made on a run, each with its answer. *)
Fixpoint steps {E : Type -> Type} {W R : Type}
    (h : handler E W) (p : prog E R) (w : W) : list (step E) :=
  match p with
  | Ret _ => []
  | Oops => []
  | Call e k => let '(x, w') := h _ e w in answered e x :: steps h (k x) w'
  end.

(** [post] holds of the calls made and of the result ([None] for an
    invalid dereference) on every path through [p], whatever the calls
    answer. *)
Fixpoint on_every_path {E : Type -> Type} {R : Type}
    (p : prog E R) (post : list (step E) -> option R -> Prop) : Prop :=
  match p with
  | Ret r => post [] (Some r)
  | Oops => post [] None
  | Call e k =>
      forall x, on_every_path (k x) (fun t r => post (answered e x :: t) r)
  end.

(** ** What a trace of the IMA front end shows *)

Module ImaTrace.
Import Ima.

(** The buffer a step allocates: the answer of a successful [vmalloc]. *)
Definition allocation (s : step imaE) : list Z :=
  match projT2 s with
  | (e, x) =>
      match e in imaE T return T -> list Z with
      | vmalloc _ => fun p => if p =? 0 then [] else [p]
      | _ => fun _ => []
      end x
  end.

(** The buffer a step frees. *)
Definition release (s : step imaE) : list Z :=
  match projT2 s with
  | (e, _) =>
      match e with
      | vfree p => [p]
      | _ => []
      end
  end.

Definition allocated (t : list (step imaE)) : list Z := flat_map allocation t.
Definition freed (t : list (step imaE)) : list Z := flat_map release t.

(** The text a step hands to a parser or to the path loader. *)
Definition parser_input (s : step imaE) : option (list byte) :=
  match projT2 s with
  | (e, _) =>
      match e with
      | ima_parse_add_rule rule => Some rule
      | ima_parse_compact_list _ buf _ => Some buf
      | ima_read_file path _ => Some path
      | _ => None
      end
  end.

(** How a step bears on [ima_write_mutex]. *)
Inductive lock_use : Type := Acquire | Release | Under | Apart.

Definition lock_use_of (s : step imaE) : lock_use :=
  match projT2 s with
  | (e, x) =>
      match e in imaE T return T -> lock_use with
      | mutex_lock_interruptible => fun r => if r <? 0 then Apart else Acquire
      | mutex_unlock => fun _ => Release
      | ima_parse_add_rule _ => fun _ => Under
      | ima_parse_compact_list _ _ _ => fun _ => Under
      | ima_read_file _ _ => fun _ => Under
      | _ => fun _ => Apart
      end x
  end.

(** The answer of a [vmalloc] step. *)
Definition vmalloc_answer (s : step imaE) : option Z :=
  match projT2 s with
  | (e, x) =>
      match e in imaE T return T -> option Z with
      | vmalloc _ => fun p => Some p
      | _ => fun _ => None
      end x
  end.

(** The answer of a [copy_from_user] step: the number of bytes left
    uncopied and the bytes in the kernel buffer. *)
Definition copy_answer (s : step imaE) : option (Z * list byte) :=
  match projT2 s with
  | (e, x) =>
      match e in imaE T return T -> option (Z * list byte) with
      | copy_from_user _ _ _ => fun c => Some c
      | _ => fun _ => None
      end x
  end.

(** The answer of a [mutex_lock_interruptible] step. *)
Definition lock_answer (s : step imaE) : option Z :=
  match projT2 s with
  | (e, x) =>
      match e in imaE T return T -> option Z with
      | mutex_lock_interruptible => fun r => Some r
      | _ => fun _ => None
      end x
  end.

(** The answer of an [ima_current_is_parser] step. *)
Definition parser_check (s : step imaE) : option bool :=
  match projT2 s with
  | (e, x) =>
      match e in imaE T return T -> option bool with
      | ima_current_is_parser => fun b => Some b
      | _ => fun _ => None
      end x
  end.

(** The value of [ima_appraise] a step reads. *)
Definition appraise_answer (s : step imaE) : option Z :=
  match projT2 s with
  | (e, x) =>
      match e in imaE T return T -> option Z with
      | read_ima_appraise => fun a => Some a
      | _ => fun _ => None
      end x
  end.

(** The cause a step reports to the audit log. *)
Definition audit_cause (s : step imaE) : option string :=
  match projT2 s with
  | (e, _) =>
      match e with
      | integrity_audit_msg _ cause _ _ => Some cause
      | _ => None
      end
  end.

(** The rule a step hands to [ima_parse_add_rule]. *)
Definition rule_parse (s : step imaE) : option (list byte) :=
  match projT2 s with
  | (e, _) =>
      match e with
      | ima_parse_add_rule rule => Some rule
      | _ => None
      end
  end.

(** The length, buffer and operation a step hands to
    [ima_parse_compact_list]. *)
Definition list_parse (s : step imaE)
    : option (Z * list byte * digest_list_op) :=
  match projT2 s with
  | (e, _) =>
      match e with
      | ima_parse_compact_list len buf op => Some (len, buf, op)
      | _ => None
      end
  end.

(** The path and dentry a step hands to [ima_read_file]. *)
Definition loader_call (s : step imaE) : option (list byte * dentry_ptr) :=
  match projT2 s with
  | (e, _) =>
      match e with
      | ima_read_file path dentry => Some (path, dentry)
      | _ => None
      end
  end.

(** The kernel buffer of [ima_write_data] after a copy of [datalen]
    bytes: the bytes and the terminator written behind them. *)
Definition written (datalen : Z) (bytes : list byte) : list byte :=
  firstn (Z.to_nat datalen) bytes ++ [x00].

(** The buffer starts with a slash: it names a file. *)
Definition names_file (buf : list byte) : bool :=
  Byte.eqb (nth 0 buf x00) x2f.

(** The message of a [pr_err] step. *)
Definition error_message (s : step imaE) : option string :=
  match projT2 s with
  | (e, _) =>
      match e with
      | pr_err msg => Some msg
      | _ => None
      end
  end.

(** A kernel in which nothing fails: [vmalloc] answers the address
    [4096], the copy delivers [bytes], the mutex is free, [ima_appraise]
    reads [appraise], the caller is the parser process or not, and a
    parser or loader answers the length it was given. *)
Definition obliging (bytes : list byte) (is_parser : bool) (appraise : Z)
    : handler imaE unit :=
  fun X e =>
    match e in imaE T return unit -> T * unit with
    | atomic_long_read _ => fun w => (0, w)
    | scnprintf_li _ _ => fun w => (([], 0), w)
    | simple_read_from_buffer _ _ ppos _ _ => fun w => ((0, ppos), w)
    | vmalloc _ => fun w => (4096, w)
    | vfree _ => fun w => (tt, w)
    | copy_from_user _ _ _ => fun w => ((0, bytes), w)
    | mutex_lock_interruptible => fun w => (0, w)
    | mutex_unlock => fun w => (tt, w)
    | read_ima_appraise => fun w => (appraise, w)
    | pr_err _ => fun w => (tt, w)
    | integrity_audit_msg _ _ _ _ => fun w => (tt, w)
    | ima_current_is_parser => fun w => (is_parser, w)
    | ima_parse_add_rule rule => fun w => (Z.of_nat (length rule) - 1, w)
    | ima_parse_compact_list len _ _ => fun w => (len, w)
    | ima_read_file path _ => fun w => (Z.of_nat (length path) - 1, w)
    end.

End ImaTrace.

(** ** Opening and releasing an upload file *)

Module Upload.
Import Ima.

(** [enum ima_fs_flags], and the bit of [ima_fs_flags] each stands for. *)
Inductive ima_fs_flag : Type :=
| IMA_POLICY_BUSY
| IMA_DIGEST_LIST_DATA_BUSY
| IMA_FS_BUSY.

Definition bit (flag : ima_fs_flag) : Z :=
  match flag with
  | IMA_POLICY_BUSY => 0
  | IMA_DIGEST_LIST_DATA_BUSY => 1
  | IMA_FS_BUSY => 2
  end.

(** [ima_get_dentry_flag]. *)
Definition ima_get_dentry_flag (st : statics) (dentry : dentry_ptr)
    : ima_fs_flag :=
  let flag := IMA_FS_BUSY in
  if decide (dentry = dent st ima_policy) then IMA_POLICY_BUSY
  else if bool_decide (dentry = dent st digest_list_data)
          || bool_decide (dentry = dent st digest_list_data_del)
  then IMA_DIGEST_LIST_DATA_BUSY
  else flag.

Definition set_ima_fs_flags (v : Z) (st : statics) : statics :=
  {| dent := dent st; valid_policy := valid_policy st; ima_fs_flags := v |}.

(** [test_and_set_bit(flag, &ima_fs_flags)]: the old bit and the state
    with the bit set. *)
Definition test_and_set_bit (flag : ima_fs_flag) (st : statics)
    : bool * statics :=
  (Z.testbit (ima_fs_flags st) (bit flag),
   set_ima_fs_flags (Z.setbit (ima_fs_flags st) (bit flag)) st).

(** [clear_bit(flag, &ima_fs_flags)]. *)
Definition clear_bit (flag : ima_fs_flag) (st : statics) : statics :=
  set_ima_fs_flags (Z.clearbit (ima_fs_flags st) (bit flag)) st.

(** Constants of [fcntl.h], [errno-base.h] and [stat.h] used by the two
    functions. *)
Record oconsts : Type := {
  O_RDONLY : Z;
  O_WRONLY : Z;
  O_ACCMODE : Z;
  EPERM : Z;
  EBUSY : Z;
  S_IWUSR : Z
}.

(** [O_RDONLY] is 0, [O_WRONLY] is a non-zero part of the access mode
    mask, and the error numbers are positive. *)
Definition oconsts_ok (c : oconsts) : bool :=
  (O_RDONLY c =? 0) && (0 <? O_WRONLY c)
  && (Z.land (O_WRONLY c) (O_ACCMODE c) =? O_WRONLY c)
  && (0 <? EPERM c) && (0 <? EBUSY c) && (0 <=? S_IWUSR c).

(** The values of Linux. *)
Definition linux_open : oconsts := {|
  O_RDONLY := 0; O_WRONLY := 1; O_ACCMODE := 3;
  EPERM := 1; EBUSY := 16; S_IWUSR := 128
|}.

(** The one [struct seq_operations] table the open path hands on. *)
Inductive seq_operations : Type := ima_policy_seqops.

(** The calls that leave the two functions. [audit_policy_update cause
    result] is [integrity_audit_msg(AUDIT_INTEGRITY_STATUS, NULL, NULL,
    "policy_update", cause, result, 0)] and [pr_info_policy_update] the
    message "policy update" followed by the cause. *)
Inductive uploadE : Type -> Type :=
| capable_sys_admin : uploadE bool
| seq_open (seq_ops : option seq_operations) : uploadE Z
| seq_release : uploadE Z
| ima_check_current_is_parser : uploadE bool
| ima_set_parser : uploadE unit
| ima_unset_parser : uploadE unit
| ima_check_policy : uploadE Z
| pr_info_policy_update (cause : string) : uploadE unit
| audit_policy_update (cause : string) (result : Z) : uploadE unit
| ima_delete_rules : uploadE unit
| ima_update_policy : uploadE unit.

Section Configured.

(** The build options. *)
Variables CONFIG_IMA_READ_POLICY CONFIG_IMA_WRITE_POLICY : bool.
Variables (k : kconsts) (c : oconsts).

Definition is_digest_list_file (st : statics) (dentry : dentry_ptr) : bool :=
  bool_decide (dentry = dent st digest_list_data)
  || bool_decide (dentry = dent st digest_list_data_del).

(** [ima_open_data_upload]; [dentry] is [file_dentry(filp)], [f_flags]
    is [filp->f_flags]. The result is the returned [int] and the
    file-scope state afterwards. *)
Definition ima_open_data_upload (st : statics) (dentry : dentry_ptr)
    (f_flags : Z) : prog uploadE (Z * statics) :=
  let seq_ops : option seq_operations := None in
  let flag := ima_get_dentry_flag st dentry in
  let read_allowed := false in
  let '(read_allowed, seq_ops) :=
    if bool_decide (dentry = dent st ima_policy) && CONFIG_IMA_READ_POLICY
    then (true, Some ima_policy_seqops)
    else (read_allowed, seq_ops) in
  if Z.land f_flags (O_WRONLY c) =? 0 then
    if negb read_allowed then Ret (- EACCES k, st)
    else if negb (Z.land f_flags (O_ACCMODE c) =? O_RDONLY c)
    then Ret (- EACCES k, st)
    else
      do admin <- call capable_sys_admin;
      if negb admin then Ret (- EPERM c, st)
      else do r <- call (seq_open seq_ops); Ret (r, st)
  else
    let '(busy, st) := test_and_set_bit flag st in
    if busy then Ret (- EBUSY c, st)
    else
      if is_digest_list_file st dentry then
        do parser <- call ima_check_current_is_parser;
        if (parser : bool)
        then (do _ <- call ima_set_parser; Ret (0, st))
        else Ret (0, st)
      else Ret (0, st).

(** The part of [ima_release_data_upload] after [ima_update_policy],
    chosen by the build options. *)
Definition after_update (flag : ima_fs_flag) (st : statics)
    (fs : securityfs) (i_mode : Z) : statics * securityfs * Z :=
  if negb CONFIG_IMA_WRITE_POLICY && negb CONFIG_IMA_READ_POLICY then
    (set_dent ima_policy NULL st,
     securityfs_remove (dent st ima_policy) fs, i_mode)
  else if CONFIG_IMA_WRITE_POLICY then (clear_bit flag st, fs, i_mode)
  else (st, fs, Z.land i_mode (Z.lnot (S_IWUSR c))).

(** [ima_release_data_upload]; [i_mode] is [inode->i_mode]. The result
    is the returned [int] and the file-scope state, securityfs and the
    inode mode afterwards. *)
Definition ima_release_data_upload (st : statics) (fs : securityfs)
    (i_mode : Z) (dentry : dentry_ptr) (f_flags : Z)
    : prog uploadE (Z * (statics * securityfs * Z)) :=
  let cause :=
    if negb (valid_policy st =? 0)
    then "completed"%string else "failed"%string in
  let flag := ima_get_dentry_flag st dentry in
  if Z.land f_flags (O_ACCMODE c) =? O_RDONLY c then
    do r <- call seq_release; Ret (r, (st, fs, i_mode))
  else
    do _ <- (if is_digest_list_file st dentry
             then call ima_unset_parser else Ret tt);
    if negb (bool_decide (dentry = dent st ima_policy)) then
      Ret (0, (clear_bit flag st, fs, i_mode))
    else
      do checked <-
        (if negb (valid_policy st =? 0) then
           do r <- call ima_check_policy;
           if r <? 0 then Ret ("failed"%string, set_valid_policy 0 st)
           else Ret (cause, st)
         else Ret (cause, st));
      let cause := fst checked in
      let st := snd checked in
      do _ <- call (pr_info_policy_update cause);
      do _ <- call (audit_policy_update cause
                      (if valid_policy st =? 0 then 1 else 0));
      if valid_policy st =? 0 then
        do _ <- call ima_delete_rules;
        let st := set_valid_policy 1 st in
        Ret (0, (clear_bit flag st, fs, i_mode))
      else
        do _ <- call ima_update_policy;
        Ret (0, after_update flag st fs i_mode).

End Configured.

(** What a step of the two functions does to the policy rules. *)
Definition deletes_rules (s : step uploadE) : bool :=
  match projT2 s with
  | (e, _) => match e with ima_delete_rules => true | _ => false end
  end.

Definition updates_policy (s : step uploadE) : bool :=
  match projT2 s with
  | (e, _) => match e with ima_update_policy => true | _ => false end
  end.

Definition checks_policy (s : step uploadE) : bool :=
  match projT2 s with
  | (e, _) => match e with ima_check_policy => true | _ => false end
  end.

(** The answer of an [ima_check_policy] step. *)
Definition check_answer (s : step uploadE) : option Z :=
  match projT2 s with
  | (e, x) =>
      match e in uploadE T return T -> option Z with
      | ima_check_policy => fun r => Some r
      | _ => fun _ => None
      end x
  end.

(** What a step does to the parser registration. *)
Definition sets_parser (s : step uploadE) : bool :=
  match projT2 s with
  | (e, _) => match e with ima_set_parser => true | _ => false end
  end.

Definition unsets_parser (s : step uploadE) : bool :=
  match projT2 s with
  | (e, _) => match e with ima_unset_parser => true | _ => false end
  end.

(** The cause a step reports to the audit log. *)
Definition reported (s : step uploadE) : option (string * Z) :=
  match projT2 s with
  | (e, _) =>
      match e with
      | audit_policy_update cause result => Some (cause, result)
      | _ => None
      end
  end.

(** The table a step hands to [seq_open]. *)
Definition opened_seq (s : step uploadE) : option (option seq_operations) :=
  match projT2 s with
  | (e, _) => match e with seq_open ops => Some ops | _ => None end
  end.

(** The answer of a [capable(CAP_SYS_ADMIN)] step. *)
Definition capability (s : step uploadE) : option bool :=
  match projT2 s with
  | (e, x) =>
      match e in uploadE T return T -> option bool with
      | capable_sys_admin => fun b => Some b
      | _ => fun _ => None
      end x
  end.

(** The number of steps of a kind. *)
Definition count (f : step uploadE -> bool) (t : list (step uploadE)) : nat :=
  length (List.filter f t).

End Upload.

(** ** The set-up seen from outside *)

Module Setup.
Import Ima.

(** No live object carries the upload file operations. *)
Definition no_upload_files (fs : securityfs) : bool :=
  bool_decide (map_Forall (fun _ o => o <> Some ima_data_upload_ops)
                          (files fs)).

(** The number of objects [ima_fs_init] tries to create. *)
Definition attempts (CONFIG_IMA_DIGEST_LIST : bool) : nat :=
  if CONFIG_IMA_DIGEST_LIST then 10 else 7.

End Setup.

(** ** What a caller of the base extension observes *)

Module Base.
Import Sbi.

(** The function ids that only report a value, in the order of the
    switch. *)
Definition info_ids (pf : platform) : list Z :=
  [ SBI_EXT_BASE_GET_SPEC_VERSION pf; SBI_EXT_BASE_GET_IMP_ID pf;
    SBI_EXT_BASE_GET_IMP_VERSION pf; SBI_EXT_BASE_GET_MVENDORID pf;
    SBI_EXT_BASE_GET_MARCHID pf; SBI_EXT_BASE_GET_MIMPID pf ].

(** How a caller takes the reported specification version apart: the
    major number sits above [SBI_SPEC_VERSION_MAJOR_OFFSET] under
    [SBI_SPEC_VERSION_MAJOR_MASK], the minor number below the offset. *)
Definition major_of (pf : platform) (v : Z) : Z :=
  Z.land (Z.shiftr v (SBI_SPEC_VERSION_MAJOR_OFFSET pf))
         (SBI_SPEC_VERSION_MAJOR_MASK pf).

Definition minor_of (pf : platform) (v : Z) : Z :=
  Z.land v (Z.ones (SBI_SPEC_VERSION_MAJOR_OFFSET pf)).

End Base.

(** ** Showing a measurement record ([ima_measurements_show] and
       [ima_ascii_measurements_show]) *)

Module Showing.

(** [enum ima_show_type]. *)
Inductive ima_show_type : Type :=
| IMA_SHOW_BINARY
| IMA_SHOW_BINARY_NO_FIELD_LEN
| IMA_SHOW_BINARY_OLD_STRING_FMT
| IMA_SHOW_ASCII.

(** [struct ima_field_data]: the address of the field's bytes and their
    number. *)
Record ima_field_data : Type := {
  data : Z;
  len : Z
}.

(** [struct ima_template_field]; [field_show] is a function pointer. *)
Record ima_template_field : Type := {
  field_id : string;
  field_show : Z
}.

(** [struct ima_template_desc]; a C string is the text before its
    terminating NUL. *)
Record ima_template_desc : Type := {
  name : string;
  fmt : string;
  num_fields : Z;
  fields : list ima_template_field
}.

(** [struct ima_template_entry]; [digest] is the byte array
    [digests[ima_sha1_idx].digest]. *)
Record ima_template_entry : Type := {
  pcr : Z;
  digest : list byte;
  template_desc : ima_template_desc;
  template_data_len : Z;
  template_data : list ima_field_data
}.

(** The argument that follows the format of a [seq_printf]. *)
Inductive printf_arg : Type :=
| int_arg (v : Z)
| str_arg (s : string).

(** The calls that write to the [seq_file]; [call_field_show fn show d]
    is the indirect call [field->field_show(m, show, d)]. *)
Inductive seqE : Type -> Type :=
| seq_putc (c : byte) : seqE unit
| seq_printf (format : string) (a : printf_arg) : seqE unit
| seq_puts (s : string) : seqE unit
| call_field_show (fn : Z) (show : ima_show_type) (field_data : ima_field_data)
    : seqE Z.

Definition strlen (s : string) : Z := Z.of_nat (String.length s).

(** The C string ["\n"]. *)
Definition newline : string := String (Ascii.ascii_of_nat 10) EmptyString.

(** The byte with value [v mod 256]. *)
Definition byte_of (v : Z) : byte :=
  default x00 (Byte.of_N (Z.to_N (v mod 256))).

(** The four bytes of a 32-bit value, least significant first. *)
Definition le32 (v : Z) : list byte :=
  [ byte_of v; byte_of (v / 2 ^ 8); byte_of (v / 2 ^ 16);
    byte_of (v / 2 ^ 24) ].

(** The value four bytes stand for, least significant first. *)
Definition le32_value (bytes : list byte) : Z :=
  foldr (fun b acc => Z.of_N (Byte.to_N b) + 2 ^ 8 * acc) 0 bytes.

(** The 32-bit value with its four bytes in the opposite order. *)
Definition swab32 (v : Z) : Z := le32_value (rev (le32 v)).

(** The loop of [ima_putc] with [datalen] iterations left; [data] is the
    object from the pointer on, reading past its end is invalid. *)
Fixpoint ima_putc_loop (data : list byte) (datalen : nat) {struct datalen}
    : prog seqE unit :=
  match datalen with
  | O => Ret tt
  | S datalen =>
      match data with
      | [] => Oops
      | c :: data => do _ <- call (seq_putc c); ima_putc_loop data datalen
      end
  end.

(** [ima_putc]. A negative [datalen] counts away from zero: the loop
    writes every byte of the object and then reads past its end. *)
Definition ima_putc (data : list byte) (datalen : Z) : prog seqE unit :=
  if datalen <? 0 then ima_putc_loop data (S (length data))
  else ima_putc_loop data (Z.to_nat datalen).

(** The loop of [ima_print_digest] from index [i] with [n] iterations
    left. *)
Fixpoint ima_print_digest_loop (digest : list byte) (i n : nat)
    : prog seqE unit :=
  match n with
  | O => Ret tt
  | S n =>
      match digest !! i with
      | None => Oops
      | Some b =>
          do _ <- call (seq_printf "%02x" (int_arg (Z.of_N (Byte.to_N b))));
          ima_print_digest_loop digest (S i) n
      end
  end.

(** [ima_print_digest]; [size] is a [u32]. *)
Definition ima_print_digest (digest : list byte) (size : Z)
    : prog seqE unit :=
  ima_print_digest_loop digest 0 (Z.to_nat size).

Section Platform.

(** [big_endian]: the byte order of the CPU. [cpu_to_le32] comes from the
    kernel's byte-order headers, [TPM_DIGEST_SIZE] and
    [IMA_TEMPLATE_IMA_NAME] from [tpm.h] and [ima.h]; [ima_canonical_fmt]
    is set at boot. *)
Variables (big_endian : bool) (cpu_to_le32 : Z -> Z)
  (TPM_DIGEST_SIZE : Z) (IMA_TEMPLATE_IMA_NAME : string)
  (ima_canonical_fmt : bool).

(** The object representation of a [u32]. *)
Definition u32_bytes (v : Z) : list byte :=
  if big_endian then rev (le32 v) else le32 v.

(** [template_name] of both show functions. *)
Definition template_name_of (desc : ima_template_desc) : string :=
  match name desc with
  | EmptyString => fmt desc
  | _ => name desc
  end.

(** The field loop of [ima_measurements_show] at index [i] with [n]
    iterations left. [&e->template_data[i]] is handed on as the element
    it points to; an index outside either array is an invalid access. *)
Fixpoint show_fields (is_ima_template : bool) (e : ima_template_entry)
    (i n : nat) : prog seqE unit :=
  match n with
  | O => Ret tt
  | S n =>
      let show := IMA_SHOW_BINARY in
      match fields (template_desc e) !! i with
      | None => Oops
      | Some field =>
          let show :=
            if is_ima_template && String.eqb (field_id field) "d"
            then IMA_SHOW_BINARY_NO_FIELD_LEN else show in
          let show :=
            if is_ima_template && String.eqb (field_id field) "n"
            then IMA_SHOW_BINARY_OLD_STRING_FMT else show in
          match template_data e !! i with
          | None => Oops
          | Some field_data =>
              do _ <- call (call_field_show (field_show field) show
                              field_data);
              show_fields is_ima_template e (S i) n
          end
      end
  end.

(** [ima_measurements_show]; [entry] is [qe->entry], [None] for a null
    pointer. *)
Definition ima_measurements_show (entry : option ima_template_entry)
    : prog seqE Z :=
  match entry with
  | None => Ret (-1)
  | Some e =>
      let template_name := template_name_of (template_desc e) in
      let pcr :=
        if negb ima_canonical_fmt then to_unsigned 32 (pcr e)
        else cpu_to_le32 (to_unsigned 32 (pcr e)) in
      do _ <- ima_putc (u32_bytes pcr) 4;
      do _ <- ima_putc (digest e) (to_int TPM_DIGEST_SIZE);
      let namelen :=
        if negb ima_canonical_fmt then to_unsigned 32 (strlen template_name)
        else cpu_to_le32 (to_unsigned 32 (strlen template_name)) in
      do _ <- ima_putc (u32_bytes namelen) 4;
      do _ <- ima_putc (String.list_byte_of_string template_name)
                (to_int (strlen template_name));
      let is_ima_template :=
        String.eqb template_name IMA_TEMPLATE_IMA_NAME in
      do _ <- (if negb is_ima_template then
                 let template_data_len :=
                   if negb ima_canonical_fmt
                   then to_unsigned 32 (template_data_len e)
                   else cpu_to_le32 (to_unsigned 32 (template_data_len e)) in
                 ima_putc (u32_bytes template_data_len) 4
               else Ret tt);
      do _ <- show_fields is_ima_template e 0
                (Z.to_nat (num_fields (template_desc e)));
      Ret 0
  end.

(** The field loop of [ima_ascii_measurements_show]. *)
Fixpoint ascii_fields (e : ima_template_entry) (i n : nat)
    : prog seqE unit :=
  match n with
  | O => Ret tt
  | S n =>
      do _ <- call (seq_puts " ");
      match template_data e !! i with
      | None => Oops
      | Some field_data =>
          if len field_data =? 0 then ascii_fields e (S i) n
          else
            match fields (template_desc e) !! i with
            | None => Oops
            | Some field =>
                do _ <- call (call_field_show (field_show field)
                                IMA_SHOW_ASCII field_data);
                ascii_fields e (S i) n
            end
      end
  end.

(** [ima_ascii_measurements_show]. *)
Definition ima_ascii_measurements_show (entry : option ima_template_entry)
    : prog seqE Z :=
  match entry with
  | None => Ret (-1)
  | Some e =>
      let template_name := template_name_of (template_desc e) in
      do _ <- call (seq_printf "%2d " (int_arg (pcr e)));
      do _ <- ima_print_digest (digest e) (to_unsigned 32 TPM_DIGEST_SIZE);
      do _ <- call (seq_printf " %s" (str_arg template_name));
      do _ <- ascii_fields e 0 (Z.to_nat (num_fields (template_desc e)));
      do _ <- call (seq_puts newline);
      Ret 0
  end.

End Platform.

(** What a step writes to the file, its answer put aside. *)
Inductive item : Type :=
| Char (c : byte)
| Printf (format : string) (a : printf_arg)
| Text (s : string)
| Field (fn : Z) (show : ima_show_type) (field_data : ima_field_data).

Definition item_of (s : step seqE) : item :=
  match projT2 s with
  | (e, _) =>
      match e with
      | seq_putc c => Char c
      | seq_printf format a => Printf format a
      | seq_puts s => Text s
      | call_field_show fn show d => Field fn show d
      end
  end.

Definition written (t : list (step seqE)) : list item := map item_of t.

(** What [ima_print_digest] prints for one byte. *)
Definition hex (b : byte) : item :=
  Printf "%02x" (int_arg (Z.of_N (Byte.to_N b))).

(** What the ASCII format writes for one field: the separator, and the
    field itself unless it is empty. *)
Definition ascii_field (fd : ima_template_field * ima_field_data)
    : list item :=
  Text " "
  :: (if len fd.2 =? 0 then []
      else [Field (field_show fd.1) IMA_SHOW_ASCII fd.2]).

(** The show type the "ima" template uses for a field. *)
Definition legacy_show (id : string) : ima_show_type :=
  if String.eqb id "d" then IMA_SHOW_BINARY_NO_FIELD_LEN
  else if String.eqb id "n" then IMA_SHOW_BINARY_OLD_STRING_FMT
  else IMA_SHOW_BINARY.

(** A template entry as the template code builds it: the data array has
    one element per field of the description. *)
Definition well_formed (e : ima_template_entry) : Prop :=
  num_fields (template_desc e) = Z.of_nat (length (fields (template_desc e)))
  /\ length (template_data e) = length (fields (template_desc e)).

(** The "ima-ng" description and an entry of it, on a sample. *)
Definition ima_ng : ima_template_desc := {|
  name := "ima-ng";
  fmt := "d-ng|n-ng";
  num_fields := 2;
  fields := [ {| field_id := "d-ng"; field_show := 4096 |};
              {| field_id := "n-ng"; field_show := 8192 |} ]
|}.

Definition sample_entry : ima_template_entry := {|
  pcr := 10;
  digest := repeat xaa 20;
  template_desc := ima_ng;
  template_data_len := 50;
  template_data := [ {| data := 65536; len := 40 |};
                     {| data := 65600; len := 0 |} ]
|}.

End Showing.

(** ** Loading a policy or a digest list by path ([ima_read_file]) *)

Module ReadFile.
Import Ima.

(** [enum kernel_read_file_id], the two values used here. *)
Inductive kernel_read_file_id : Type := READING_POLICY | READING_DIGEST_LIST.

(** A [struct file *] is its pointer value as a [long]; [IS_ERR] holds of
    the last [MAX_ERRNO] = 4095 values of the address space. *)
Definition IS_ERR_file (file : Z) : bool := (- 4095 <=? file) && (file <? 0).

Arguments IS_ERR_file : simpl never.

(** The calls that leave [ima_read_file]. [kernel_read_file] answers its
    result, the address it stored in [data] and the bytes of the object
    at that address. A C-string argument is the text before its NUL. *)
Inductive fileE : Type -> Type :=
| filp_open (filename : list byte) (flags mode : Z) : fileE Z
| kernel_read_file (file offset buf_size : Z) (id : kernel_read_file_id)
    : fileE (Z * (Z * list byte))
| fput (file : Z) : fileE unit
| vfree (addr : Z) : fileE unit
| pr_err (format : string) (path : list byte) (err : Z) : fileE unit
| pr_debug_rule (rule : list byte) : fileE unit
| ima_parse_add_rule (rule : list byte) : fileE Z
| ima_check_measured_appraised (file : Z) : fileE unit
| ima_parse_compact_list (size : Z) (buf : list byte) (op : digest_list_op)
    : fileE Z.

(** [strlen] on the object [s]: the number of bytes before the first
    NUL; [None] when the object ends before a NUL is found. *)
Fixpoint strlen (s : list byte) : option nat :=
  match s with
  | [] => None
  | c :: s => if Byte.eqb c x00 then Some O else S <$> strlen s
  end.

(** [strsep(&s, "\n")] on a non-null [s]: the token returned, as the
    text before the NUL that ends it, and the new value of [s] ([None]
    for a null pointer, when the string ended without a newline). The
    result is [None] when the object ends before a newline or a NUL. *)
Fixpoint strsep (s : list byte) : option (list byte * option (list byte)) :=
  match s with
  | [] => None
  | c :: s =>
      if Byte.eqb c x00 then Some ([], None)
      else if Byte.eqb c x0a then Some ([], Some s)
      else
        match strsep s with
        | Some (token, s) => Some (c :: token, s)
        | None => None
        end
  end.

Definition INT_MAX : Z := 2 ^ 31 - 1.

Section Configured.

(** [EINVAL] comes with [k], [O_RDONLY] from [fcntl.h]; [BITS_PER_LONG]
    is the width of [size_t]. *)
Variables (k : kconsts) (O_RDONLY : Z) (BITS_PER_LONG : Z).

(** The loop [while (size > 0)] with [fuel] iterations allowed; the
    result is [size] and [rc] when the loop is left, [None] when it is
    still running after [fuel] iterations. *)
Fixpoint read_loop (fuel : nat) (st : statics) (dentry : dentry_ptr)
    (file : Z) (data : list byte) (datap : option (list byte))
    (size rc : Z) (op : digest_list_op) : prog fileE (option (Z * Z)) :=
  match fuel with
  | O => Ret None
  | S fuel =>
      if negb (size >? 0) then Ret (Some (size, rc))
      else if decide (dentry = dent st ima_policy) then
        match datap with
        | None => Ret (Some (size, rc))
        | Some s =>
            match strsep s with
            | None => Oops
            | Some (p, datap) =>
                do _ <- call (pr_debug_rule p);
                do r <- call (ima_parse_add_rule p);
                let rc := to_int r in
                if rc <? 0 then Ret (Some (size, rc))
                else
                  read_loop fuel st dentry file data datap
                    (to_unsigned BITS_PER_LONG (size - rc)) rc op
            end
        end
      else if bool_decide (dentry = dent st digest_list_data)
              || bool_decide (dentry = dent st digest_list_data_del) then
        do _ <- call (ima_check_measured_appraised file);
        let op :=
          if decide (dentry = dent st digest_list_data_del)
          then DIGEST_LIST_OP_DEL else op in
        do rc <- call (ima_parse_compact_list size data op);
        if rc <? 0 then Ret (Some (size, rc))
        else
          read_loop fuel st dentry file data datap
            (to_unsigned BITS_PER_LONG (size - rc)) rc op
      else
        if rc <? 0 then Ret (Some (size, rc))
        else
          read_loop fuel st dentry file data datap
            (to_unsigned BITS_PER_LONG (size - rc)) rc op
  end.

(** [ima_read_file]; [path] is the object [path] points to. The result
    is the returned [ssize_t], [None] when the loop is still running
    after [fuel] iterations. *)
Definition ima_read_file (fuel : nat) (st : statics) (path : list byte)
    (dentry : dentry_ptr) : prog fileE (option Z) :=
  let file_id := READING_POLICY in
  let op := DIGEST_LIST_OP_ADD in
  match strlen path with
  | None => Oops
  | Some n =>
      let pathlen := to_int (Z.of_nat n) in
      match strsep path with
      | None => Oops
      | Some (path, _) =>
          let file_id :=
            if bool_decide (dentry = dent st digest_list_data)
               || bool_decide (dentry = dent st digest_list_data_del)
            then READING_DIGEST_LIST else file_id in
          do file <- call (filp_open path O_RDONLY 0);
          if IS_ERR_file file then
            do _ <- call (pr_err "Unable to open file: %s (%ld)" path file);
            Ret (Some file)
          else
            do r <- call (kernel_read_file file 0 INT_MAX file_id);
            let rc := r.1 in
            let data := r.2.1 in
            if rc <? 0 then
              do _ <- call (pr_err "Unable to read file: %s (%d)" path rc);
              do _ <- call (fput file);
              Ret (Some rc)
            else
              let size := to_unsigned BITS_PER_LONG rc in
              let rc := 0 in
              let datap := if data =? 0 then None else Some r.2.2 in
              do l <- read_loop fuel st dentry file r.2.2 datap size rc op;
              match l with
              | None => Ret None
              | Some (size, rc) =>
                  do _ <- call (vfree data);
                  do _ <- call (fput file);
                  if rc <? 0 then Ret (Some rc)
                  else if negb (size =? 0) then Ret (Some (- EINVAL k))
                  else Ret (Some pathlen)
              end
      end
  end.

End Configured.

(** *** What a trace of [ima_read_file] shows *)

(** The file a step opens: the answer of a successful [filp_open]. *)
Definition opening (s : step fileE) : option Z :=
  match projT2 s with
  | (e, x) =>
      match e in fileE T return T -> option Z with
      | filp_open _ _ _ => fun f => if IS_ERR_file f then None else Some f
      | _ => fun _ => None
      end x
  end.

(** The file a step puts. *)
Definition putting (s : step fileE) : option Z :=
  match projT2 s with
  | (e, _) => match e with fput f => Some f | _ => None end
  end.

(** The buffer a step receives: the address a successful
    [kernel_read_file] stored. *)
Definition receiving (s : step fileE) : option Z :=
  match projT2 s with
  | (e, x) =>
      match e in fileE T return T -> option Z with
      | kernel_read_file _ _ _ _ => fun r => if r.1 <? 0 then None else Some r.2.1
      | _ => fun _ => None
      end x
  end.

(** The buffer a step frees. *)
Definition freeing (s : step fileE) : option Z :=
  match projT2 s with
  | (e, _) => match e with vfree a => Some a | _ => None end
  end.

(** The result a step's parser call has, as the [int] kept in [rc]. *)
Definition parse_result (s : step fileE) : option Z :=
  match projT2 s with
  | (e, x) =>
      match e in fileE T return T -> option Z with
      | ima_parse_add_rule _ => fun r => Some (to_int r)
      | ima_parse_compact_list _ _ _ => fun r => Some r
      | _ => fun _ => None
      end x
  end.

(** The rule a step hands to the rule parser. *)
Definition rule_of (s : step fileE) : option (list byte) :=
  match projT2 s with
  | (e, _) => match e with ima_parse_add_rule rule => Some rule | _ => None end
  end.

(** The arguments of a step's digest-list parser call. *)
Definition list_call (s : step fileE)
    : option (Z * list byte * digest_list_op) :=
  match projT2 s with
  | (e, _) =>
      match e with
      | ima_parse_compact_list size buf op => Some (size, buf, op)
      | _ => None
      end
  end.

(** The file name a step opens, with the flags, and the kind of read. *)
Definition open_request (s : step fileE) : option (list byte * Z) :=
  match projT2 s with
  | (e, _) =>
      match e with
      | filp_open filename flags _ => Some (filename, flags)
      | _ => None
      end
  end.

Definition read_kind (s : step fileE) : option kernel_read_file_id :=
  match projT2 s with
  | (e, _) =>
      match e with
      | kernel_read_file _ _ _ id => Some id
      | _ => None
      end
  end.

(** The bytes a step loads: the object a successful [kernel_read_file]
    left at [data]. *)
Definition loading (s : step fileE) : option (list byte) :=
  match projT2 s with
  | (e, x) =>
      match e in fileE T return T -> option (list byte) with
      | kernel_read_file _ _ _ _ =>
          fun r => if r.1 <? 0 then None else Some r.2.2
      | _ => fun _ => None
      end x
  end.

(** The number of bytes a step reads: the result of a successful
    [kernel_read_file]. *)
Definition read_size (s : step fileE) : option Z :=
  match projT2 s with
  | (e, x) =>
      match e in fileE T return T -> option Z with
      | kernel_read_file _ _ _ _ =>
          fun r => if r.1 <? 0 then None else Some r.1
      | _ => fun _ => None
      end x
  end.

(** The file a step checks with [ima_check_measured_appraised]. *)
Definition checking (s : step fileE) : option Z :=
  match projT2 s with
  | (e, _) =>
      match e with ima_check_measured_appraised f => Some f | _ => None end
  end.

(** The size a step's digest-list parser call was given and the result
    it had. *)
Definition list_answer (s : step fileE) : option (Z * Z) :=
  match projT2 s with
  | (e, x) =>
      match e in fileE T return T -> option (Z * Z) with
      | ima_parse_compact_list size _ _ => fun r => Some (size, r)
      | _ => fun _ => None
      end x
  end.

(** The rule a step's rule parser call was given and the result it had. *)
Definition rule_answer (s : step fileE) : option (list byte * Z) :=
  match projT2 s with
  | (e, x) =>
      match e in fileE T return T -> option (list byte * Z) with
      | ima_parse_add_rule rule => fun r => Some (rule, r)
      | _ => fun _ => None
      end x
  end.

(** What a step's [kernel_read_file] answered: the result, the address
    stored in [data] and the bytes there. *)
Definition read_answer (s : step fileE) : option (Z * Z * list byte) :=
  match projT2 s with
  | (e, x) =>
      match e in fileE T return T -> option (Z * Z * list byte) with
      | kernel_read_file _ _ _ _ => fun r => Some (r.1, r.2.1, r.2.2)
      | _ => fun _ => None
      end x
  end.

(** The text of a file that holds the given rules, one to a line, each
    line ended by a newline. *)
Definition file_of (rules : list (list byte)) : list byte :=
  flat_map (fun rule => rule ++ [x0a]) rules.

(** A rule as a line of text: it holds neither a NUL nor a newline. *)
Definition one_line (rule : list byte) : Prop :=
  Forall (fun c => c <> x00 /\ c <> x0a) rule.

(** The lines of the C string at the head of an object: the text split
    at every newline, up to the NUL or the end of the object. *)
Fixpoint lines (s : list byte) : list (list byte) :=
  match s with
  | [] => [[]]
  | c :: s =>
      if Byte.eqb c x00 then [[]]
      else if Byte.eqb c x0a then [] :: lines s
      else
        match lines s with
        | line :: rest => (c :: line) :: rest
        | [] => [[c]]
        end
  end.

(** The digest-list file an operation belongs to. *)
Definition file_of_op (op : digest_list_op) : global :=
  match op with
  | DIGEST_LIST_OP_ADD => digest_list_data
  | DIGEST_LIST_OP_DEL => digest_list_data_del
  end.

(** A step the loop of [ima_read_file] makes on the file [dentry]: the
    rule parser with its debug message on the policy file, the
    digest-list parser with its check on a digest-list file that is not
    the policy file, with the operation of that file. *)
Definition loop_step (st : statics) (dentry : dentry_ptr) (s : step fileE)
    : Prop :=
  match projT2 s with
  | (e, _) =>
      match e with
      | pr_debug_rule _ | ima_parse_add_rule _ => dentry = dent st ima_policy
      | ima_check_measured_appraised _ =>
          dentry <> dent st ima_policy
      | ima_parse_compact_list _ _ op =>
          dentry <> dent st ima_policy /\ dentry = dent st (file_of_op op)
      | _ => False
      end
  end.

(** The runs of [ima_read_file] on [path] and [dentry], as the calls
    made and the result: an invalid read of the path before any call; a
    failed open; a failed read; or an open, a read and steps of the
    loop, followed by the release of the buffer and of the file exactly
    when the function returns. *)
Definition run_shape (O_RDONLY : Z) (st : statics) (path : list byte)
    (dentry : dentry_ptr) (t : list (step fileE)) (r : option (option Z))
    : Prop :=
  (t = [] /\ r = None)
  \/ exists (name : list byte) (rest : option (list byte)) (file : Z),
       strsep path = Some (name, rest)
       /\ ((IS_ERR_file file = true
            /\ t = [ answered (filp_open name O_RDONLY 0) file;
                     answered (pr_err "Unable to open file: %s (%ld)"
                                 name file) tt ]
            /\ r = Some (Some file))
           \/ (IS_ERR_file file = false
               /\ exists (id : kernel_read_file_id) (rc data : Z)
                         (bytes : list byte),
                    (rc < 0
                     /\ t = [ answered (filp_open name O_RDONLY 0) file;
                              answered (kernel_read_file file 0 INT_MAX id)
                                (rc, (data, bytes));
                              answered
                                (pr_err "Unable to read file: %s (%d)"
                                   name rc) tt;
                              answered (fput file) tt ]
                     /\ r = Some (Some rc))
                    \/ (0 <= rc
                        /\ exists tl : list (step fileE),
                             Forall (loop_step st dentry) tl
                             /\ ((t = answered (filp_open name O_RDONLY 0)
                                        file
                                      :: answered
                                           (kernel_read_file file 0 INT_MAX
                                              id)
                                           (rc, (data, bytes))
                                      :: tl
                                      ++ [ answered (vfree data) tt;
                                           answered (fput file) tt ]
                                  /\ exists v : Z, r = Some (Some v))
                                 \/ (t = answered
                                           (filp_open name O_RDONLY 0) file
                                         :: answered
                                              (kernel_read_file file 0
                                                 INT_MAX id)
                                              (rc, (data, bytes))
                                         :: tl
                                     /\ forall v : Z,
                                          r <> Some (Some v)))))).

(** A step of the digest-list branch: the check of the file, or the
    parser call with its arguments. *)
Inductive list_event : Type :=
| Checked (file : Z)
| Parsed (size : Z) (buf : list byte) (op : digest_list_op).

Definition list_event_of (s : step fileE) : option list_event :=
  match projT2 s with
  | (e, _) =>
      match e with
      | ima_check_measured_appraised f => Some (Checked f)
      | ima_parse_compact_list size buf op => Some (Parsed size buf op)
      | _ => None
      end
  end.

(** The sizes the parser calls were given count down from [size]: each
    call gets what the one before left, as a value of [w] bits. *)
Fixpoint counts_down (w size : Z) (calls : list (Z * Z)) : Prop :=
  match calls with
  | [] => True
  | sa :: calls =>
      sa.1 = size /\ counts_down w (to_unsigned w (size - sa.2)) calls
  end.

(** The lines still ahead of [datap]; none for a null pointer. *)
Definition tokens_of (datap : option (list byte)) : list (list byte) :=
  match datap with
  | None => []
  | Some s => lines s
  end.

(** The operation a digest-list file stands for. *)
Definition op_of (st : statics) (dentry : dentry_ptr) : digest_list_op :=
  if decide (dentry = dent st digest_list_data_del)
  then DIGEST_LIST_OP_DEL else DIGEST_LIST_OP_ADD.

(** The parser made progress: it failed, or it took at least one byte
    and no more than it was given. *)
Definition progress (sa : Z * Z) : Prop := sa.2 < 0 \/ 0 < sa.2 <= sa.1.

End ReadFile.

(** ** The write path with [ima_read_file] in place *)

Module WritePath.
Import Ima.

(** The calls of a function and the calls of a function it calls. *)
Inductive sumE (E F : Type -> Type) : Type -> Type :=
| caller {X : Type} (e : E X) : sumE E F X
| callee {X : Type} (e : F X) : sumE E F X.

Arguments caller {E F X} e.
Arguments callee {E F X} e.

(** A tree with every call renamed by [f]. *)
Fixpoint relabel {E G : Type -> Type} {R : Type}
    (f : forall X, E X -> G X) (p : prog E R) : prog G R :=
  match p with
  | Ret r => Ret r
  | Oops => Oops
  | Call e k => Call (f _ e) (fun x => relabel f (k x))
  end.

(** A step with its call renamed by [f]. *)
Definition relabel_step {E G : Type -> Type} (f : forall X, E X -> G X)
    (s : step E) : step G :=
  match s with
  | existT _ (e, x) => answered (f _ e) x
  end.

(** [inline body p]: the tree [p] with the tree [body e] in place of
    each call [e]. A body that ends with [None] has not returned; the
    whole tree then ends with [None]. *)
Fixpoint inline {E G : Type -> Type} {R : Type}
    (body : forall X, E X -> prog G (option X)) (p : prog E R)
    : prog G (option R) :=
  match p with
  | Ret r => Ret (Some r)
  | Oops => Oops
  | Call e k =>
      do answer <- body _ e;
      match answer with
      | Some x => inline body (k x)
      | None => Ret None
      end
  end.

(** The calls of [ima_write_data] and of [ima_read_file]. *)
Definition pathE : Type -> Type := sumE imaE ReadFile.fileE.

(** A call of [ima_read_file] as a call of the write path. *)
Definition as_callee (X : Type) (e : ReadFile.fileE X) : pathE X := callee e.

Section Configured.

Variables (k : kconsts) (O_RDONLY : Z) (BITS_PER_LONG : Z).

(** What stands for a call of [ima_write_data]: the body of the static
    function [ima_read_file], run for at most [fuel] iterations of its
    loop, or the call itself. *)
Definition body (fuel : nat) (st : statics) (X : Type) (e : imaE X)
    : prog pathE (option X) :=
  match e in imaE T return prog pathE (option T) with
  | ima_read_file path dentry =>
      relabel as_callee
        (ReadFile.ima_read_file k O_RDONLY BITS_PER_LONG fuel st path dentry)
  | e => Call (caller e) (fun x => Ret (Some x))
  end.

(** [ima_write_data] with [ima_read_file] in place of its call; the
    result is [None] when the loop of [ima_read_file] is still running
    after [fuel] iterations. *)
Definition ima_write_data (fuel : nat) (st : statics) (dentry : dentry_ptr)
    (buf datalen ppos : Z) : prog pathE (option (Z * statics)) :=
  inline (body fuel st) (Ima.ima_write_data k st dentry buf datalen ppos).

End Configured.

(** The step as one of the caller's, or of the callee's. *)
Definition own {E F : Type -> Type} (s : step (sumE E F))
    : option (step E) :=
  match projT2 s with
  | (e, x) =>
      match e in sumE _ _ T return T -> option (step E) with
      | caller e => fun x => Some (answered e x)
      | callee _ => fun _ => None
      end x
  end.

Definition helper {E F : Type -> Type} (s : step (sumE E F))
    : option (step F) :=
  match projT2 s with
  | (e, x) =>
      match e in sumE _ _ T return T -> option (step F) with
      | caller _ => fun _ => None
      | callee e => fun x => Some (answered e x)
      end x
  end.

(** How a step of the write path bears on [ima_write_mutex]: a step of
    [ima_read_file] is one that needs the mutex held. *)
Definition path_lock_use (s : step pathE) : ImaTrace.lock_use :=
  match own s with
  | Some s => ImaTrace.lock_use_of s
  | None => ImaTrace.Under
  end.

(** The mutex along a trace, from [held]: [None] when it is taken while
    held, released while free, or needed while free; otherwise whether it
    is held at the end. *)
Fixpoint lock_run (held : bool) (uses : list ImaTrace.lock_use)
    : option bool :=
  match uses with
  | [] => Some held
  | ImaTrace.Acquire :: uses => if held then None else lock_run true uses
  | ImaTrace.Release :: uses => if held then lock_run false uses else None
  | ImaTrace.Under :: uses => if held then lock_run held uses else None
  | ImaTrace.Apart :: uses => lock_run held uses
  end.

(** Two implementations side by side, on one world. *)
Definition both {E F : Type -> Type} {W : Type}
    (h : handler E W) (h' : handler F W) : handler (sumE E F) W :=
  fun X e =>
    match e in sumE _ _ T return W -> T * W with
    | caller e => h _ e
    | callee e => h' _ e
    end.

(** A kernel in which the file named holds [text]: the open answers the
    address [7], the read answers the length of [text] and the buffer at
    [8192], and a parser takes the rule and its newline, or all it is
    given. *)
Definition serving (text : list byte) : handler ReadFile.fileE unit :=
  fun X e =>
    match e in ReadFile.fileE T return unit -> T * unit with
    | ReadFile.filp_open _ _ _ => fun w => (7, w)
    | ReadFile.kernel_read_file _ _ _ _ =>
        fun w => ((Z.of_nat (length text), (8192, text)), w)
    | ReadFile.fput _ => fun w => (tt, w)
    | ReadFile.vfree _ => fun w => (tt, w)
    | ReadFile.pr_err _ _ _ => fun w => (tt, w)
    | ReadFile.pr_debug_rule _ => fun w => (tt, w)
    | ReadFile.ima_parse_add_rule rule =>
        fun w => (Z.of_nat (length rule) + 1, w)
    | ReadFile.ima_check_measured_appraised _ => fun w => (tt, w)
    | ReadFile.ima_parse_compact_list size _ _ => fun w => (size, w)
    end.

End WritePath.

(** * Properties *)

(** ** Integer conversions *)

Lemma to_signed_small (w v : Z) :
  0 < w -> - 2 ^ (w - 1) <= v < 2 ^ (w - 1) -> to_signed w v = v.
Proof.
  intros Hw H. unfold to_signed.
  assert (E : 2 ^ w = 2 * 2 ^ (w - 1)).
  { replace w with (Z.succ (w - 1)) at 1 by lia. apply Z.pow_succ_r. lia. }
  rewrite Z.mod_small by lia. lia.
Qed.

Lemma to_signed_range (w v : Z) :
  0 < w -> - 2 ^ (w - 1) <= to_signed w v < 2 ^ (w - 1).
Proof.
  intros Hw. unfold to_signed.
  assert (E : 2 ^ w = 2 * 2 ^ (w - 1)).
  { replace w with (Z.succ (w - 1)) at 1 by lia. apply Z.pow_succ_r. lia. }
  assert (0 < 2 ^ (w - 1)) by (apply Z.pow_pos_nonneg; lia).
  pose proof (Z.mod_pos_bound (v + 2 ^ (w - 1)) (2 ^ w) ltac:(lia)). lia.
Qed.

(** ** The dispatcher *)

Module SbiProofs.
Import Sbi.

(** Every inequality between a function id and the case labels follows
    from membership facts; this tactic turns [x ∉ [a; b; ...]] and
    [NoDup [a; b; ...]] into the separate inequalities. *)
Ltac split_ids :=
  repeat match goal with
  | H : NoDup (_ :: _) |- _ => apply NoDup_cons in H; destruct H as [? H]
  | H : NoDup [] |- _ => clear H
  | H : _ ∉ (_ :: _) |- _ => apply not_elem_of_cons in H; destruct H as [? H]
  | H : _ ∉ [] |- _ => clear H
  end.

Ltac eqb_neq_all :=
  repeat match goal with
  | H : ?a <> ?b |- context [?a =? ?b] =>
      rewrite (proj2 (Z.eqb_neq a b) H)
  | H : ?b <> ?a |- context [?a =? ?b] =>
      rewrite (proj2 (Z.eqb_neq a b) (not_eq_sym H))
  end.

Lemma platform_ok_nodup (pf : platform) :
  platform_ok pf = true -> NoDup (funcids pf).
Proof.
  unfold platform_ok. intros H.
  repeat (apply andb_prop in H; destruct H as [H ?]).
  eapply bool_decide_eq_true_1; eassumption.
Qed.

Lemma platform_ok_enotsupp (pf : platform) :
  platform_ok pf = true -> - 2 ^ 31 <= SBI_ENOTSUPP pf < 0.
Proof.
  unfold platform_ok. intros H.
  repeat (apply andb_prop in H; destruct H as [H ?]).
  lia.
Qed.

(** The default arm of the switch. *)
Lemma handler_default (pf : platform) (scratch extid funcid : Z)
    (args : list Z) (out_val : Z) :
  funcid ∉ funcids pf ->
  sbi_ecall_base_handler pf scratch extid funcid args out_val
  = Ret (SBI_ENOTSUPP pf, out_val).
Proof.
  intros H. unfold funcids, base_ids, monitor_ids in H. cbn [app] in H.
  split_ids. unfold sbi_ecall_base_handler. eqb_neq_all. reflexivity.
Qed.

(** C2. A function id that is none of the case labels of the
    base-extension dispatcher is answered with [SBI_ENOTSUPP], a negative
    status, and nothing else happens: the dispatcher makes no call at
    all, the word behind [out_val] keeps its value, and under every
    implementation of the external calls the world is left as it was. *)
Theorem unknown_funcid_not_supported (pf : platform)
    (scratch extid funcid : Z) (args : list Z) (out_val : Z) :
  platform_ok pf = true ->
  funcid ∉ funcids pf ->
  sbi_ecall_base_handler pf scratch extid funcid args out_val
    = Ret (SBI_ENOTSUPP pf, out_val)
  /\ SBI_ENOTSUPP pf < 0
  /\ forall (W : Type) (h : handler sbiE W) (w : W),
       run h (sbi_ecall_base_handler pf scratch extid funcid args out_val) w
         = Some ((SBI_ENOTSUPP pf, out_val), w)
       /\ calls h
            (sbi_ecall_base_handler pf scratch extid funcid args out_val) w
          = [].
Proof.
  intros Hok Hid.
  pose proof (handler_default pf scratch extid funcid args out_val Hid) as E.
  split; [exact E|]. split; [apply platform_ok_enotsupp in Hok; lia|].
  intros W h w. rewrite E. split; reflexivity.
Qed.

Lemma unknown_funcid_not_supported_witness :
  platform_ok rv64 = true /\ (7 ∉ funcids rv64)
  /\ sbi_ecall_base_handler rv64 0 16 7 [1; 2; 3; 4; 5; 6] 42
     = Ret (-2, 42).
Proof.
  assert (Hok : platform_ok rv64 = true) by (vm_compute; reflexivity).
  assert (Hid : 7 ∉ funcids rv64).
  { apply (bool_decide_eq_true_1 (7 ∉ funcids rv64)). vm_compute. reflexivity. }
  split; [exact Hok|]. split; [exact Hid|].
  exact (proj1 (unknown_funcid_not_supported rv64 0 16 7 [1; 2; 3; 4; 5; 6] 42
                  Hok Hid)).
Defined.

Import Ecall.

(** The specification version on the sample platform: major 0, minor 2. *)
Example spec_version_rv64 :
  sbi_ecall_base_handler rv64 0 16 0 [0; 0; 0; 0; 0; 0] 7 = Ret (0, 2).
Proof. reflexivity. Qed.

(** A machine-vendor-id request is one CSR read, returned in [*out_val]. *)
Example mvendorid_rv64 :
  run (Ecall.answering 1155)
      (sbi_ecall_base_handler rv64 0 16 4 [0; 0; 0; 0; 0; 0] 7) tt
  = Some ((0, 1155), tt).
Proof. reflexivity. Qed.

(** Probing an id for which nothing is registered. *)
Example probe_unregistered :
  run (Ecall.answering 0)
      (sbi_ecall_base_handler rv64 0 16 3 [77; 0; 0; 0; 0; 0] 7) tt
  = Some ((0, 0), tt).
Proof. reflexivity. Qed.

(** *** The six monitor arms of the switch *)

Section Arms.

Variable pf : platform.
Hypothesis pf_ok : platform_ok pf = true.
Variables (scratch extid : Z) (args : list Z) (out_val : Z).

Ltac arm :=
  pose proof (platform_ok_nodup pf pf_ok) as Hnd;
  unfold funcids, base_ids, monitor_ids in Hnd; cbn [app] in Hnd;
  split_ids; unfold sbi_ecall_base_handler; eqb_neq_all;
  rewrite Z.eqb_refl; reflexivity.

Lemma handler_mm_init :
  sbi_ecall_base_handler pf scratch extid (SBI_MM_INIT pf) args out_val
  = Call (sm_mm_init (arg args 0) (arg args 1))
         (fun r => Ret (to_int r, out_val)).
Proof. arm. Qed.

Lemma handler_mm_extend :
  sbi_ecall_base_handler pf scratch extid (SBI_MEMORY_EXTEND pf) args out_val
  = Call (sm_mm_extend (arg args 0) (arg args 1))
         (fun r => Ret (to_int r, out_val)).
Proof. arm. Qed.

Lemma handler_alloc_enclave_mm :
  sbi_ecall_base_handler pf scratch extid (SBI_ALLOC_ENCLAVE_MM pf) args
    out_val
  = Call (sm_alloc_enclave_mem (arg args 0))
         (fun r => Ret (to_int r, out_val)).
Proof. arm. Qed.

Lemma handler_create_enclave :
  sbi_ecall_base_handler pf scratch extid (SBI_CREATE_ENCLAVE pf) args
    out_val
  = Call (sm_create_enclave (arg args 0))
         (fun r => Ret (to_int r, out_val)).
Proof. arm. Qed.

Lemma handler_run_enclave :
  sbi_ecall_base_handler pf scratch extid (SBI_RUN_ENCLAVE pf) args out_val
  = Call (sm_run_enclave (arg args 5) (arg args 0))
         (fun r => Ret (to_int r, out_val)).
Proof. arm. Qed.

Lemma handler_exit_enclave :
  sbi_ecall_base_handler pf scratch extid (SBI_EXIT_ENCLAVE pf) args out_val
  = Call (sm_exit_enclave (arg args 5) (arg args 0))
         (fun r => Ret (to_int r, out_val)).
Proof. arm. Qed.

(** The probe never reaches the monitor. *)
Lemma probe_avoids_monitor (id out : Z) :
  avoids is_sm_call (sbi_ecall_base_probe scratch id out).
Proof.
  cbn. split; [reflexivity|]. intros [ext|]; [|exact I].
  destruct (negb (probe ext =? 0)); cbn; [|exact I].
  split; [reflexivity|]. intros x. exact I.
Qed.

(** Outside the six monitor ids no arm calls into the monitor. *)
Lemma other_ids_avoid_monitor (funcid : Z) :
  funcid ∉ monitor_ids pf ->
  avoids is_sm_call
    (sbi_ecall_base_handler pf scratch extid funcid args out_val).
Proof.
  intros H. unfold monitor_ids in H. split_ids.
  unfold sbi_ecall_base_handler.
  repeat match goal with
  | |- context [funcid =? ?c] =>
      destruct (Z.eqb_spec funcid c);
      [ first [ exact I | contradiction
              | apply probe_avoids_monitor
              | (cbn; split; [reflexivity | intros x; exact I]) ] | ]
  end.
  exact I.
Qed.

End Arms.

(** One call answered by [r] and a return of [f r]: the trace and the
    result under any implementation. *)
Lemma run_one_call {W R X : Type} (h : handler sbiE W) (e : sbiE X)
    (f : X -> R) (w : W) :
  calls h (Call e (fun r => Ret (f r))) w = [ev e]
  /\ run h (Call e (fun r => Ret (f r))) w
     = Some (f (fst (h X e w)), snd (h X e w)).
Proof.
  cbn. destruct (h X e w) as [x w']. split; reflexivity.
Qed.

(** *** The [int] result against the handler's [uintptr_t] *)

(** Narrowing a register-wide value to [int] and widening it back gives
    the value again exactly when it is a sign-extended 32-bit number. *)
Lemma to_int_exact_iff (xlen r : Z) :
  xlen = 32 \/ xlen = 64 ->
  0 <= r < 2 ^ xlen ->
  exact xlen (to_int r) r <-> (r < 2 ^ 31 \/ 2 ^ xlen - 2 ^ 31 <= r).
Proof.
  unfold exact, to_unsigned, to_int. intros [-> | ->] Hr.
  - change (2 ^ 32) with 4294967296 in *.
    change (2 ^ 31) with 2147483648 in *.
    split; [lia|]. intros _. Z.div_mod_to_equations. lia.
  - change (2 ^ 64) with 18446744073709551616 in *.
    change (2 ^ 32) with 4294967296 in *.
    change (2 ^ 31) with 2147483648 in *.
    split; intros H; Z.div_mod_to_equations; lia.
Qed.

Lemma platform_ok_xlen (pf : platform) :
  platform_ok pf = true -> XLEN pf = 32 \/ XLEN pf = 64.
Proof.
  unfold platform_ok. intros H.
  repeat (apply andb_prop in H; destruct H as [H ?]).
  apply orb_prop in H. destruct H as [H | H]; apply Z.eqb_eq in H; tauto.
Qed.

(** C3, as the code has it. The dispatcher has exactly six monitor
    operations: memory-pool init, memory-pool extend, enclave-memory
    allocate, enclave create, enclave run and enclave exit, under six
    distinct function ids. For each of them the dispatcher is one call of
    the handler the table of the specification names, made once and
    before the dispatcher returns. The single value the ecall returns is
    the handler's result narrowed to the dispatcher's [int] return type
    (the word behind [out_val] is left alone); stored back in a register
    it is the handler's value exactly when that value is a sign-extended
    32-bit number. Every other function id makes no call into the
    monitor. *)
Theorem six_monitor_operations (pf : platform) (scratch extid : Z)
    (args : list Z) (out_val : Z) :
  platform_ok pf = true ->
  length (monitor_ids pf) = 6%nat
  /\ NoDup (monitor_ids pf)
  /\ map fst (monitor_table pf args) = monitor_ids pf
  /\ Forall (fun entry =>
       is_sm_call Z (snd entry) = true
       /\ sbi_ecall_base_handler pf scratch extid (fst entry) args out_val
          = Call (snd entry) (fun r => Ret (to_int r, out_val))
       /\ forall (W : Type) (h : handler sbiE W) (w : W),
            calls h (sbi_ecall_base_handler pf scratch extid (fst entry)
                       args out_val) w
              = [ev (snd entry)]
            /\ run h (sbi_ecall_base_handler pf scratch extid (fst entry)
                        args out_val) w
               = Some ((to_int (fst (h Z (snd entry) w)), out_val),
                       snd (h Z (snd entry) w)))
     (monitor_table pf args)
  /\ (forall funcid : Z,
        funcid ∉ monitor_ids pf ->
        avoids is_sm_call
          (sbi_ecall_base_handler pf scratch extid funcid args out_val))
  /\ forall r : Z,
       0 <= r < 2 ^ XLEN pf ->
       exact (XLEN pf) (to_int r) r
       <-> (r < 2 ^ 31 \/ 2 ^ XLEN pf - 2 ^ 31 <= r).
Proof.
  intros Hok.
  split; [reflexivity|].
  split.
  { pose proof (platform_ok_nodup pf Hok) as Hnd. unfold funcids in Hnd.
    apply NoDup_app in Hnd. tauto. }
  split; [reflexivity|].
  split.
  { unfold monitor_table.
    repeat (apply Forall_cons; split;
      [ split; [reflexivity|]; cbn [fst snd];
        first [ rewrite handler_mm_init by exact Hok
              | rewrite handler_mm_extend by exact Hok
              | rewrite handler_alloc_enclave_mm by exact Hok
              | rewrite handler_create_enclave by exact Hok
              | rewrite handler_run_enclave by exact Hok
              | rewrite handler_exit_enclave by exact Hok ];
        split; [reflexivity|]; intros W h w;
        apply (run_one_call h _ (fun r => (to_int r, out_val)) w) | ]).
    apply Forall_nil. exact I. }
  split; [intros funcid Hid; apply other_ids_avoid_monitor; assumption|].
  intros r Hr. unfold exact, to_unsigned, to_int.
  destruct (platform_ok_xlen pf Hok) as [E | E]; rewrite E in *.
  - change (2 ^ 32) with 4294967296 in *.
    change (2 ^ 31) with 2147483648 in *.
    split; [lia|]. intros _. Z.div_mod_to_equations. lia.
  - change (2 ^ 64) with 18446744073709551616 in *.
    change (2 ^ 32) with 4294967296 in *.
    change (2 ^ 31) with 2147483648 in *.
    split; intros H; Z.div_mod_to_equations; lia.
Qed.

Lemma six_monitor_operations_witness :
  platform_ok rv64 = true
  /\ sbi_ecall_base_handler rv64 0 16 93 [4096; 0; 0; 0; 0; 0] 0
     = Call (sm_alloc_enclave_mem 4096) (fun r => Ret (to_int r, 0)).
Proof.
  assert (Hok : platform_ok rv64 = true) by (vm_compute; reflexivity).
  split; [exact Hok|].
  pose proof (six_monitor_operations rv64 0 16 [4096; 0; 0; 0; 0; 0] 0 Hok)
    as (_ & _ & _ & H & _).
  unfold monitor_table in H.
  apply Forall_cons in H as [_ H]. apply Forall_cons in H as [_ H].
  apply Forall_cons in H as [H _]. exact (proj1 (proj2 H)).
Defined.

(** C3 as stated fails: on a 64-bit hart, let [sm_run_enclave] return
    [2^32 + 1]. The ecall returns 1, which is not the value the handler
    returned. *)
Lemma run_result_not_handler_value :
  run (answering (2 ^ 32 + 1))
      (sbi_ecall_base_handler rv64 0 16 (SBI_RUN_ENCLAVE rv64)
         [3; 0; 0; 0; 0; 4096] 0) tt
    = Some ((1, 0), tt)
  /\ 0 <= 2 ^ 32 + 1 < 2 ^ XLEN rv64
  /\ ~ handler_result_returned rv64.
Proof.
  split; [vm_compute; reflexivity|].
  split; [vm_compute; split; [discriminate | reflexivity]|].
  intros H.
  destruct (H unit (answering (2 ^ 32 + 1)) tt 0 16 [3; 0; 0; 0; 0; 4096] 0
              (SBI_RUN_ENCLAVE rv64, sm_run_enclave 4096 3))
    as (ret & o & w' & Hrun & Hexact).
  { unfold monitor_table. cbn. tauto. }
  cbn [fst snd] in Hrun, Hexact.
  assert (E : run (answering (2 ^ 32 + 1))
                (sbi_ecall_base_handler rv64 0 16 (SBI_RUN_ENCLAVE rv64)
                   [3; 0; 0; 0; 0; 4096] 0) tt
              = Some ((1, 0), tt)) by (vm_compute; reflexivity).
  rewrite E in Hrun. injection Hrun as <- _ _.
  vm_compute in Hexact. discriminate Hexact.
Qed.

(** C5, as the code has it. For the memory-pool init and extend ecalls
    the dispatcher calls [sm_mm_init], respectively [sm_mm_extend], with
    argument word 0 as the base and argument word 1 as the size. The
    result of the ecall is the handler's status narrowed to the
    dispatcher's [int] return type; stored back in a register it is the
    handler's value exactly when that value is a sign-extended 32-bit
    number. *)
Theorem mm_init_extend_result (pf : platform) (scratch extid : Z)
    (args : list Z) (out_val : Z) :
  platform_ok pf = true ->
  sbi_ecall_base_handler pf scratch extid (SBI_MM_INIT pf) args out_val
    = Call (sm_mm_init (arg args 0) (arg args 1))
           (fun r => Ret (to_int r, out_val))
  /\ sbi_ecall_base_handler pf scratch extid (SBI_MEMORY_EXTEND pf) args
       out_val
     = Call (sm_mm_extend (arg args 0) (arg args 1))
            (fun r => Ret (to_int r, out_val))
  /\ forall r : Z,
       0 <= r < 2 ^ XLEN pf ->
       exact (XLEN pf) (to_int r) r
       <-> (r < 2 ^ 31 \/ 2 ^ XLEN pf - 2 ^ 31 <= r).
Proof.
  intros Hok. split; [apply handler_mm_init; exact Hok|].
  split; [apply handler_mm_extend; exact Hok|].
  intros r Hr. apply to_int_exact_iff; [apply platform_ok_xlen|]; assumption.
Qed.

Lemma mm_init_extend_result_witness :
  platform_ok rv64 = true
  /\ sbi_ecall_base_handler rv64 0 16 100 [2147483648; 4096; 0; 0; 0; 0] 0
     = Call (sm_mm_init 2147483648 4096) (fun r => Ret (to_int r, 0)).
Proof.
  assert (Hok : platform_ok rv64 = true) by (vm_compute; reflexivity).
  split; [exact Hok|].
  exact (proj1 (mm_init_extend_result rv64 0 16
                  [2147483648; 4096; 0; 0; 0; 0] 0 Hok)).
Defined.

(** C5 as stated fails: on a 64-bit hart, let [sm_mm_init] return the
    status [2^32]. The ecall's result is 0, which is not the status the
    handler returned. *)
Lemma mm_init_result_not_exact :
  run (answering (2 ^ 32))
      (sbi_ecall_base_handler rv64 0 16 (SBI_MM_INIT rv64)
         [2147483648; 4096; 0; 0; 0; 0] 0) tt
    = Some ((0, 0), tt)
  /\ 0 <= 2 ^ 32 < 2 ^ XLEN rv64
  /\ ~ exact (XLEN rv64) 0 (2 ^ 32).
Proof.
  split; [vm_compute; reflexivity|].
  split; [vm_compute; split; [discriminate | reflexivity]|].
  vm_compute. discriminate.
Qed.

(** C6, as the code has it. For the allocate-enclave-memory ecall the
    dispatcher calls [sm_alloc_enclave_mem] with argument word 0, for the
    create-enclave ecall [sm_create_enclave] with argument word 0. The
    result of the ecall is the handler's return value narrowed to the
    dispatcher's [int] return type; stored back in a register it is the
    handler's value exactly when that value is a sign-extended 32-bit
    number. *)
Theorem alloc_create_result (pf : platform) (scratch extid : Z)
    (args : list Z) (out_val : Z) :
  platform_ok pf = true ->
  sbi_ecall_base_handler pf scratch extid (SBI_ALLOC_ENCLAVE_MM pf) args
    out_val
    = Call (sm_alloc_enclave_mem (arg args 0))
           (fun r => Ret (to_int r, out_val))
  /\ sbi_ecall_base_handler pf scratch extid (SBI_CREATE_ENCLAVE pf) args
       out_val
     = Call (sm_create_enclave (arg args 0))
            (fun r => Ret (to_int r, out_val))
  /\ forall r : Z,
       0 <= r < 2 ^ XLEN pf ->
       exact (XLEN pf) (to_int r) r
       <-> (r < 2 ^ 31 \/ 2 ^ XLEN pf - 2 ^ 31 <= r).
Proof.
  intros Hok. split; [apply handler_alloc_enclave_mm; exact Hok|].
  split; [apply handler_create_enclave; exact Hok|].
  intros r Hr. apply to_int_exact_iff; [apply platform_ok_xlen|]; assumption.
Qed.

Lemma alloc_create_result_witness :
  platform_ok rv64 = true
  /\ sbi_ecall_base_handler rv64 0 16 99 [2147487744; 0; 0; 0; 0; 0] 0
     = Call (sm_create_enclave 2147487744) (fun r => Ret (to_int r, 0)).
Proof.
  assert (Hok : platform_ok rv64 = true) by (vm_compute; reflexivity).
  split; [exact Hok|].
  exact (proj1 (proj2 (alloc_create_result rv64 0 16
                         [2147487744; 0; 0; 0; 0; 0] 0 Hok))).
Defined.

(** C6 as stated fails: on a 64-bit hart, let [sm_alloc_enclave_mem]
    return the region handle [0x80000000] (the start of DRAM on the
    usual RISC-V memory map). The ecall's result is the [int]
    [-2147483648], which in a register reads [0xffffffff80000000]. *)
Lemma alloc_result_not_exact :
  run (answering 2147483648)
      (sbi_ecall_base_handler rv64 0 16 (SBI_ALLOC_ENCLAVE_MM rv64)
         [4096; 0; 0; 0; 0; 0] 0) tt
    = Some ((-2147483648, 0), tt)
  /\ 0 <= 2147483648 < 2 ^ XLEN rv64
  /\ to_unsigned (XLEN rv64) (-2147483648) = 18446744071562067968
  /\ ~ exact (XLEN rv64) (-2147483648) 2147483648.
Proof.
  split; [vm_compute; reflexivity|].
  split; [vm_compute; split; [discriminate | reflexivity]|].
  split; [vm_compute; reflexivity|].
  vm_compute. discriminate.
Qed.

(** *** The register-save area *)

(** C1, as the code has it. The dispatcher checks nothing about the
    register-save area: for the run and the exit ecall its first and only
    external call is the handler, made with argument word 5 unchanged as
    [regs] (and argument word 0 as second argument). Hence a check
    [valid] is respected by the dispatcher only if it accepts every
    register value. *)
Theorem regs_passed_unchecked (pf : platform) (scratch extid : Z)
    (args : list Z) (out_val : Z) :
  platform_ok pf = true ->
  sbi_ecall_base_handler pf scratch extid (SBI_RUN_ENCLAVE pf) args out_val
    = Call (sm_run_enclave (arg args 5) (arg args 0))
           (fun r => Ret (to_int r, out_val))
  /\ sbi_ecall_base_handler pf scratch extid (SBI_EXIT_ENCLAVE pf) args
       out_val
     = Call (sm_exit_enclave (arg args 5) (arg args 0))
            (fun r => Ret (to_int r, out_val))
  /\ forall valid : Z -> bool,
       regs_validated pf valid ->
       forall p : Z, 0 <= p < 2 ^ XLEN pf -> valid p = true.
Proof.
  intros Hok. split; [apply handler_run_enclave; exact Hok|].
  split; [apply handler_exit_enclave; exact Hok|].
  intros valid Hv p Hp.
  specialize (Hv 0 0 (SBI_RUN_ENCLAVE pf) [0; 0; 0; 0; 0; p] 0).
  assert (Hw : argument_words pf [0; 0; 0; 0; 0; p]).
  { split; [reflexivity|].
    assert (0 < 2 ^ XLEN pf) by lia.
    repeat (apply Forall_cons; split; [lia|]). apply Forall_nil. exact I. }
  specialize (Hv Hw).
  rewrite handler_run_enclave in Hv by exact Hok.
  cbn in Hv. destruct Hv as [Hv _].
  apply negb_false_iff in Hv. exact Hv.
Qed.

Lemma regs_passed_unchecked_witness :
  platform_ok rv64 = true
  /\ sbi_ecall_base_handler rv64 0 16 97 [7; 0; 0; 0; 0; 12345] 0
     = Call (sm_run_enclave 12345 7) (fun r => Ret (to_int r, 0)).
Proof.
  assert (Hok : platform_ok rv64 = true) by (vm_compute; reflexivity).
  split; [exact Hok|].
  exact (proj1 (regs_passed_unchecked rv64 0 16 [7; 0; 0; 0; 0; 12345] 0
                  Hok)).
Defined.

(** C1 as stated fails: not even the null pointer is rejected. A run
    ecall for enclave 7 whose argument word 5 is 0 calls
    [sm_run_enclave(NULL, 7)]. *)
Lemma null_regs_reach_run_handler :
  sbi_ecall_base_handler rv64 0 16 (SBI_RUN_ENCLAVE rv64)
      [7; 0; 0; 0; 0; 0] 0
    = Call (sm_run_enclave 0 7) (fun r => Ret (to_int r, 0))
  /\ calls (answering 0)
       (sbi_ecall_base_handler rv64 0 16 (SBI_RUN_ENCLAVE rv64)
          [7; 0; 0; 0; 0; 0] 0) tt
     = [ev (sm_run_enclave 0 7)]
  /\ ~ regs_validated rv64 (fun p => negb (p =? 0)).
Proof.
  split; [reflexivity|]. split; [reflexivity|].
  intros H.
  specialize (H 0 16 (SBI_RUN_ENCLAVE rv64) [7; 0; 0; 0; 0; 0] 0).
  assert (Hw : argument_words rv64 [7; 0; 0; 0; 0; 0]).
  { split; [reflexivity|].
    repeat (apply Forall_cons; split; [vm_compute; split; [discriminate|reflexivity]|]).
    apply Forall_nil. exact I. }
  specialize (H Hw).
  cbn in H. destruct H as [H _]. discriminate H.
Qed.

(** *** Probing *)

(** C10, as the code has it. [sbi_ecall_base_probe] looks the extension
    up once. With no extension registered for the id it returns status 0
    and writes 0; with an extension that has no probe callback it returns
    status 0 and writes 1; otherwise status and written word are those
    of the extension's own probe callback, so the probe fails exactly
    when that callback does. *)
Theorem probe_result (W : Type) (h : handler sbiE W) (w : W)
    (scratch extid out_val : Z) :
  let found := h _ (sbi_ecall_find_extension extid) w in
  match fst found with
  | None =>
      run h (sbi_ecall_base_probe scratch extid out_val) w
        = Some ((0, 0), snd found)
  | Some ext =>
      if probe ext =? 0 then
        run h (sbi_ecall_base_probe scratch extid out_val) w
          = Some ((0, 1), snd found)
      else
        run h (sbi_ecall_base_probe scratch extid out_val) w
          = Some (h _ (ext_probe (probe ext) scratch extid out_val)
                      (snd found))
  end.
Proof.
  cbn. destruct (h _ (sbi_ecall_find_extension extid) w) as [[ext|] w1];
    cbn; [|reflexivity].
  destruct (probe ext =? 0); cbn; [reflexivity|].
  destruct (h _ (ext_probe (probe ext) scratch extid out_val) w1)
    as [[st o] w2].
  reflexivity.
Qed.

(** C10 as stated fails: with an extension registered whose probe
    callback answers [-1], probing returns [-1]. *)
Lemma probe_can_fail :
  run (probing 4096 (-1)) (sbi_ecall_base_probe 0 16 0) tt
    = Some ((-1, 0), tt)
  /\ ~ probe_never_fails.
Proof.
  split; [reflexivity|].
  intros H. destruct (H unit (probing 4096 (-1)) tt 0 16 0) as (o & w' & E).
  cbn in E. discriminate E.
Qed.

(** *** Run and exit *)

(** C4. For the run ecall the dispatcher calls the run handler with
    argument word 5 as the register-save area and argument word 0 as the
    enclave id; for the exit ecall it calls the exit handler with
    argument word 5 as the register-save area and argument word 0 as the
    return value. With the lifecycle manager of the specification behind
    these calls, a run ecall from the host for a runnable enclave leaves
    the hart in the enclave: the context in the register-save area is the
    enclave's and the host's is kept aside, so the host is not resumed.
    The exit ecall that follows resumes the host: the register-save area
    holds the host's context again, with argument word 0 of the exit
    ecall in the return-value register. *)
Theorem run_exit_enclave_transfer (pf : platform) (scratch extid : Z)
    (args args' : list Z) (out_val out_val' : Z)
    (code : Sm.status -> Z) (h : handler sbiE Sm.monitor)
    (m : Sm.monitor) (e : Sm.enclave) (host : Sm.context) :
  platform_ok pf = true ->
  Sm.live m = Sm.Host ->
  Sm.table m !! arg args 0 = Some e ->
  Sm.runnable (Sm.state e) = true ->
  Sm.save_area m !! arg args 5 = Some host ->
  sbi_ecall_base_handler pf scratch extid (SBI_RUN_ENCLAVE pf) args out_val
    = Call (sm_run_enclave (arg args 5) (arg args 0))
           (fun r => Ret (to_int r, out_val))
  /\ sbi_ecall_base_handler pf scratch extid (SBI_EXIT_ENCLAVE pf) args'
       out_val'
     = Call (sm_exit_enclave (arg args' 5) (arg args' 0))
            (fun r => Ret (to_int r, out_val'))
  /\ exists m1 : Sm.monitor,
       run (Sm.sm_handler code h)
           (sbi_ecall_base_handler pf scratch extid (SBI_RUN_ENCLAVE pf)
              args out_val) m
         = Some ((to_int (code Sm.OK), out_val), m1)
       /\ Sm.live m1 = Sm.Enclave (arg args 0)
       /\ Sm.save_area m1 !! arg args 5 = Some (Sm.saved e)
       /\ Sm.host_saved m1 = Some host
       /\ (is_Some (Sm.save_area m1 !! arg args' 5) ->
           exists m2 : Sm.monitor,
             run (Sm.sm_handler code h)
                 (sbi_ecall_base_handler pf scratch extid
                    (SBI_EXIT_ENCLAVE pf) args' out_val') m1
               = Some ((to_int (code Sm.OK), out_val'), m2)
             /\ Sm.live m2 = Sm.Host
             /\ Sm.save_area m2 !! arg args' 5
                = Some {| Sm.pc := Sm.pc host;
                          Sm.retreg := arg args' 0;
                          Sm.others := Sm.others host |}).
Proof.
  intros Hok Hlive Htab Hrun Harea.
  rewrite (handler_run_enclave pf Hok), (handler_exit_enclave pf Hok).
  split; [reflexivity|]. split; [reflexivity|].
  cbn [run Sm.sm_handler]. unfold Sm.run_enclave.
  rewrite Hlive, Htab, Hrun, Harea.
  eexists. split; [reflexivity|]. cbn [Sm.live Sm.save_area Sm.host_saved].
  split; [reflexivity|].
  split; [apply lookup_insert_eq|].
  split; [reflexivity|].
  intros [cur Hcur]. unfold Sm.exit_enclave.
  cbn [Sm.live Sm.save_area Sm.host_saved Sm.table Sm.one_shot].
  rewrite Hcur.
  eexists. split; [reflexivity|]. cbn [Sm.live Sm.save_area].
  split; [reflexivity|]. apply lookup_insert_eq.
Qed.

Lemma run_exit_enclave_transfer_witness :
  let host := {| Sm.pc := 2147483648; Sm.retreg := 0; Sm.others := [1; 2] |} in
  let entry := {| Sm.pc := 4194304; Sm.retreg := 0; Sm.others := [0; 0] |} in
  let m := {| Sm.save_area := {[ 12288 := host ]};
              Sm.table := {[ 7 := {| Sm.state := Sm.CREATED;
                                     Sm.saved := entry |} ]};
              Sm.host_saved := None;
              Sm.live := Sm.Host;
              Sm.one_shot := true |} in
  exists m1 m2 : Sm.monitor,
    run (Sm.sm_handler (fun _ => 0) (fun X e w => (fst (answering 0 X e tt), w)))
        (sbi_ecall_base_handler rv64 0 16 97 [7; 0; 0; 0; 0; 12288] 0) m
      = Some ((0, 0), m1)
    /\ Sm.live m1 = Sm.Enclave 7
    /\ run (Sm.sm_handler (fun _ => 0)
              (fun X e w => (fst (answering 0 X e tt), w)))
           (sbi_ecall_base_handler rv64 0 16 89 [55; 0; 0; 0; 0; 12288] 0) m1
       = Some ((0, 0), m2)
    /\ Sm.live m2 = Sm.Host
    /\ Sm.save_area m2 !! 12288
       = Some {| Sm.pc := 2147483648; Sm.retreg := 55; Sm.others := [1; 2] |}.
Proof.
  intros host entry m.
  assert (Hok : platform_ok rv64 = true) by (vm_compute; reflexivity).
  destruct (run_exit_enclave_transfer rv64 0 16
              [7; 0; 0; 0; 0; 12288] [55; 0; 0; 0; 0; 12288] 0 0
              (fun _ => 0) (fun X e w => (fst (answering 0 X e tt), w))
              m {| Sm.state := Sm.CREATED; Sm.saved := entry |} host
              Hok eq_refl eq_refl eq_refl eq_refl)
    as (_ & _ & m1 & R1 & L1 & A1 & _ & Hexit).
  destruct Hexit as (m2 & R2 & L2 & A2).
  { exists entry. exact A1. }
  exists m1, m2. repeat split; assumption.
Defined.

End SbiProofs.

(** ** The IMA securityfs files *)

Module ImaProofs.
Import Ima ImaSpec.

(** *** The counter files *)

Lemma remove_lookup (p : dentry_ptr) (fs : securityfs) (d : nat)
    (o : option fops) :
  files (securityfs_remove p fs) !! d = Some o ->
  files fs !! d = Some o /\ p <> Dentry d.
Proof.
  destruct p as [| e | d']; cbn [securityfs_remove files];
    [ intros H; split; [exact H | discriminate]
    | intros H; split; [exact H | discriminate] | ].
  rewrite lookup_delete. case_decide; [discriminate|].
  intros Hd. split; [exact Hd | congruence].
Qed.

(** What survives the [out:] label is referenced by no dentry variable. *)
Lemma out_lookup (st : statics) (fs : securityfs) (d : nat)
    (o : option fops) :
  files (snd (ima_fs_init_out st fs)) !! d = Some o ->
  files fs !! d = Some o /\ forall g, dent st g <> Dentry d.
Proof.
  unfold ima_fs_init_out. cbn [snd]. intros Hd.
  repeat (apply remove_lookup in Hd; destruct Hd as [Hd ?]).
  split; [exact Hd|]. intros []; assumption.
Qed.

Ltac step_ima :=
  cbn [IS_ERR set_dent dent global_eqb global_index Nat.eqb created files
       fst snd].

Ltac lookup_cases H :=
  repeat (rewrite lookup_insert in H; case_decide;
          [ subst; try discriminate H | ]).

Ltac run_init :=
  repeat match goal with
  | |- context [match ?x with Some _ => _ | None => _ end] =>
      destruct x as [?|]; step_ima
  end.

(** After [ima_fs_init], however it ends, a live object with the counter
    file operations is referenced by one of the three counter variables. *)
Lemma init_counter_files (fails : nat -> option Z) (cfg : bool)
    (st0 : statics) (fs0 : securityfs) (d : nat) :
  no_htable_files fs0 = true ->
  files (snd (ima_fs_init fails cfg st0 fs0)) !! d
    = Some (Some ima_htable_value_ops) ->
  let st := snd (fst (ima_fs_init fails cfg st0 fs0)) in
  Dentry d = dent st violations
  \/ Dentry d = dent st runtime_measurements_count
  \/ (cfg = true /\ Dentry d = dent st digests_count).
Proof.
  intros Hno. apply bool_decide_eq_true_1 in Hno.
  unfold ima_fs_init, ima_fs_init_digest_list, securityfs_create_file,
    securityfs_create_dir, securityfs_create_symlink, securityfs_create.
  step_ima. run_init.
  all: try (destruct cfg; step_ima; run_init).
  all: intros Hd.
  all: try (apply out_lookup in Hd; destruct Hd as [Hd Hg]; step_ima).
  all: cbn [files] in Hd; lookup_cases Hd.
  all: try (exfalso; exact (Hno _ _ Hd eq_refl)).
  all: try (exfalso; exact (Hg runtime_measurements_count eq_refl)).
  all: try (exfalso; exact (Hg violations eq_refl)).
  all: try (exfalso; exact (Hg digests_count eq_refl)).
  all: cbv zeta; step_ima; auto.
Qed.

(** With the dentry of a counter file, [val] is set before it is read. *)
Lemma show_htable_value_selected (cfg : bool) (st : statics) (p : dentry_ptr)
    (buf count ppos : Z) :
  p = dent st violations
  \/ p = dent st runtime_measurements_count
  \/ (cfg = true /\ p = dent st digests_count) ->
  exists c : counter,
    ima_show_htable_value cfg st p buf count ppos
    = Call (atomic_long_read c) (fun v =>
        Call (scnprintf_li 32 v) (fun r =>
          Call (simple_read_from_buffer buf count ppos (fst r) (snd r)) Ret)).
Proof.
  intros H. unfold ima_show_htable_value.
  destruct (decide (p = dent st violations));
    [eexists; reflexivity|].
  destruct (decide (p = dent st runtime_measurements_count));
    [eexists; reflexivity|].
  destruct H as [H | [H | [-> H]]]; [contradiction | contradiction |].
  rewrite bool_decide_eq_true_2 by exact H. eexists; reflexivity.
Qed.

(** C9. [ima_show_htable_value] never reads through a null counter
    pointer. Whatever securityfs held before (no object with the counter
    file operations, which are private to this file) and whichever
    creations fail, after [ima_fs_init] every live object created with
    [ima_htable_value_ops] has as its dentry the value of [violations],
    of [runtime_measurements_count] or, when digest lists are configured,
    of [digests_count]; invoked on such a file the function selects a
    counter and its first action is to read it. *)
Theorem htable_counter_never_null (fails : nat -> option Z)
    (CONFIG_IMA_DIGEST_LIST : bool) (st0 : statics) (fs0 : securityfs)
    (d : nat) (buf count ppos : Z) :
  no_htable_files fs0 = true ->
  files (snd (ima_fs_init fails CONFIG_IMA_DIGEST_LIST st0 fs0)) !! d
    = Some (Some ima_htable_value_ops) ->
  let st := snd (fst (ima_fs_init fails CONFIG_IMA_DIGEST_LIST st0 fs0)) in
  (Dentry d = dent st violations
   \/ Dentry d = dent st runtime_measurements_count
   \/ (CONFIG_IMA_DIGEST_LIST = true /\ Dentry d = dent st digests_count))
  /\ ima_show_htable_value CONFIG_IMA_DIGEST_LIST st (Dentry d) buf count ppos
     <> Oops
  /\ exists c : counter,
       ima_show_htable_value CONFIG_IMA_DIGEST_LIST st (Dentry d) buf count
         ppos
       = Call (atomic_long_read c) (fun v =>
           Call (scnprintf_li 32 v) (fun r =>
             Call (simple_read_from_buffer buf count ppos (fst r) (snd r))
                  Ret)).
Proof.
  intros Hno Hd st.
  pose proof (init_counter_files fails CONFIG_IMA_DIGEST_LIST st0 fs0 d
                Hno Hd) as Hsel.
  fold st in Hsel. split; [exact Hsel|].
  destruct (show_htable_value_selected CONFIG_IMA_DIGEST_LIST st (Dentry d)
              buf count ppos Hsel) as [c Hc].
  split; [rewrite Hc; discriminate | exists c; exact Hc].
Qed.

Lemma htable_counter_never_null_witness :
  no_htable_files empty_securityfs = true
  /\ files (snd (ima_fs_init (fun _ => None) true boot empty_securityfs))
       !! 7%nat = Some (Some ima_htable_value_ops)
  /\ ima_show_htable_value true mounted (Dentry 7) 0 4096 0 <> Oops.
Proof.
  assert (Hno : no_htable_files empty_securityfs = true)
    by (vm_compute; reflexivity).
  assert (Hd : files (snd (ima_fs_init (fun _ => None) true boot
                             empty_securityfs)) !! 7%nat
               = Some (Some ima_htable_value_ops))
    by (vm_compute; reflexivity).
  split; [exact Hno|]. split; [exact Hd|].
  exact (proj1 (proj2 (htable_counter_never_null (fun _ => None) true boot
                         empty_securityfs 7 0 4096 0 Hno Hd))).
Defined.

(** A set-up whose sixth creation ([violations]) fails returns -1 and
    leaves nothing behind. *)
Example init_failure_cleans_up :
  let r := ima_fs_init (fun n => if Nat.eqb n 5 then Some (-12) else None)
             true boot empty_securityfs in
  fst (fst r) = -1 /\ files (snd r) = ∅
  /\ dent (snd (fst r)) violations = ERR_PTR (-12).
Proof. vm_compute. repeat split. Qed.

(** A file that is not a counter file would make the function read
    through a null pointer; no such file gets these operations. *)
Example policy_dentry_selects_no_counter :
  ima_show_htable_value true mounted (dent mounted ima_policy) 0 4096 0
  = Oops.
Proof. reflexivity. Qed.

(** *** The upload files *)

(** C8, as the code has it. A write to an upload file at a non-zero
    offset returns [-EINVAL]; a write at offset zero of more than
    [64 * 1024 * 1024 - 1] bytes returns [-EFBIG]. Either way the
    function makes no external call at all (nothing is allocated, copied
    from user space or parsed), and the file-scope state is unchanged
    except that [valid_policy] is cleared when the file is the policy
    file. *)
Theorem write_guards (k : kconsts) (st : statics) (dentry : dentry_ptr)
    (buf datalen ppos : Z) :
  kconsts_ok k = true ->
  ppos <> 0 \/ datalen > 64 * 1024 * 1024 - 1 ->
  let st' := if decide (dentry = dent st ima_policy)
             then set_valid_policy 0 st else st in
  ima_write_data k st dentry buf datalen ppos
    = Ret (if ppos =? 0 then - EFBIG k else - EINVAL k, st')
  /\ dent st' = dent st
  /\ ima_fs_flags st' = ima_fs_flags st
  /\ forall (W : Type) (h : handler imaE W) (w : W),
       calls h (ima_write_data k st dentry buf datalen ppos) w = [].
Proof.
  intros Hk Hguard st'.
  assert (Hneg : (- EINVAL k <? 0) = true /\ (- EFBIG k <? 0) = true).
  { unfold kconsts_ok in Hk. cbn [forallb] in Hk.
    repeat (apply andb_prop in Hk; destruct Hk as [? Hk]).
    split; apply Z.ltb_lt; lia. }
  destruct Hneg as [Hinv Hfbig].
  assert (E : ima_write_data k st dentry buf datalen ppos
              = Ret (if ppos =? 0 then - EFBIG k else - EINVAL k, st')).
  { unfold ima_write_data, ima_write_data_out, st'.
    destruct (Z.eqb_spec ppos 0) as [-> | Hp]; cbn [negb].
    - destruct Hguard as [Hp | Hlen]; [contradiction|].
      assert (G : (datalen >? 64 * 1024 * 1024 - 1) = true)
        by (apply Z.gtb_lt; lia).
      rewrite G, Hfbig, andb_true_r.
      case_bool_decide; case_decide; try contradiction; reflexivity.
    - rewrite Hinv, andb_true_r.
      case_bool_decide; case_decide; try contradiction; reflexivity. }
  split; [exact E|].
  split; [unfold st'; case_decide; reflexivity|].
  split; [unfold st'; case_decide; reflexivity|].
  intros W h w. rewrite E. reflexivity.
Qed.

Lemma write_guards_witness :
  kconsts_ok linux = true
  /\ (5 <> 0 \/ 100 > 64 * 1024 * 1024 - 1)
  /\ ima_write_data linux mounted (Dentry 8) 0 100 5 = Ret (-22, mounted).
Proof.
  assert (Hk : kconsts_ok linux = true) by (vm_compute; reflexivity).
  assert (Hg : 5 <> 0 \/ 100 > 64 * 1024 * 1024 - 1) by (left; lia).
  split; [exact Hk|]. split; [exact Hg|].
  exact (proj1 (write_guards linux mounted (Dentry 8) 0 100 5 Hk Hg)).
Defined.

(** C8 as stated fails twice on the policy file, set up as [mounted]:
    a write of 64 MiB at offset 1 returns [-EINVAL], not [-EFBIG], and
    it clears [valid_policy], which was 1. *)
Lemma write_guards_counterexample :
  ima_write_data linux mounted (dent mounted ima_policy) 0 67108864 1
    = Ret (- EINVAL linux, set_valid_policy 0 mounted)
  /\ 67108864 > 64 * 1024 * 1024 - 1
  /\ - EINVAL linux <> - EFBIG linux
  /\ valid_policy mounted = 1
  /\ valid_policy (set_valid_policy 0 mounted) = 0
  /\ ~ write_rejected_without_effect linux.
Proof.
  split; [reflexivity|]. split; [lia|]. split; [discriminate|].
  split; [reflexivity|]. split; [reflexivity|].
  intros H.
  destruct (H mounted (dent mounted ima_policy) 0 67108864 1) as [H1 _].
  specialize (H1 ltac:(lia)).
  assert (E : ima_write_data linux mounted (dent mounted ima_policy) 0
                67108864 1
              = Ret (- EINVAL linux, set_valid_policy 0 mounted))
    by reflexivity.
  rewrite E in H1.
  apply (f_equal (fun p => match p with
                           | Ret r => valid_policy (snd r)
                           | _ => 1
                           end)) in H1.
  discriminate H1.
Qed.

(** *** The measurement list *)

Section Iterator.

Variables (head later : Z) (mem : gmap Z list_head).

Lemma later_of_list_entry (x : Z) : later_of later (list_entry later x) = x.
Proof. unfold later_of, list_entry. lia. Qed.

Lemma list_entry_later_of (x : Z) : list_entry later (later_of later x) = x.
Proof. unfold later_of, list_entry. lia. Qed.

Lemma linked_cons (from qe : Z) (rest : list Z) :
  linked head later mem from (qe :: rest) = true ->
  from = later_of later qe /\ qe <> 0 /\ later_of later qe <> head
  /\ exists lh, mem !! later_of later qe = Some lh
                /\ linked head later mem (next lh) rest = true.
Proof.
  cbn [linked]. intros H.
  repeat (apply andb_prop in H; destruct H as [H ?]).
  apply Z.eqb_eq in H.
  repeat match goal with
  | H : negb _ = true |- _ => apply negb_true_iff, Z.eqb_neq in H
  end.
  destruct (mem !! later_of later qe) as [lh|]; [|discriminate].
  repeat split; try assumption. exists lh. split; [reflexivity | assumption].
Qed.

Lemma unsigned_pred (l : Z) :
  - 2 ^ 63 <= l < 2 ^ 63 -> l <> 0 ->
  to_unsigned 64 (to_signed 64 (l - 1)) = to_unsigned 64 l - 1
  /\ 0 < to_unsigned 64 l.
Proof.
  unfold to_unsigned, to_signed. intros Hl Hz.
  change (2 ^ (64 - 1)) with 9223372036854775808.
  change (2 ^ 63) with 9223372036854775808 in Hl.
  change (2 ^ 64) with 18446744073709551616.
  Z.div_mod_to_equations. lia.
Qed.

(** The loop of [ima_measurements_start]: from an entry followed by
    [records], a countdown that reads [u] as an unsigned number stops at
    the entry at position [u], or at the head. *)
Lemma list_for_each_entry_spec (records : list Z) :
  forall (fuel : nat) (from l : Z),
    linked head later mem from records = true ->
    (length records < fuel)%nat ->
    - 2 ^ 63 <= l < 2 ^ 63 ->
    list_for_each_entry head later fuel mem (list_entry later from) l
    = Done (pointer (records !! Z.to_nat (to_unsigned 64 l))).
Proof.
  induction records as [| qe rest IH]; intros fuel from l Hl Hfuel Hrange.
  - cbn [linked] in Hl. apply Z.eqb_eq in Hl. subst from.
    destruct fuel as [| fuel]; [cbn in Hfuel; lia|].
    cbn [list_for_each_entry]. rewrite later_of_list_entry, Z.eqb_refl.
    reflexivity.
  - apply linked_cons in Hl. destruct Hl as (-> & Hqe & Hhead & lh & Hm & Hl).
    destruct fuel as [| fuel]; [cbn in Hfuel; lia|].
    cbn [list_for_each_entry]. rewrite list_entry_later_of.
    rewrite (proj2 (Z.eqb_neq _ _) Hhead).
    destruct (Z.eqb_spec l 0) as [-> | Hz]; [reflexivity|].
    rewrite Hm.
    rewrite (IH fuel (next lh) (to_signed 64 (l - 1)) Hl).
    + destruct (unsigned_pred l Hrange Hz) as [E Hpos]. rewrite E.
      replace (Z.to_nat (to_unsigned 64 l))
        with (S (Z.to_nat (to_unsigned 64 l - 1))) by lia.
      reflexivity.
    + cbn [length] in Hfuel. lia.
    + apply (to_signed_range 64). lia.
Qed.

(** The link out of the entry at position [i]. *)
Lemma linked_lookup (records : list Z) :
  forall (from : Z) (i : nat) (qe : Z),
    linked head later mem from records = true ->
    records !! i = Some qe ->
    qe <> 0
    /\ exists lh, mem !! later_of later qe = Some lh
       /\ match records !! S i with
          | Some qe' => next lh = later_of later qe'
                        /\ later_of later qe' <> head
          | None => next lh = head
          end.
Proof.
  induction records as [| r rest IH]; intros from i qe Hl Hi;
    [discriminate|].
  apply linked_cons in Hl. destruct Hl as (_ & Hr & _ & lh & Hm & Hl).
  destruct i as [| i].
  - cbn in Hi. injection Hi as ->. split; [exact Hr|].
    exists lh. split; [exact Hm|]. cbn [lookup list_lookup].
    destruct rest as [| r' rest'].
    + cbn [linked] in Hl. apply Z.eqb_eq in Hl. exact Hl.
    + apply linked_cons in Hl. destruct Hl as (E & _ & Hh & _).
      cbn. split; assumption.
  - cbn in Hi. exact (IH (next lh) i qe Hl Hi).
Qed.

End Iterator.

(** A list of three records read at its end and beyond. *)
Example start_past_the_end :
  let mem : gmap Z list_head :=
    {[ 1000 := {| next := 4112; prev := 12304 |};
       4112 := {| next := 8208; prev := 1000 |};
       8208 := {| next := 12304; prev := 4112 |};
       12304 := {| next := 1000; prev := 8208 |} ]} in
  ima_measurements_start 1000 16 4 mem 2 = Done 12288
  /\ ima_measurements_start 1000 16 4 mem 3 = Done 0
  /\ ima_measurements_start 1000 16 4 mem (-1) = Done 0
  /\ ima_measurements_next 1000 16 mem 12288 2 = Done (0, 3).
Proof. vm_compute. repeat split. Qed.

(** C7. Reading the measurement list enumerates its records in list
    order, oldest first. On a well-formed list holding [records], and
    with enough steps allowed to walk it, [ima_measurements_start] at
    position [p] returns the record at position [p] counted from 0, that
    is the [(p+1)]-th, which is a non-null pointer, and [NULL] when [p]
    is negative or past the last record; [ima_measurements_next] on the
    record at position [p] returns the record at position [p + 1], or
    [NULL] after the last one, and advances the position by exactly
    one. *)
Theorem measurements_enumerated (head later : Z) (mem : gmap Z list_head)
    (records : list Z) (fuel : nat) (p : Z) :
  measurement_list head later mem records = true ->
  (length records < fuel)%nat ->
  Z.of_nat (length records) < 2 ^ 63 ->
  - 2 ^ 63 <= p < 2 ^ 63 ->
  ima_measurements_start head later fuel mem p
    = Done (pointer (record_at records p))
  /\ (record_at records p = None <-> p < 0 \/ Z.of_nat (length records) <= p)
  /\ forall qe : Z,
       record_at records p = Some qe ->
       qe <> 0
       /\ ima_measurements_next head later mem qe p
          = Done (pointer (record_at records (p + 1)), p + 1).
Proof.
  intros Hlist Hfuel Hlen Hp.
  unfold measurement_list in Hlist.
  destruct (mem !! head) as [hd|] eqn:Hhd; [|discriminate].
  assert (Hnone : record_at records p = None
                  <-> p < 0 \/ Z.of_nat (length records) <= p).
  { unfold record_at. destruct (Z.ltb_spec p 0) as [Hneg | Hnn].
    - split; [intros _; left; exact Hneg | reflexivity].
    - rewrite lookup_ge_None. split; [intros H; right; lia|].
      intros [H | H]; lia. }
  split; [|split; [exact Hnone|]].
  - unfold ima_measurements_start. rewrite Hhd.
    rewrite (list_for_each_entry_spec head later mem records fuel
               (next hd) p Hlist Hfuel Hp).
    f_equal. f_equal. unfold record_at, to_unsigned.
    change (2 ^ 63) with 9223372036854775808 in *.
    change (2 ^ 64) with 18446744073709551616.
    destruct (Z.ltb_spec p 0) as [Hneg | Hnn].
    + apply lookup_ge_None. Z.div_mod_to_equations. lia.
    + rewrite Z.mod_small by lia. reflexivity.
  - intros qe Hqe.
    assert (Hin : 0 <= p < Z.of_nat (length records)).
    { destruct (Z_lt_le_dec p 0) as [Hneg | Hnn];
        [assert (record_at records p = None) by (apply Hnone; left; lia);
         congruence|].
      destruct (Z_lt_le_dec p (Z.of_nat (length records))); [lia|].
      assert (record_at records p = None) by (apply Hnone; right; lia).
      congruence. }
    unfold record_at in Hqe. destruct (Z.ltb_spec p 0); [lia|].
    destruct (linked_lookup head later mem records (next hd) (Z.to_nat p) qe
                Hlist Hqe) as (Hnz & lh & Hm & Hnext).
    split; [exact Hnz|].
    unfold ima_measurements_next. rewrite Hm.
    rewrite to_signed_small by (change (2 ^ (64 - 1)) with (2 ^ 63); lia).
    f_equal. f_equal. unfold record_at.
    destruct (Z.ltb_spec (p + 1) 0); [lia|].
    replace (Z.to_nat (p + 1)) with (S (Z.to_nat p)) by lia.
    destruct (records !! S (Z.to_nat p)) as [qe'|].
    + destruct Hnext as [-> Hh]. rewrite list_entry_later_of.
      rewrite (proj2 (Z.eqb_neq _ _) Hh). reflexivity.
    + rewrite Hnext. rewrite later_of_list_entry, Z.eqb_refl. reflexivity.
Qed.

Lemma measurements_enumerated_witness :
  let mem : gmap Z list_head :=
    {[ 1000 := {| next := 4112; prev := 12304 |};
       4112 := {| next := 8208; prev := 1000 |};
       8208 := {| next := 12304; prev := 4112 |};
       12304 := {| next := 1000; prev := 8208 |} ]} in
  measurement_list 1000 16 mem [4096; 8192; 12288] = true
  /\ ima_measurements_start 1000 16 4 mem 1 = Done 8192
  /\ ima_measurements_next 1000 16 mem 8192 1 = Done (12288, 2).
Proof.
  intros mem.
  assert (Hl : measurement_list 1000 16 mem [4096; 8192; 12288] = true)
    by (vm_compute; reflexivity).
  destruct (measurements_enumerated 1000 16 mem [4096; 8192; 12288] 4 1 Hl
              ltac:(cbn; lia) ltac:(cbn; lia) ltac:(lia))
    as (Hstart & _ & Hnext).
  split; [exact Hl|]. split; [exact Hstart|].
  exact (proj2 (Hnext 8192 eq_refl)).
Defined.

(** *** Appending to the list *)

Section Appending.

Variables (head later : Z).

Lemma linked_nodes_mapped (mem : gmap Z list_head) (records : list Z) :
  forall from : Z,
    linked head later mem from records = true ->
    forall r : Z, r ∈ records ->
      is_Some (mem !! later_of later r) /\ r <> 0
      /\ later_of later r <> head.
Proof.
  induction records as [| q rest IH]; intros from Hl r Hr.
  - apply elem_of_nil in Hr. contradiction.
  - apply (linked_cons head later mem) in Hl.
    destruct Hl as (_ & Hq & Hh & lh & Hm & Hl).
    apply elem_of_cons in Hr. destruct Hr as [-> | Hr].
    + split; [exists lh; exact Hm | split; assumption].
    + exact (IH (next lh) Hl r Hr).
Qed.

(** Linking a new last entry: only the old last entry's [next] and the
    new list head matter. *)
Lemma snoc_linked (mem mem' : gmap Z list_head) (qe : Z) (records : list Z) :
  forall from : Z,
    linked head later mem from records = true ->
    NoDup records ->
    records <> [] ->
    (forall r, r ∈ records -> r <> qe) ->
    (forall r, r ∈ records -> Some r <> last records ->
       mem' !! later_of later r = mem !! later_of later r) ->
    (forall r, last records = Some r ->
       exists p, mem' !! later_of later r
                 = Some {| next := later_of later qe; prev := p |}) ->
    (exists p, mem' !! later_of later qe = Some {| next := head; prev := p |}) ->
    qe <> 0 -> later_of later qe <> head ->
    linked head later mem' from (records ++ [qe]) = true.
Proof.
  induction records as [| r rest IH];
    intros from Hl Hnd Hne Hfresh Hsame Hlast Hnew Hqe Hqh; [congruence|].
  apply (linked_cons head later mem) in Hl.
  destruct Hl as (-> & Hr & Hh & lh & Hm & Hl).
  cbn [app linked]. rewrite Z.eqb_refl.
  rewrite (proj2 (Z.eqb_neq _ _) Hr), (proj2 (Z.eqb_neq _ _) Hh).
  cbn [negb andb].
  destruct rest as [| r2 rest].
  - destruct (Hlast r eq_refl) as [p Hp]. rewrite Hp. cbn [next app linked].
    rewrite Z.eqb_refl.
    rewrite (proj2 (Z.eqb_neq _ _) Hqe), (proj2 (Z.eqb_neq _ _) Hqh).
    cbn [negb andb]. destruct Hnew as [p' ->]. cbn [next].
    apply Z.eqb_refl.
  - apply NoDup_cons in Hnd. destruct Hnd as [Hnotin Hnd].
    assert (Hs : mem' !! later_of later r = mem !! later_of later r).
    { apply Hsame; [left|]. rewrite last_cons_cons. intros E.
      symmetry in E. apply last_Some_elem_of in E. contradiction. }
    rewrite Hs, Hm. cbn [app] in IH.
    apply (IH (next lh) Hl Hnd).
    + discriminate.
    + intros x Hx. apply Hfresh. right. exact Hx.
    + intros x Hx Hxl. apply Hsame; [right; exact Hx|].
      rewrite last_cons_cons. exact Hxl.
    + intros x Hx. apply Hlast. rewrite last_cons_cons. exact Hx.
    + exact Hnew.
    + exact Hqe.
    + exact Hqh.
Qed.

(** [list_add_tail_rcu] appends: the new entry becomes the last one and
    the entries before it keep their places. *)
Lemma add_tail_queue (mem : gmap Z list_head) (records : list Z) (qe : Z) :
  measurement_queue head later mem records = true ->
  qe <> 0 -> later_of later qe <> head ->
  mem !! later_of later qe = None ->
  measurement_queue head later
    (list_add_tail_rcu head (later_of later qe) mem) (records ++ [qe]) = true
  /\ forall a : Z,
       is_Some (list_add_tail_rcu head (later_of later qe) mem !! a)
       <-> a = later_of later qe \/ is_Some (mem !! a).
Proof.
  intros Hq Hqe Hqh Hfree. unfold measurement_queue in Hq.
  apply andb_prop in Hq. destruct Hq as [Hq Hnd].
  apply andb_prop in Hq. destruct Hq as [Hlist Hprev].
  apply bool_decide_eq_true_1 in Hnd.
  unfold measurement_list in Hlist.
  destruct (mem !! head) as [hd|] eqn:Hhd; [|discriminate].
  apply Z.eqb_eq in Hprev.
  pose proof (linked_nodes_mapped mem records (next hd) Hlist) as Hmapped.
  assert (Hfresh : forall r, r ∈ records -> r <> qe).
  { intros r Hr ->. destruct (Hmapped qe Hr) as [[x Hx] _]. congruence. }
  assert (Hne : forall a x, mem !! a = Some x -> a <> (later_of later qe))
    by (intros a x Ha ->; congruence).
  assert (Hhn : head <> (later_of later qe)) by exact (Hne head hd Hhd).
  unfold list_add_tail_rcu. rewrite Hhd. cbv zeta.
  set (f1 := fun lh => {| next := (later_of later qe); prev := prev lh |}).
  set (f2 := fun lh => {| next := next lh; prev := (later_of later qe) |}).
  set (n0 := {| next := head; prev := prev hd |}).
  split.
  - unfold measurement_queue, measurement_list.
    rewrite lookup_alter_eq.
    destruct (last records) as [t|] eqn:Hlast.
    + (* a non-empty list: the old last entry is linked to the (later_of later qe) one *)
      assert (Ht : t ∈ records) by (apply last_Some_elem_of; exact Hlast).
      destruct (Hmapped t Ht) as ([lt Hlt] & Htz & Hth).
      assert (Htn : later_of later t <> (later_of later qe)) by exact (Hne _ _ Hlt).
      unfold tail_of in Hprev. rewrite Hlast in Hprev. rewrite Hprev.
      rewrite lookup_alter_ne by exact Hth.
      rewrite lookup_insert_ne by congruence.
      rewrite Hhd. cbn [fmap option_fmap option_map f2 next prev].
      apply andb_true_intro. split; [apply andb_true_intro; split|].
      * apply (snoc_linked mem); try assumption.
        -- intros ->. discriminate Hlast.
        -- intros r Hr Hrl.
           destruct (Hmapped r Hr) as (_ & _ & Hrh).
           rewrite lookup_alter_ne by congruence.
           rewrite lookup_alter_ne.
           ++ apply lookup_insert_ne. intros E.
              apply (Hfresh r Hr). unfold later_of in E. lia.
           ++ intros E. apply Hrl. rewrite Hlast. f_equal.
              unfold later_of in E. lia.
        -- intros r Hr. rewrite Hlast in Hr. injection Hr as <-.
           rewrite lookup_alter_ne by congruence.
           rewrite lookup_alter_eq, lookup_insert_ne by congruence.
           rewrite Hlt. eexists. reflexivity.
        -- rewrite lookup_alter_ne by congruence.
           rewrite lookup_alter_ne by congruence.
           rewrite lookup_insert_eq. eexists. reflexivity.
      * unfold tail_of. rewrite last_snoc. apply Z.eqb_refl.
      * apply bool_decide_eq_true_2. apply NoDup_app.
        split; [exact Hnd|]. split; [|apply NoDup_singleton].
        intros r Hr Hr'. apply list_elem_of_singleton in Hr'.
        exact (Hfresh r Hr Hr').
    + (* the empty list *)
      apply last_None in Hlast. subst records.
      unfold tail_of in Hprev. cbn [last] in Hprev. rewrite Hprev.
      rewrite lookup_alter_eq.
      rewrite lookup_insert_ne by congruence.
      rewrite Hhd. cbn [fmap option_fmap option_map f1 f2 next prev app].
      cbn [linked]. rewrite Z.eqb_refl.
      rewrite (proj2 (Z.eqb_neq _ _) Hqe), (proj2 (Z.eqb_neq _ _) Hqh).
      rewrite lookup_alter_ne by congruence.
      rewrite lookup_alter_ne by congruence.
      rewrite lookup_insert_eq. cbn [next negb andb linked].
      rewrite Z.eqb_refl. unfold tail_of. cbn [last]. fold (later_of later qe).
      rewrite Z.eqb_refl. cbn [andb].
      apply bool_decide_eq_true_2. apply NoDup_singleton.
  - intros a. rewrite !lookup_alter_is_Some, lookup_insert_is_Some'.
    split; (intros [E | H]; [left; congruence | right; exact H]).
Qed.

(** The log built by appending [entries], distinct queue entries, holds
    them in the order of insertion. *)
Lemma log_of_queue (entries : list Z) :
  NoDup entries ->
  Forall (fun qe => qe <> 0 /\ later_of later qe <> head) entries ->
  measurement_queue head later (log_of head later entries) entries = true
  /\ forall a : Z,
       is_Some (log_of head later entries !! a)
       <-> a = head \/ exists r, r ∈ entries /\ a = later_of later r.
Proof.
  induction entries as [| qe entries IH] using rev_ind; intros Hnd Hok.
  - split.
    + unfold measurement_queue, measurement_list, log_of, empty_log.
      cbn [foldl]. rewrite lookup_singleton_eq. cbn [next prev linked].
      rewrite Z.eqb_refl. unfold tail_of. cbn [last].
      rewrite Z.eqb_refl. cbn [andb].
      apply bool_decide_eq_true_2. apply NoDup_nil. exact I.
    + intros a. unfold log_of, empty_log. cbn [foldl].
      rewrite lookup_singleton_is_Some. split.
      * intros <-. left. reflexivity.
      * intros [-> | (r & Hr & _)]; [reflexivity|].
        apply elem_of_nil in Hr. contradiction.
  - apply NoDup_app in Hnd. destruct Hnd as (Hnd & Hdisj & _).
    apply Forall_app in Hok. destruct Hok as [Hok Hq].
    apply Forall_cons in Hq. destruct Hq as [[Hqe Hqh] _].
    destruct (IH Hnd Hok) as [Hqueue Hdom].
    assert (Hfree : log_of head later entries !! later_of later qe = None).
    { apply eq_None_not_Some. intros Hs. apply Hdom in Hs.
      destruct Hs as [E | (r & Hr & E)]; [contradiction|].
      assert (r = qe) by (unfold later_of in E; lia). subst r.
      apply (Hdisj qe Hr). apply list_elem_of_singleton. reflexivity. }
    unfold log_of. rewrite foldl_snoc. fold (log_of head later entries).
    destruct (add_tail_queue (log_of head later entries) entries qe
                Hqueue Hqe Hqh Hfree) as [Hq' Hdom'].
    split; [exact Hq'|].
    intros a. rewrite Hdom', Hdom. split.
    + intros [-> | [-> | (r & Hr & ->)]].
      * right. exists qe. split; [|reflexivity].
        apply elem_of_app. right. apply list_elem_of_singleton. reflexivity.
      * left. reflexivity.
      * right. exists r. split; [|reflexivity].
        apply elem_of_app. left. exact Hr.
    + intros [-> | (r & Hr & ->)]; [right; left; reflexivity|].
      apply elem_of_app in Hr. destruct Hr as [Hr | Hr].
      * right. right. exists r. split; [exact Hr | reflexivity].
      * apply list_elem_of_singleton in Hr. subst r. left. reflexivity.
Qed.

(** Reading a log that was filled by appending [entries] returns, at
    position [p], the entry appended as the [(p+1)]-th. *)
Lemma log_read_in_insertion_order (entries : list Z) (fuel : nat) (p : Z) :
  NoDup entries ->
  Forall (fun qe => qe <> 0 /\ later_of later qe <> head) entries ->
  (length entries < fuel)%nat ->
  0 <= p < 2 ^ 63 ->
  ima_measurements_start head later fuel (log_of head later entries) p
  = Done (pointer (entries !! Z.to_nat p)).
Proof.
  intros Hnd Hok Hfuel Hp.
  destruct (log_of_queue entries Hnd Hok) as [Hq _].
  unfold measurement_queue in Hq.
  apply andb_prop in Hq. destruct Hq as [Hq _].
  apply andb_prop in Hq. destruct Hq as [Hlist _].
  unfold measurement_list in Hlist. unfold ima_measurements_start.
  destruct (log_of head later entries !! head) as [hd|]; [|discriminate].
  rewrite (list_for_each_entry_spec head later _ entries fuel (next hd) p
             Hlist Hfuel) by lia.
  unfold to_unsigned. rewrite Z.mod_small; [reflexivity|].
  change (2 ^ 63) with 9223372036854775808 in Hp.
  change (2 ^ 64) with 18446744073709551616. lia.
Qed.

End Appending.

End ImaProofs.

(** ** Paths *)

Lemma on_every_path_run {E : Type -> Type} {W R : Type}
    (h : handler E W) (p : prog E R) :
  forall (post : list (step E) -> option R -> Prop) (w : W),
    on_every_path p post ->
    post (steps h p w) (option_map fst (run h p w)).
Proof.
  induction p as [r | | X e k IH]; intros post w Hp; cbn in *;
    [exact Hp | exact Hp |].
  destruct (h X e w) as [x w'].
  exact (IH x (fun t r => post (answered e x :: t) r) w' (Hp x)).
Qed.

(** Walk every path of a function body: introduce the answers, split on
    every test, remember what each test decided. *)
Ltac walk :=
  repeat first
    [ progress cbn [on_every_path bind call fst snd]
    | intros ?
    | match goal with
      | |- context [if ?c then _ else _] => destruct c eqn:?
      end ].

Ltac settle :=
  cbn;
  repeat match goal with
  | H : ?c = _ |- context [?c] => rewrite H; cbn
  end.

Ltac decided :=
  repeat match goal with
  | H : negb (?v =? 0) = _ |- _ =>
      first [ apply negb_false_iff, Z.eqb_eq in H
            | apply negb_true_iff, Z.eqb_neq in H ]
  | H : negb ?b = true |- _ => apply negb_true_iff in H
  | H : negb ?b = false |- _ => apply negb_false_iff in H
  | H : (?v =? 0) = true |- _ => apply Z.eqb_eq in H
  | H : (?v =? 0) = false |- _ => apply Z.eqb_neq in H
  | H : (?v <? 0) = true |- _ => apply Z.ltb_lt in H
  | H : (?v <? 0) = false |- _ => apply Z.ltb_ge in H
  end.

Ltac cases_in :=
  repeat match goal with
  | H : _ \/ _ |- _ => destruct H
  | H : False |- _ => contradiction
  | H : (_, _) = (_, _) |- _ => injection H as ? ?
  end.

Lemma on_every_path_impl {E : Type -> Type} {R : Type} (p : prog E R) :
  forall post post' : list (step E) -> option R -> Prop,
    (forall t r, post t r -> post' t r) ->
    on_every_path p post -> on_every_path p post'.
Proof.
  induction p as [r | | X e q IH]; intros post post' Himp Hp; cbn in *;
    [apply Himp, Hp | apply Himp, Hp |].
  intros x. apply (IH x (fun t r => post (answered e x :: t) r)).
  - intros t r. apply Himp.
  - apply Hp.
Qed.

Lemma on_every_path_always {E : Type -> Type} {R : Type} (p : prog E R) :
  forall post : list (step E) -> option R -> Prop,
    (forall t r, post t r) -> on_every_path p post.
Proof.
  induction p as [r | | X e q IH]; intros post H; cbn;
    [apply H | apply H |].
  intros x. apply IH. intros t r. apply H.
Qed.

Lemma on_every_path_assuming {E : Type -> Type} {R : Type} (H : Prop)
    (p : prog E R) :
  forall post : list (step E) -> option R -> Prop,
    (H -> on_every_path p post) ->
    on_every_path p (fun t r => H -> post t r).
Proof.
  induction p as [r | | X e q IH]; intros post Hp; cbn in *;
    [exact Hp | exact Hp |].
  intros x. apply (IH x (fun t r => post (answered e x :: t) r)).
  intros h. exact (Hp h x).
Qed.

Lemma on_every_path_conj {E : Type -> Type} {R : Type} (p : prog E R) :
  forall post post' : list (step E) -> option R -> Prop,
    on_every_path p post -> on_every_path p post' ->
    on_every_path p (fun t r => post t r /\ post' t r).
Proof.
  induction p as [r | | X e q IH]; intros post post' Hp Hp'; cbn in *;
    [exact (conj Hp Hp') | exact (conj Hp Hp') |].
  intros x.
  exact (IH x (fun t r => post (answered e x :: t) r)
              (fun t r => post' (answered e x :: t) r) (Hp x) (Hp' x)).
Qed.

Lemma on_every_path_bind {E : Type -> Type} {A B : Type} (p : prog E A)
    (f : A -> prog E B) :
  forall post : list (step E) -> option B -> Prop,
    on_every_path p
      (fun t r =>
         match r with
         | Some a => on_every_path (f a) (fun t' r' => post (t ++ t') r')
         | None => post t None
         end) ->
    on_every_path (bind p f) post.
Proof.
  induction p as [a | | X e k IH]; intros post H; cbn in *;
    [exact H | exact H |].
  intros x. apply IH. exact (H x).
Qed.

(** ** The upload write path, all of it *)

Module WriteProofs.
Import Ima ImaSpec ImaTrace.

Lemma write_out_ret (st : statics) (dentry : dentry_ptr) (result : Z) :
  ima_write_data_out st dentry result
  = Ret (result,
         if bool_decide (dentry = dent st ima_policy) && (result <? 0)
         then set_valid_policy 0 st else st).
Proof.
  unfold ima_write_data_out.
  destruct (bool_decide (dentry = dent st ima_policy) && (result <? 0));
    reflexivity.
Qed.

(** With [ima_read_file] taken as a call that returns, every path of a
    write ends at the [out:] label. *)
Lemma write_ends_at_out (k : kconsts) (st : statics) (dentry : dentry_ptr)
    (buf datalen ppos : Z) :
  on_every_path (ima_write_data k st dentry buf datalen ppos)
    (fun _ r =>
       exists result : Z,
         r = Some (result,
                   if bool_decide (dentry = dent st ima_policy)
                      && (result <? 0)
                   then set_valid_policy 0 st else st)).
Proof.
  unfold ima_write_data, ima_write_data_out_free.
  walk; rewrite write_out_ret; cbn; eexists; reflexivity.
Qed.

Ltac leaf :=
  rewrite write_out_ret; settle.

(** X5. The failures before any parsing. A failed allocation ends the write
    with [-ENOMEM] and nothing else is called; an incomplete copy ends it
    with [-EFAULT] before the mutex is touched; an interrupted wait for
    the mutex ends it with the code the wait returned. In the last two
    cases nothing is parsed. *)
Theorem write_failure_codes (k : kconsts) (st : statics)
    (dentry : dentry_ptr) (buf datalen ppos : Z) :
  on_every_path (ima_write_data k st dentry buf datalen ppos)
    (fun t r =>
       exists (result : Z) (st' : statics),
         r = Some (result, st')
         /\ (In 0 (omap vmalloc_answer t) ->
             result = - ENOMEM k /\ length t = 1%nat)
         /\ (forall c : Z * list byte,
               In c (omap copy_answer t) -> fst c <> 0 ->
               result = - EFAULT k
               /\ omap lock_answer t = [] /\ omap parser_input t = [])
         /\ (forall code : Z,
               In code (omap lock_answer t) -> code < 0 ->
               result = code /\ omap parser_input t = [])).
Proof.
  unfold ima_write_data, ima_write_data_out_free.
  walk; leaf; do 2 eexists; (split; [reflexivity|]); cbn;
    repeat match goal with
    | H : negb (?v =? 0) = _ |- _ =>
        first [ apply negb_false_iff, Z.eqb_eq in H
              | apply negb_true_iff, Z.eqb_neq in H ]
    | H : (?v =? 0) = true |- _ => apply Z.eqb_eq in H
    | H : (?v =? 0) = false |- _ => apply Z.eqb_neq in H
    | H : (?v <? 0) = true |- _ => apply Z.ltb_lt in H
    | H : (?v <? 0) = false |- _ => apply Z.ltb_ge in H
    end;
    repeat split; intros;
    repeat match goal with
    | H : _ \/ _ |- _ => destruct H
    | H : False |- _ => contradiction
    end;
    subst; cbn [fst snd] in *; try reflexivity; try lia; try congruence.
Qed.

(** X7. The refusals. A compact list written by a process that is not the
    registered parser is refused with [-EACCES]; so is a policy rule
    when [ima_appraise] demands a signed policy, which is also reported
    to the audit log and leaves [valid_policy] cleared. Nothing is
    parsed in either case. *)
Theorem write_refusals (k : kconsts) (st : statics)
    (dentry : dentry_ptr) (buf datalen ppos : Z) :
  kconsts_ok k = true ->
  on_every_path (ima_write_data k st dentry buf datalen ppos)
    (fun t r =>
       exists (result : Z) (st' : statics),
         r = Some (result, st')
         /\ (In false (omap parser_check t) ->
             result = - EACCES k /\ omap parser_input t = [])
         /\ (forall a : Z,
               In a (omap appraise_answer t) ->
               Z.land a (IMA_APPRAISE_POLICY k) <> 0 ->
               result = - EACCES k
               /\ omap parser_input t = []
               /\ In "signed policy required"%string (omap audit_cause t)
               /\ st' = set_valid_policy 0 st)).
Proof.
  intros Hk.
  assert (Hneg : (- EACCES k <? 0) = true).
  { unfold kconsts_ok in Hk. cbn [forallb] in Hk.
    repeat (apply andb_prop in Hk; destruct Hk as [? Hk]).
    apply Z.ltb_lt. lia. }
  unfold ima_write_data, ima_write_data_out_free.
  walk; leaf; do 2 eexists; (split; [reflexivity|]); cbn;
    split; intros; cases_in; decided; subst;
    try discriminate; try contradiction;
    repeat split; try reflexivity; try (left; reflexivity).
  rewrite bool_decide_eq_true_2 by reflexivity. reflexivity.
Qed.

Lemma write_refusals_witness :
  kconsts_ok linux = true
  /\ on_every_path
       (ima_write_data linux mounted (dent mounted digest_list_data) 0 64 0)
       (fun t r =>
          exists (result : Z) (st' : statics),
            r = Some (result, st')
            /\ (In false (omap parser_check t) ->
                result = -13 /\ omap parser_input t = [])
            /\ (forall a : Z,
                  In a (omap appraise_answer t) ->
                  Z.land a 8 <> 0 ->
                  result = -13
                  /\ omap parser_input t = []
                  /\ In "signed policy required"%string (omap audit_cause t)
                  /\ st' = set_valid_policy 0 mounted)).
Proof.
  assert (Hk : kconsts_ok linux = true) by (vm_compute; reflexivity).
  split; [exact Hk|].
  exact (write_refusals linux mounted (dent mounted digest_list_data)
           0 64 0 Hk).
Defined.

(** X8. Data that names a file, on any upload file. After a complete copy
    and with the mutex held, a buffer that starts with a slash goes to
    [ima_read_file] together with the file's dentry, and to nothing
    else: neither [ima_appraise] nor the parser registration is
    consulted here. A buffer that does not start with a slash never
    reaches [ima_read_file]. *)
Theorem write_path_delegation (k : kconsts) (st : statics)
    (dentry : dentry_ptr) (buf datalen ppos : Z) :
  on_every_path (ima_write_data k st dentry buf datalen ppos)
    (fun t _ =>
       forall (c : Z * list byte) (code : Z),
         In c (omap copy_answer t) -> fst c = 0 ->
         In code (omap lock_answer t) -> 0 <= code ->
         if names_file (written datalen (snd c))
         then omap loader_call t = [(written datalen (snd c), dentry)]
              /\ omap rule_parse t = [] /\ omap list_parse t = []
              /\ omap parser_check t = [] /\ omap appraise_answer t = []
         else omap loader_call t = []).
Proof.
  unfold ima_write_data, ima_write_data_out_free.
  walk; leaf; intros c code Hc Hz Hl Hcode; cbn in *; cases_in; decided;
    subst; try contradiction; try lia;
    unfold names_file, written;
    repeat match goal with
    | H : (_ =? _)%byte = _ |- _ => rewrite H
    end;
    repeat split; reflexivity.
Qed.

(** A policy rule of four bytes written by an administrator, on a kernel
    where nothing fails: the calls made, and the result. *)
Example write_rule_run :
  let rule := ["m"; "e"; "a"; "s"]%byte in
  let p := ima_write_data linux mounted (dent mounted ima_policy) 0 4 0 in
  run (obliging rule false 0) p tt = Some ((4, mounted), tt)
  /\ calls (obliging rule false 0) p tt
     = [ ev (vmalloc 5); ev (copy_from_user 4096 0 4);
         ev mutex_lock_interruptible; ev read_ima_appraise;
         ev (ima_parse_add_rule (rule ++ [x00])); ev mutex_unlock;
         ev (vfree 4096) ].
Proof. split; reflexivity. Qed.

(** The same rule when a signed policy is demanded. *)
Example write_rule_refused_run :
  let rule := ["m"; "e"; "a"; "s"]%byte in
  let p := ima_write_data linux mounted (dent mounted ima_policy) 0 4 0 in
  run (obliging rule false 8) p tt
  = Some ((-13, set_valid_policy 0 mounted), tt).
Proof. reflexivity. Qed.

End WriteProofs.

(** ** Opening and releasing an upload file *)

Module UploadProofs.
Import Ima ImaSpec Upload.

Lemma bit_nonneg (flag : ima_fs_flag) : 0 <= bit flag.
Proof. destruct flag; cbn; lia. Qed.

Lemma setbit_set (a n : Z) : 0 <= n -> Z.testbit a n = true -> Z.setbit a n = a.
Proof.
  intros Hn Hb. apply Z.bits_inj'. intros m Hm.
  destruct (Z.eq_dec n m) as [<- | Hne].
  - rewrite Z.setbit_eq by assumption. symmetry. exact Hb.
  - apply Z.setbit_neq; assumption.
Qed.

Lemma clearbit_setbit (a n : Z) :
  0 <= n -> Z.testbit a n = false -> Z.clearbit (Z.setbit a n) n = a.
Proof.
  intros Hn Hb. apply Z.bits_inj'. intros m Hm.
  destruct (Z.eq_dec n m) as [<- | Hne].
  - rewrite Z.clearbit_eq by assumption. symmetry. exact Hb.
  - rewrite Z.clearbit_neq, Z.setbit_neq by assumption. reflexivity.
Qed.

Lemma statics_flags_same (st : statics) :
  set_ima_fs_flags (ima_fs_flags st) st = st.
Proof. destruct st; reflexivity. Qed.

(** Opening for writing and opening for reading differ in the access
    mode. *)
Lemma write_mode_not_rdonly (c : oconsts) (f_flags : Z) :
  oconsts_ok c = true ->
  Z.land f_flags (O_WRONLY c) <> 0 ->
  Z.land f_flags (O_ACCMODE c) <> O_RDONLY c.
Proof.
  unfold oconsts_ok. intros Hc Hw.
  repeat (apply andb_prop in Hc; destruct Hc as [Hc ?]).
  apply Z.eqb_eq in Hc.
  repeat match goal with
  | H : (_ =? _) = true |- _ => apply Z.eqb_eq in H
  end.
  rewrite Hc. intros E. apply Hw.
  match goal with
  | H : Z.land (O_WRONLY c) (O_ACCMODE c) = O_WRONLY c |- _ => rewrite <- H
  end.
  rewrite (Z.land_comm (O_WRONLY c)), Z.land_assoc, E. apply Z.land_0_l.
Qed.

Section Configured.

Variables READ WRITE : bool.
Variables (k : kconsts) (c : oconsts).
Hypothesis k_ok : kconsts_ok k = true.
Hypothesis c_ok : oconsts_ok c = true.

(** An open for writing is exclusive within the class of the file. When
    the class's bit of [ima_fs_flags] is set the open fails with
    [-EBUSY], calls nothing and changes nothing; otherwise it succeeds
    and sets that bit and no other. *)
Lemma open_for_writing (st : statics) (dentry : dentry_ptr) (f_flags : Z) :
  Z.land f_flags (O_WRONLY c) <> 0 ->
  let n := bit (ima_get_dentry_flag st dentry) in
  if Z.testbit (ima_fs_flags st) n then
    ima_open_data_upload READ k c st dentry f_flags = Ret (- EBUSY c, st)
  else
    on_every_path (ima_open_data_upload READ k c st dentry f_flags)
      (fun _ r =>
         r = Some (0, set_ima_fs_flags (Z.setbit (ima_fs_flags st) n) st)).
Proof.
  intros Hw n. unfold ima_open_data_upload, test_and_set_bit.
  fold n. generalize (bit_nonneg (ima_get_dentry_flag st dentry)).
  fold n. intros Hn.
  destruct (bool_decide (dentry = dent st ima_policy) && READ);
    rewrite (proj2 (Z.eqb_neq _ _) Hw); cbv beta iota zeta;
    destruct (Z.testbit (ima_fs_flags st) n) eqn:Hb.
  1, 3: rewrite (setbit_set _ _ Hn Hb), statics_flags_same; reflexivity.
  all: unfold is_digest_list_file; cbn [dent set_ima_fs_flags];
    destruct (bool_decide (dentry = dent st digest_list_data)
              || bool_decide (dentry = dent st digest_list_data_del));
    cbn; [intros []; cbn; [intros []|]; reflexivity | reflexivity].
Qed.

Lemma ebusy_negative : - EBUSY c <> 0.
Proof.
  unfold oconsts_ok in c_ok.
  repeat (apply andb_prop in c_ok; destruct c_ok as [c_ok ?]).
  repeat match goal with
  | H : (_ <? _) = true |- _ => apply Z.ltb_lt in H
  end.
  lia.
Qed.

(** X9. Files of one class exclude each other: once a file is open for
    writing, an open for writing of any file with the same busy flag
    (the same file; the other digest-list file; any other unknown file)
    fails with [-EBUSY] and changes nothing. *)
Theorem write_open_exclusive (st : statics) (d1 d2 : dentry_ptr)
    (f1 f2 : Z) :
  Z.land f1 (O_WRONLY c) <> 0 ->
  Z.land f2 (O_WRONLY c) <> 0 ->
  ima_get_dentry_flag st d2 = ima_get_dentry_flag st d1 ->
  on_every_path (ima_open_data_upload READ k c st d1 f1)
    (fun _ r =>
       forall (result : Z) (st1 : statics),
         r = Some (result, st1) -> result = 0 ->
         ima_open_data_upload READ k c st1 d2 f2 = Ret (- EBUSY c, st1)).
Proof.
  intros Hw1 Hw2 Hclass.
  pose proof (open_for_writing st d1 f1 Hw1) as H1. cbv zeta in H1.
  destruct (Z.testbit (ima_fs_flags st) (bit (ima_get_dentry_flag st d1)))
    eqn:Hb.
  - rewrite H1. cbn. intros result st1 E Hz. injection E as <- <-.
    destruct (ebusy_negative Hz).
  - eapply on_every_path_impl; [|exact H1]. cbn beta.
    intros _ r -> result st1 E _. injection E as <- <-.
    pose proof (open_for_writing
                  (set_ima_fs_flags
                     (Z.setbit (ima_fs_flags st)
                        (bit (ima_get_dentry_flag st d1))) st)
                  d2 f2 Hw2) as H2.
    cbv zeta in H2.
    assert (Hsame : ima_get_dentry_flag
                      (set_ima_fs_flags
                         (Z.setbit (ima_fs_flags st)
                            (bit (ima_get_dentry_flag st d1))) st) d2
                    = ima_get_dentry_flag st d1)
      by (rewrite <- Hclass; reflexivity).
    rewrite Hsame in H2. cbn [ima_fs_flags set_ima_fs_flags] in H2.
    rewrite Z.setbit_eq in H2 by apply bit_nonneg. exact H2.
Qed.

(** X10. A file that is not the policy file: an open for writing followed by
    the release gives back the state before the open — the busy flags,
    securityfs and the inode mode are as they were, and the release
    returns 0. *)
Theorem open_release_round_trip (st : statics) (fs : securityfs)
    (i_mode : Z) (dentry : dentry_ptr) (f_flags : Z) :
  Z.land f_flags (O_WRONLY c) <> 0 ->
  dentry <> dent st ima_policy ->
  Z.testbit (ima_fs_flags st) (bit (ima_get_dentry_flag st dentry)) = false ->
  on_every_path (ima_open_data_upload READ k c st dentry f_flags)
    (fun _ r =>
       exists st1 : statics,
         r = Some (0, st1)
         /\ on_every_path
              (ima_release_data_upload READ WRITE c st1 fs i_mode dentry
                 f_flags)
              (fun _ r' => r' = Some (0, (st, fs, i_mode)))).
Proof.
  intros Hw Hnp Hb.
  pose proof (open_for_writing st dentry f_flags Hw) as H1.
  cbv zeta in H1. rewrite Hb in H1.
  eapply on_every_path_impl; [|exact H1]. cbn beta.
  intros _ r ->. eexists. split; [reflexivity|].
  unfold ima_release_data_upload.
  rewrite (proj2 (Z.eqb_neq _ _) (write_mode_not_rdonly c f_flags c_ok Hw)).
  unfold is_digest_list_file. cbn [dent set_ima_fs_flags].
  rewrite (bool_decide_eq_false_2 _ Hnp). cbn [negb].
  assert (E : clear_bit (ima_get_dentry_flag st dentry)
                (set_ima_fs_flags
                   (Z.setbit (ima_fs_flags st)
                      (bit (ima_get_dentry_flag st dentry))) st) = st).
  { unfold clear_bit. cbn [ima_fs_flags set_ima_fs_flags].
    rewrite clearbit_setbit by (apply bit_nonneg || exact Hb).
    destruct st; reflexivity. }
  change (ima_get_dentry_flag
            (set_ima_fs_flags
               (Z.setbit (ima_fs_flags st)
                  (bit (ima_get_dentry_flag st dentry))) st) dentry)
    with (ima_get_dentry_flag st dentry).
  rewrite E.
  destruct (bool_decide (dentry = dent st digest_list_data)
            || bool_decide (dentry = dent st digest_list_data_del));
    cbn; [intros []|]; reflexivity.
Qed.

(** X11. An open that is not for writing never changes the file-scope state.
    It reaches [seq_open] only for the policy file, with
    [CONFIG_IMA_READ_POLICY], with access mode [O_RDONLY] and for a
    caller with [CAP_SYS_ADMIN]; every other such open is refused, with
    [-EPERM] exactly when the capability check was made and failed, with
    [-EACCES] otherwise. *)
Theorem read_open_rules (st : statics) (dentry : dentry_ptr) (f_flags : Z) :
  Z.land f_flags (O_WRONLY c) = 0 ->
  on_every_path (ima_open_data_upload READ k c st dentry f_flags)
    (fun t r =>
       exists result : Z,
         r = Some (result, st)
         /\ (forall ops, In ops (omap opened_seq t) ->
               ops = Some ima_policy_seqops
               /\ READ = true /\ dentry = dent st ima_policy
               /\ Z.land f_flags (O_ACCMODE c) = O_RDONLY c
               /\ omap capability t = [true])
         /\ (omap opened_seq t = [] ->
             if bool_decide (omap capability t = [false])
             then result = - EPERM c else result = - EACCES k)).
Proof.
  intros Hr. unfold ima_open_data_upload.
  rewrite Hr, Z.eqb_refl.
  destruct (bool_decide (dentry = dent st ima_policy)) eqn:Hp;
    destruct READ; cbn [andb negb];
    try (cbn; eexists; split; [reflexivity|]; split;
         [intros ops [] | intros _; reflexivity]).
  apply bool_decide_eq_true_1 in Hp.
  destruct (Z.eqb_spec (Z.land f_flags (O_ACCMODE c)) (O_RDONLY c))
    as [Ha | Ha]; cbn [negb].
  - cbn. intros [|]; cbn.
    + intros x. eexists. split; [reflexivity|]. split.
      * intros ops [<- | []]. repeat split; assumption.
      * discriminate.
    + eexists. split; [reflexivity|]. split.
      * intros ops [].
      * intros _. reflexivity.
  - cbn. eexists. split; [reflexivity|]. split.
    + intros ops [].
    + intros _. reflexivity.
Qed.

Lemma policy_flag (st : statics) :
  ima_get_dentry_flag st (dent st ima_policy) = IMA_POLICY_BUSY.
Proof.
  unfold ima_get_dentry_flag.
  destruct (decide (dent st ima_policy = dent st ima_policy));
    [reflexivity | contradiction].
Qed.

(** X12. Releasing the policy file after an upload ends the upload in exactly
    one of two ways, and returns 0 either way. Either the new rules are
    taken into use ([ima_update_policy]): then no write had failed,
    [ima_check_policy] was asked once and passed (its answer was not
    negative), and "completed" is reported. Or all rules loaded so far
    are deleted ([ima_delete_rules]): then a write had failed and the
    check was not asked, or the check was asked once and failed;
    "failed" is reported, [valid_policy] is 1 again for the next upload,
    the busy bit of the policy file is clear and securityfs is
    untouched. [valid_policy] is never left at 0. *)
Theorem policy_release_outcome (st : statics) (fs : securityfs)
    (i_mode f_flags : Z) :
  Z.land f_flags (O_ACCMODE c) <> O_RDONLY c ->
  on_every_path
    (ima_release_data_upload READ WRITE c st fs i_mode (dent st ima_policy)
       f_flags)
    (fun t r =>
       exists (st' : statics) (fs' : securityfs) (mode' : Z),
         r = Some (0, (st', fs', mode'))
         /\ valid_policy st' <> 0
         /\ (count deletes_rules t + count updates_policy t = 1)%nat
         /\ (count updates_policy t = 1%nat ->
             valid_policy st <> 0
             /\ valid_policy st' = valid_policy st
             /\ omap reported t = [("completed"%string, 0)]
             /\ exists a : Z, omap check_answer t = [a] /\ 0 <= a)
         /\ (count deletes_rules t = 1%nat ->
             omap reported t = [("failed"%string, 1)]
             /\ valid_policy st' = 1
             /\ Z.testbit (ima_fs_flags st') (bit IMA_POLICY_BUSY) = false
             /\ fs' = fs /\ mode' = i_mode
             /\ ((valid_policy st = 0 /\ omap check_answer t = [])
                 \/ (valid_policy st <> 0
                     /\ exists a : Z, omap check_answer t = [a] /\ a < 0)))).
Proof.
  intros Ha. unfold ima_release_data_upload.
  rewrite (proj2 (Z.eqb_neq _ _) Ha), policy_flag.
  rewrite bool_decide_eq_true_2 by reflexivity. cbn [negb].
  unfold after_update.
  walk; cbn;
    repeat match goal with
    | H : ?x = _ |- context [?x] => rewrite H; cbn
    end;
    decided;
    do 3 eexists; (split; [reflexivity|]); cbn;
    repeat split; intros; try discriminate; try assumption;
    try reflexivity; try lia;
    try (rewrite <- Z.bit0_odd; apply Z.clearbit_eq; lia);
    try (exfalso; cbn in *; congruence);
    try (eexists; split; [reflexivity | lia]);
    try (left; split; [assumption | reflexivity]);
    try (right; split; [assumption | eexists; split; [reflexivity | lia]]).
Qed.

(** Releasing with [valid_policy] at 0 deletes the rules without asking
    [ima_check_policy] and without taking anything into use. *)
Lemma release_invalid_policy (st : statics) (fs : securityfs)
    (i_mode f_flags : Z) :
  Z.land f_flags (O_ACCMODE c) <> O_RDONLY c ->
  valid_policy st = 0 ->
  on_every_path
    (ima_release_data_upload READ WRITE c st fs i_mode (dent st ima_policy)
       f_flags)
    (fun t r =>
       count deletes_rules t = 1%nat
       /\ count updates_policy t = 0%nat
       /\ count checks_policy t = 0%nat
       /\ exists st' : statics,
            r = Some (0, (st', fs, i_mode)) /\ valid_policy st' = 1).
Proof.
  intros Ha Hv. unfold ima_release_data_upload.
  rewrite (proj2 (Z.eqb_neq _ _) Ha), policy_flag.
  rewrite bool_decide_eq_true_2 by reflexivity.
  rewrite Hv. cbn [negb Z.eqb].
  destruct (is_digest_list_file st (dent st ima_policy)); cbn;
    rewrite Hv; cbn; intros;
    (repeat split; [eexists; split; reflexivity]).
Qed.

(** X13. A policy upload in which a write failed is discarded as a whole:
    when [ima_write_data] on the policy file returns an error, the
    release that follows deletes the rules loaded so far, does not ask
    [ima_check_policy], takes nothing into use, and leaves
    [valid_policy] at 1. *)
Theorem failed_write_discards_policy (st : statics) (fs : securityfs)
    (buf datalen ppos i_mode f_flags : Z) :
  Z.land f_flags (O_ACCMODE c) <> O_RDONLY c ->
  on_every_path (ima_write_data k st (dent st ima_policy) buf datalen ppos)
    (fun _ r =>
       exists (result : Z) (st1 : statics),
         r = Some (result, st1)
         /\ (result < 0 ->
             on_every_path
               (ima_release_data_upload READ WRITE c st1 fs i_mode
                  (dent st1 ima_policy) f_flags)
               (fun t r' =>
                  count deletes_rules t = 1%nat
                  /\ count updates_policy t = 0%nat
                  /\ count checks_policy t = 0%nat
                  /\ exists st2 : statics,
                       r' = Some (0, (st2, fs, i_mode))
                       /\ valid_policy st2 = 1))).
Proof.
  intros Ha.
  eapply on_every_path_impl;
    [|exact (WriteProofs.write_ends_at_out k st (dent st ima_policy)
               buf datalen ppos)].
  cbn beta. intros _ r [result ->].
  do 2 eexists. split; [reflexivity|]. intros Hneg.
  rewrite bool_decide_eq_true_2 by reflexivity.
  rewrite (proj2 (Z.ltb_lt _ _) Hneg). cbn [andb].
  apply (release_invalid_policy (set_valid_policy 0 st) fs i_mode f_flags Ha).
  reflexivity.
Qed.

End Configured.

(** X14. Without [CONFIG_IMA_WRITE_POLICY] the policy can be replaced only
    once. A release that takes the uploaded rules into use leaves the
    busy bit of the policy file as the open set it. With
    [CONFIG_IMA_READ_POLICY] the file stays, loses its owner write
    permission, and every later open for writing fails with [-EBUSY];
    without it the file is removed from securityfs and [ima_policy] is
    null. *)
Theorem policy_write_once (READ WRITE : bool) (k : kconsts) (c : oconsts)
    (st : statics) (fs : securityfs) (i_mode f_flags : Z) :
  oconsts_ok c = true ->
  WRITE = false ->
  Z.land f_flags (O_WRONLY c) <> 0 ->
  Z.testbit (ima_fs_flags st) (bit IMA_POLICY_BUSY) = true ->
  on_every_path
    (ima_release_data_upload READ WRITE c st fs i_mode (dent st ima_policy)
       f_flags)
    (fun t r =>
       count updates_policy t = 1%nat ->
       exists (st' : statics) (fs' : securityfs) (mode' : Z),
         r = Some (0, (st', fs', mode'))
         /\ Z.testbit (ima_fs_flags st') (bit IMA_POLICY_BUSY) = true
         /\ if READ then
              st' = st /\ fs' = fs
              /\ Z.land mode' (S_IWUSR c) = 0
              /\ ima_open_data_upload READ k c st' (dent st ima_policy)
                   f_flags
                 = Ret (- EBUSY c, st')
            else
              dent st' ima_policy = NULL
              /\ mode' = i_mode
              /\ forall d : nat,
                   dent st ima_policy = Dentry d -> files fs' !! d = None).
Proof.
  intros c_ok -> Hw Hb.
  pose proof (write_mode_not_rdonly c f_flags c_ok Hw) as Ha.
  unfold ima_release_data_upload.
  rewrite (proj2 (Z.eqb_neq _ _) Ha), policy_flag.
  rewrite bool_decide_eq_true_2 by reflexivity. cbn [negb].
  unfold after_update. destruct READ; cbn [negb andb].
  all: walk; cbn;
    repeat match goal with
    | H : ?x = _ |- context [?x] => rewrite H; cbn
    end;
    try match goal with
        | H : _ = 1%nat |- _ => cbn in H; discriminate H
        end;
    do 3 eexists; (split; [reflexivity|]);
    (split; [exact Hb|]).
  all: try (split; [reflexivity|]; split; [reflexivity|]; split;
            [ rewrite <- Z.land_assoc, (Z.land_comm (Z.lnot _)),
                Z.land_lnot_diag; apply Z.land_0_r
            | pose proof (open_for_writing true k c st (dent st ima_policy)
                            f_flags Hw) as Ho;
              cbv zeta in Ho; rewrite policy_flag, Hb in Ho; exact Ho ]).
  all: split; [reflexivity|]; split; [reflexivity|];
    intros d Hd; rewrite Hd; cbn [securityfs_remove files];
    apply lookup_delete_eq.
Qed.

(** X15. With [CONFIG_IMA_WRITE_POLICY] the policy file can be written again:
    whichever way the release of an upload ends, the busy bit of the
    policy file is clear afterwards, so the next open for writing
    succeeds. *)
Theorem policy_rewritable (READ WRITE : bool) (k : kconsts) (c : oconsts)
    (st : statics) (fs : securityfs) (i_mode f_flags : Z) :
  oconsts_ok c = true ->
  WRITE = true ->
  Z.land f_flags (O_WRONLY c) <> 0 ->
  on_every_path
    (ima_release_data_upload READ WRITE c st fs i_mode (dent st ima_policy)
       f_flags)
    (fun _ r =>
       exists st' : statics,
         r = Some (0, (st', fs, i_mode))
         /\ dent st' = dent st
         /\ Z.testbit (ima_fs_flags st') (bit IMA_POLICY_BUSY) = false
         /\ on_every_path
              (ima_open_data_upload READ k c st' (dent st ima_policy)
                 f_flags)
              (fun _ r' => exists st2 : statics, r' = Some (0, st2))).
Proof.
  intros c_ok -> Hw.
  pose proof (write_mode_not_rdonly c f_flags c_ok Hw) as Ha.
  unfold ima_release_data_upload.
  rewrite (proj2 (Z.eqb_neq _ _) Ha), policy_flag.
  rewrite bool_decide_eq_true_2 by reflexivity. cbn [negb].
  unfold after_update. cbn [negb andb].
  walk; cbn;
    repeat match goal with
    | H : ?x = _ |- context [?x] => rewrite H; cbn
    end;
    eexists; (split; [reflexivity|]); (split; [reflexivity|]);
    (split; [rewrite <- Z.bit0_odd; apply Z.clearbit_eq; lia|]);
    match goal with
    | |- on_every_path (ima_open_data_upload _ _ _ ?s _ _) _ =>
        pose proof (open_for_writing READ k c s (dent st ima_policy) f_flags
                      Hw) as Ho;
        cbv zeta in Ho;
        replace (ima_get_dentry_flag s (dent st ima_policy))
          with IMA_POLICY_BUSY in Ho
          by (symmetry; apply (policy_flag s));
        replace (Z.testbit (ima_fs_flags s) (bit IMA_POLICY_BUSY))
          with false in Ho
          by (symmetry; cbn; rewrite <- Z.bit0_odd; apply Z.clearbit_eq; lia);
        eapply on_every_path_impl; [|exact Ho];
        cbn beta; intros _ r ->; eexists; reflexivity
    end.
Qed.

Lemma write_open_exclusive_witness :
  oconsts_ok linux_open = true
  /\ Z.land 1 (O_WRONLY linux_open) <> 0
  /\ ima_get_dentry_flag mounted (dent mounted digest_list_data_del)
     = ima_get_dentry_flag mounted (dent mounted digest_list_data)
  /\ on_every_path
       (ima_open_data_upload true linux linux_open mounted
          (dent mounted digest_list_data) 1)
       (fun _ r =>
          forall (result : Z) (st1 : statics),
            r = Some (result, st1) -> result = 0 ->
            ima_open_data_upload true linux linux_open st1
              (dent mounted digest_list_data_del) 1
            = Ret (-16, st1)).
Proof.
  assert (Hc : oconsts_ok linux_open = true) by (vm_compute; reflexivity).
  assert (Hw : Z.land 1 (O_WRONLY linux_open) <> 0)
    by (vm_compute; discriminate).
  assert (Hf : ima_get_dentry_flag mounted (dent mounted digest_list_data_del)
               = ima_get_dentry_flag mounted (dent mounted digest_list_data))
    by reflexivity.
  split; [exact Hc|]. split; [exact Hw|]. split; [exact Hf|].
  exact (write_open_exclusive true linux linux_open Hc mounted
           (dent mounted digest_list_data)
           (dent mounted digest_list_data_del) 1 1 Hw Hw Hf).
Defined.

Lemma open_release_round_trip_witness :
  oconsts_ok linux_open = true
  /\ on_every_path
       (ima_open_data_upload true linux linux_open mounted
          (dent mounted digest_list_data) 1)
       (fun _ r =>
          exists st1 : statics,
            r = Some (0, st1)
            /\ on_every_path
                 (ima_release_data_upload true true linux_open st1
                    empty_securityfs 128 (dent mounted digest_list_data) 1)
                 (fun _ r' => r' = Some (0, (mounted, empty_securityfs, 128)))).
Proof.
  assert (Hc : oconsts_ok linux_open = true) by (vm_compute; reflexivity).
  split; [exact Hc|].
  apply (open_release_round_trip true true linux linux_open Hc mounted
           empty_securityfs 128 (dent mounted digest_list_data) 1).
  - vm_compute. discriminate.
  - vm_compute. discriminate.
  - reflexivity.
Defined.

Lemma read_open_rules_witness :
  Z.land 2 (O_WRONLY linux_open) = 0
  /\ ima_open_data_upload true linux linux_open mounted
       (dent mounted ima_policy) 2
     = Ret (-13, mounted).
Proof.
  assert (Hr : Z.land 2 (O_WRONLY linux_open) = 0) by reflexivity.
  split; [exact Hr|].
  pose proof (read_open_rules true linux linux_open mounted
                (dent mounted ima_policy) 2 Hr) as H.
  cbn in H. destruct H as (result & E & _ & Hrefused).
  injection E as <-. reflexivity.
Defined.

Lemma policy_release_outcome_witness :
  Z.land 1 (O_ACCMODE linux_open) <> O_RDONLY linux_open
  /\ on_every_path
       (ima_release_data_upload false false linux_open
          (set_valid_policy 0 mounted) empty_securityfs 128
          (dent mounted ima_policy) 1)
       (fun t r =>
          exists st' : statics,
            r = Some (0, (st', empty_securityfs, 128))
            /\ valid_policy st' = 1
            /\ count deletes_rules t = 1%nat).
Proof.
  assert (Ha : Z.land 1 (O_ACCMODE linux_open) <> O_RDONLY linux_open)
    by (vm_compute; discriminate).
  split; [exact Ha|].
  eapply on_every_path_impl;
    [|exact (policy_release_outcome false false linux_open
               (set_valid_policy 0 mounted) empty_securityfs 128 1 Ha)].
  cbn beta.
  intros t r (st' & fs' & mode' & -> & _ & Hone & Hup & Hdel).
  assert (Hd : count deletes_rules t = 1%nat).
  { destruct (count updates_policy t) as [| n] eqn:Hn; [lia|].
    assert (n = 0%nat) by lia. subst n.
    destruct (Hup eq_refl) as [Hv _]. cbn in Hv. contradiction. }
  destruct (Hdel Hd) as (_ & Hv & _ & -> & -> & _).
  exists st'. repeat split; assumption.
Defined.

Lemma failed_write_discards_policy_witness :
  Z.land 1 (O_ACCMODE linux_open) <> O_RDONLY linux_open
  /\ on_every_path
       (ima_write_data linux mounted (dent mounted ima_policy) 0 4 0)
       (fun _ r =>
          exists (result : Z) (st1 : statics),
            r = Some (result, st1)
            /\ (result < 0 ->
                on_every_path
                  (ima_release_data_upload true false linux_open st1
                     empty_securityfs 128 (dent st1 ima_policy) 1)
                  (fun t r' =>
                     count deletes_rules t = 1%nat
                     /\ count updates_policy t = 0%nat
                     /\ count checks_policy t = 0%nat
                     /\ exists st2 : statics,
                          r' = Some (0, (st2, empty_securityfs, 128))
                          /\ valid_policy st2 = 1))).
Proof.
  assert (Ha : Z.land 1 (O_ACCMODE linux_open) <> O_RDONLY linux_open)
    by (vm_compute; discriminate).
  split; [exact Ha|].
  exact (failed_write_discards_policy true false linux linux_open mounted
           empty_securityfs 0 4 0 128 1 Ha).
Defined.

Lemma policy_write_once_witness :
  oconsts_ok linux_open = true
  /\ Z.land 1 (O_WRONLY linux_open) <> 0
  /\ Z.testbit (ima_fs_flags (set_ima_fs_flags 1 mounted))
       (bit IMA_POLICY_BUSY) = true
  /\ on_every_path
       (ima_release_data_upload true false linux_open
          (set_ima_fs_flags 1 mounted) empty_securityfs 384
          (dent mounted ima_policy) 1)
       (fun t r =>
          count updates_policy t = 1%nat ->
          exists (st' : statics) (fs' : securityfs) (mode' : Z),
            r = Some (0, (st', fs', mode'))
            /\ Z.testbit (ima_fs_flags st') (bit IMA_POLICY_BUSY) = true
            /\ st' = set_ima_fs_flags 1 mounted /\ fs' = empty_securityfs
            /\ Z.land mode' 128 = 0
            /\ ima_open_data_upload true linux linux_open st'
                 (dent mounted ima_policy) 1
               = Ret (-16, st')).
Proof.
  assert (Hc : oconsts_ok linux_open = true) by (vm_compute; reflexivity).
  assert (Hw : Z.land 1 (O_WRONLY linux_open) <> 0)
    by (vm_compute; discriminate).
  assert (Hb : Z.testbit (ima_fs_flags (set_ima_fs_flags 1 mounted))
                 (bit IMA_POLICY_BUSY) = true) by reflexivity.
  split; [exact Hc|]. split; [exact Hw|]. split; [exact Hb|].
  exact (policy_write_once true false linux linux_open
           (set_ima_fs_flags 1 mounted) empty_securityfs 384 1 Hc
           eq_refl Hw Hb).
Defined.

Lemma policy_rewritable_witness :
  oconsts_ok linux_open = true
  /\ Z.land 1 (O_WRONLY linux_open) <> 0
  /\ on_every_path
       (ima_release_data_upload true true linux_open
          (set_ima_fs_flags 1 mounted) empty_securityfs 384
          (dent mounted ima_policy) 1)
       (fun _ r =>
          exists st' : statics,
            r = Some (0, (st', empty_securityfs, 384))
            /\ dent st' = dent (set_ima_fs_flags 1 mounted)
            /\ Z.testbit (ima_fs_flags st') (bit IMA_POLICY_BUSY) = false
            /\ on_every_path
                 (ima_open_data_upload true linux linux_open st'
                    (dent mounted ima_policy) 1)
                 (fun _ r' => exists st2 : statics, r' = Some (0, st2))).
Proof.
  assert (Hc : oconsts_ok linux_open = true) by (vm_compute; reflexivity).
  assert (Hw : Z.land 1 (O_WRONLY linux_open) <> 0)
    by (vm_compute; discriminate).
  split; [exact Hc|]. split; [exact Hw|].
  exact (policy_rewritable true true linux linux_open
           (set_ima_fs_flags 1 mounted) empty_securityfs 384 1 Hc
           eq_refl Hw).
Defined.

(** Opening the policy file for reading and writing at once is refused,
    even for the administrator with [CONFIG_IMA_READ_POLICY]:
    [O_RDWR] has no [O_WRONLY] bit and is not [O_RDONLY]. *)
Example open_rdwr_refused :
  ima_open_data_upload true linux linux_open mounted
    (dent mounted ima_policy) 2
  = Ret (-13, mounted).
Proof. reflexivity. Qed.

End UploadProofs.

(** ** The set-up, beyond the counter files *)

Module SetupProofs.
Import Ima ImaSpec ImaTrace Upload Setup.

Ltac step_ima :=
  cbn [IS_ERR set_dent dent global_eqb global_index Nat.eqb created files
       fst snd].

Ltac run_init_eqn :=
  repeat match goal with
  | |- context [match ?x with Some _ => _ | None => _ end] =>
      destruct x as [?|] eqn:?; step_ima
  end.

Ltac open_init :=
  unfold ima_fs_init, ima_fs_init_digest_list, securityfs_create_file,
    securityfs_create_dir, securityfs_create_symlink, securityfs_create;
  step_ima.

(** X16. [ima_fs_init] returns 0 exactly when every object it tries to create
    is created (seven, or ten with digest lists configured); otherwise
    it returns -1. *)
Theorem init_succeeds_iff (fails : nat -> option Z) (cfg : bool)
    (st0 : statics) (fs0 : securityfs) :
  let rc := fst (fst (ima_fs_init fails cfg st0 fs0)) in
  (rc = 0 \/ rc = -1)
  /\ (rc = 0 <->
      forall i : nat, (i < attempts cfg)%nat ->
                      fails (i + created fs0)%nat = None).
Proof.
  cbv zeta. open_init. run_init_eqn.
  all: try (destruct cfg; step_ima; run_init_eqn).
  all: unfold ima_fs_init_out, attempts; cbn [fst].
  all: split; [auto|]; split; intros H.
  all: try discriminate H.
  all: try (intros i Hi;
            do 10 (destruct i as [| i];
                   [first [assumption | exfalso; lia]|]);
            lia).
  all: try reflexivity.
  all: exfalso;
    repeat match goal with
    | E : ?f ?n = Some _, s : securityfs |- _ =>
        let j := constr:((n - created s)%nat) in
        let F := fresh in
        assert (F : f (j + created s)%nat = None) by (apply H; lia);
        replace (j + created s)%nat with n in F by lia;
        congruence
    end.
Qed.

Ltac lookup_cases H :=
  repeat (rewrite lookup_insert in H; case_decide; [subst|]).

Ltac referenced Hg :=
  exfalso;
  first [ exact (Hg ima_dir eq_refl)
        | exact (Hg ima_symlink eq_refl)
        | exact (Hg binary_runtime_measurements eq_refl)
        | exact (Hg ascii_runtime_measurements eq_refl)
        | exact (Hg runtime_measurements_count eq_refl)
        | exact (Hg violations eq_refl)
        | exact (Hg ima_policy eq_refl)
        | exact (Hg digests_count eq_refl)
        | exact (Hg digest_list_data eq_refl)
        | exact (Hg digest_list_data_del eq_refl) ].

(** X17. A failed set-up leaves none of its files behind: after
    [ima_fs_init] has returned an error, every live file object of
    securityfs was there before the call. *)
Theorem init_failure_removes_files (fails : nat -> option Z) (cfg : bool)
    (st0 : statics) (fs0 : securityfs) (d : nat) (ops : fops) :
  fst (fst (ima_fs_init fails cfg st0 fs0)) <> 0 ->
  files (snd (ima_fs_init fails cfg st0 fs0)) !! d = Some (Some ops) ->
  files fs0 !! d = Some (Some ops).
Proof.
  open_init. run_init_eqn.
  all: try (destruct cfg; step_ima; run_init_eqn).
  all: intros Hrc Hd.
  all: try (exfalso; apply Hrc; reflexivity).
  all: try (apply ImaProofs.out_lookup in Hd; destruct Hd as [Hd Hg];
            step_ima).
  all: cbn [files] in Hd; lookup_cases Hd.
  all: try (referenced Hg).
  all: try discriminate Hd.
  all: exact Hd.
Qed.

Ltac distinct_dentries :=
  repeat first
    [ rewrite decide_True by reflexivity
    | rewrite decide_False by (let E := fresh in intros E; injection E; lia)
    | rewrite bool_decide_eq_true_2 by reflexivity
    | rewrite bool_decide_eq_false_2
        by (let E := fresh in intros E; injection E; lia) ].

(** X18. After a successful set-up each counter file reports its own counter:
    [violations] reads [ima_htable.violations],
    [runtime_measurements_count] reads [ima_htable.len] and, with digest
    lists configured, [digests_count] reads [ima_digests_htable.len]. *)
Theorem counter_files_show_own_counter (fails : nat -> option Z)
    (cfg : bool) (st0 : statics) (fs0 : securityfs) (buf count ppos : Z) :
  fst (fst (ima_fs_init fails cfg st0 fs0)) = 0 ->
  let st := snd (fst (ima_fs_init fails cfg st0 fs0)) in
  let reading (c : counter) :=
    Call (atomic_long_read c) (fun v =>
      Call (scnprintf_li 32 v) (fun r =>
        Call (simple_read_from_buffer buf count ppos (fst r) (snd r)) Ret)) in
  ima_show_htable_value cfg st (dent st violations) buf count ppos
    = reading ima_htable_violations
  /\ ima_show_htable_value cfg st (dent st runtime_measurements_count)
       buf count ppos
     = reading ima_htable_len
  /\ (cfg = true ->
      ima_show_htable_value cfg st (dent st digests_count) buf count ppos
      = reading ima_digests_htable_len).
Proof.
  open_init. run_init_eqn.
  all: try (destruct cfg; step_ima; run_init_eqn).
  all: unfold ima_fs_init_out; cbn [fst]; intros Hrc; try discriminate Hrc.
  all: cbv zeta; unfold ima_show_htable_value; step_ima; cbn [andb].
  all: repeat split; try (intros Hc; try discriminate Hc);
    distinct_dentries; reflexivity.
Qed.

(** X19. After the set-up, however it ended, a live file that carries the
    upload file operations is the policy file or, with digest lists
    configured, one of the two digest-list files. So a write to an
    installed upload file never ends in "Unknown data type", and its
    busy flag is never the catch-all [IMA_FS_BUSY]. *)
Theorem upload_files_known (fails : nat -> option Z) (cfg : bool)
    (k : kconsts) (st0 : statics) (fs0 : securityfs) (d : nat)
    (buf datalen ppos : Z) :
  no_upload_files fs0 = true ->
  files (snd (ima_fs_init fails cfg st0 fs0)) !! d
    = Some (Some ima_data_upload_ops) ->
  let st := snd (fst (ima_fs_init fails cfg st0 fs0)) in
  (Dentry d = dent st ima_policy
   \/ (cfg = true
       /\ (Dentry d = dent st digest_list_data
           \/ Dentry d = dent st digest_list_data_del)))
  /\ ima_get_dentry_flag st (Dentry d) <> IMA_FS_BUSY
  /\ on_every_path (ima_write_data k st (Dentry d) buf datalen ppos)
       (fun t _ => ~ In "Unknown data type"%string (omap error_message t)).
Proof.
  intros Hno Hd st.
  assert (Hsel : Dentry d = dent st ima_policy
                 \/ (cfg = true
                     /\ (Dentry d = dent st digest_list_data
                         \/ Dentry d = dent st digest_list_data_del))).
  { subst st. revert Hd. apply bool_decide_eq_true_1 in Hno.
    open_init. run_init_eqn.
    all: try (destruct cfg; step_ima; run_init_eqn).
    all: intros Hd.
    all: try (apply ImaProofs.out_lookup in Hd; destruct Hd as [Hd Hg];
              step_ima).
    all: cbn [files] in Hd; lookup_cases Hd; try discriminate Hd.
    all: try (exfalso; exact (Hno _ _ Hd eq_refl)).
    all: try (referenced Hg).
    all: auto. }
  split; [exact Hsel|]. split.
  - unfold ima_get_dentry_flag.
    destruct (decide (Dentry d = dent st ima_policy)); [discriminate|].
    destruct Hsel as [? | [_ [E | E]]]; [contradiction | |];
      rewrite (bool_decide_eq_true_2 _ E); rewrite ?orb_true_r; discriminate.
  - unfold ima_write_data, ima_write_data_out_free.
    walk; rewrite WriteProofs.write_out_ret; cbn;
      try (intros []; fail); try (intros [E | []]; discriminate E).
    exfalso. destruct Hsel as [? | [_ [? | ?]]]; contradiction.
Qed.

Lemma init_failure_removes_files_witness :
  let fails := fun n : nat => if Nat.eqb n 8 then Some (-12) else None in
  let fs0 := {| files := {[ 0%nat := Some ima_measurements_ops ]};
                created := 1 |} in
  fst (fst (ima_fs_init fails true boot fs0)) <> 0
  /\ files (snd (ima_fs_init fails true boot fs0)) !! 0%nat
     = Some (Some ima_measurements_ops)
  /\ files fs0 !! 0%nat = Some (Some ima_measurements_ops)
  /\ files (snd (ima_fs_init fails true boot fs0)) = files fs0.
Proof.
  intros fails fs0.
  assert (Hrc : fst (fst (ima_fs_init fails true boot fs0)) <> 0)
    by (vm_compute; discriminate).
  assert (Hd : files (snd (ima_fs_init fails true boot fs0)) !! 0%nat
               = Some (Some ima_measurements_ops))
    by (vm_compute; reflexivity).
  split; [exact Hrc|]. split; [exact Hd|].
  split; [|vm_compute; reflexivity].
  exact (init_failure_removes_files fails true boot fs0 0
           ima_measurements_ops Hrc Hd).
Defined.

Lemma counter_files_show_own_counter_witness :
  fst (fst (ima_fs_init (fun _ => None) true boot empty_securityfs)) = 0
  /\ ima_show_htable_value true mounted (dent mounted digests_count) 0 64 0
     = Call (atomic_long_read ima_digests_htable_len) (fun v =>
         Call (scnprintf_li 32 v) (fun r =>
           Call (simple_read_from_buffer 0 64 0 (fst r) (snd r)) Ret)).
Proof.
  assert (Hrc : fst (fst (ima_fs_init (fun _ => None) true boot
                            empty_securityfs)) = 0) by reflexivity.
  split; [exact Hrc|].
  exact (proj2 (proj2 (counter_files_show_own_counter (fun _ => None) true
                         boot empty_securityfs 0 64 0 Hrc)) eq_refl).
Defined.

Lemma upload_files_known_witness :
  no_upload_files empty_securityfs = true
  /\ files (snd (ima_fs_init (fun _ => None) true boot empty_securityfs))
       !! 9%nat = Some (Some ima_data_upload_ops)
  /\ ima_get_dentry_flag mounted (Dentry 9) <> IMA_FS_BUSY.
Proof.
  assert (Hno : no_upload_files empty_securityfs = true)
    by (vm_compute; reflexivity).
  assert (Hd : files (snd (ima_fs_init (fun _ => None) true boot
                             empty_securityfs)) !! 9%nat
               = Some (Some ima_data_upload_ops))
    by (vm_compute; reflexivity).
  split; [exact Hno|]. split; [exact Hd|].
  exact (proj1 (proj2 (upload_files_known (fun _ => None) true linux boot
                         empty_securityfs 9 0 64 0 Hno Hd))).
Defined.

End SetupProofs.

(** ** The iterator, composed *)

Module IterProofs.
Import Ima.

Section Iterator.

Variables (head later : Z) (mem : gmap Z list_head).

(** [ima_measurements_start] on a well-formed list. *)
Lemma start_spec (records : list Z) (fuel : nat) (p : Z) :
  measurement_list head later mem records = true ->
  (length records < fuel)%nat ->
  0 <= p < 2 ^ 63 ->
  ima_measurements_start head later fuel mem p
  = Done (pointer (records !! Z.to_nat p)).
Proof.
  intros Hlist Hfuel Hp. unfold measurement_list in Hlist.
  unfold ima_measurements_start.
  destruct (mem !! head) as [hd|]; [|discriminate].
  rewrite (ImaProofs.list_for_each_entry_spec head later mem records fuel
             (next hd) p Hlist Hfuel) by lia.
  unfold to_unsigned. rewrite Z.mod_small; [reflexivity|].
  change (2 ^ 63) with 9223372036854775808 in Hp.
  change (2 ^ 64) with 18446744073709551616. lia.
Qed.

(** [ima_measurements_next] from the record at position [i]. *)
Lemma next_spec (records : list Z) (i : nat) (qe pos : Z) :
  measurement_list head later mem records = true ->
  records !! i = Some qe ->
  - 2 ^ 63 <= pos < 2 ^ 63 - 1 ->
  ima_measurements_next head later mem qe pos
  = Done (pointer (records !! S i), pos + 1).
Proof.
  intros Hlist Hi Hpos. unfold measurement_list in Hlist.
  destruct (mem !! head) as [hd|]; [|discriminate].
  destruct (ImaProofs.linked_lookup head later mem records (next hd) i qe
              Hlist Hi) as (_ & lh & Hm & Hnext).
  unfold ima_measurements_next. rewrite Hm.
  rewrite to_signed_small by (change (2 ^ (64 - 1)) with (2 ^ 63); lia).
  f_equal. f_equal.
  destruct (records !! S i) as [qe'|].
  - destruct Hnext as [-> Hh]. rewrite ImaProofs.list_entry_later_of.
    rewrite (proj2 (Z.eqb_neq _ _) Hh). reflexivity.
  - rewrite Hnext, ImaProofs.later_of_list_entry, Z.eqb_refl. reflexivity.
Qed.

(** X20. Stepping and restarting agree: [next] applied to what [start]
    returned at position [p] gives the record, and the position, that
    [start] gives at [p + 1]. A reader that is stopped and restarted at
    its saved position neither skips nor repeats a record. *)
Theorem next_agrees_with_start (records : list Z) (fuel : nat) (p qe : Z) :
  measurement_list head later mem records = true ->
  (length records < fuel)%nat ->
  Z.of_nat (length records) < 2 ^ 63 ->
  0 <= p < 2 ^ 63 ->
  ima_measurements_start head later fuel mem p = Done qe ->
  qe <> 0 ->
  exists v : Z,
    ima_measurements_next head later mem qe p = Done (v, p + 1)
    /\ ima_measurements_start head later fuel mem (p + 1) = Done v.
Proof.
  intros Hlist Hfuel Hlen Hp Hstart Hqe.
  assert (Hin : p < Z.of_nat (length records)).
  { destruct (Z_lt_le_dec p (Z.of_nat (length records))) as [? | Hge];
      [assumption|].
    rewrite (start_spec records fuel p Hlist Hfuel) in Hstart by lia.
    rewrite (proj2 (lookup_ge_None records (Z.to_nat p))) in Hstart by lia.
    cbn in Hstart. congruence. }
  rewrite (start_spec records fuel p Hlist Hfuel) in Hstart by lia.
  destruct (records !! Z.to_nat p) as [r|] eqn:Hr; cbn in Hstart;
    [|congruence].
  injection Hstart as ->.
  exists (pointer (records !! S (Z.to_nat p))). split.
  - apply (next_spec records (Z.to_nat p) qe p Hlist Hr). lia.
  - rewrite (start_spec records fuel (p + 1) Hlist Hfuel) by lia.
    replace (Z.to_nat (p + 1)) with (S (Z.to_nat p)) by lia. reflexivity.
Qed.

(** The walk stops where the countdown ends. *)
Lemma list_for_each_entry_stops (records : list Z) :
  forall (fuel : nat) (from l : Z),
    linked head later mem from records = true ->
    0 <= l < 2 ^ 63 ->
    (Z.to_nat l < fuel)%nat ->
    list_for_each_entry head later fuel mem (list_entry later from) l
    = Done (pointer (records !! Z.to_nat l)).
Proof.
  induction records as [| qe rest IH]; intros fuel from l Hl Hrange Hfuel.
  - cbn [linked] in Hl. apply Z.eqb_eq in Hl. subst from.
    destruct fuel as [| fuel]; [lia|].
    cbn [list_for_each_entry].
    rewrite ImaProofs.later_of_list_entry, Z.eqb_refl. reflexivity.
  - apply (ImaProofs.linked_cons head later mem) in Hl.
    destruct Hl as (-> & Hqe & Hhead & lh & Hm & Hl).
    destruct fuel as [| fuel]; [lia|].
    cbn [list_for_each_entry]. rewrite ImaProofs.list_entry_later_of.
    rewrite (proj2 (Z.eqb_neq _ _) Hhead).
    destruct (Z.eqb_spec l 0) as [-> | Hz]; [reflexivity|].
    rewrite Hm.
    rewrite to_signed_small by (change (2 ^ (64 - 1)) with (2 ^ 63); lia).
    rewrite (IH fuel (next lh) (l - 1) Hl) by lia.
    replace (Z.to_nat l) with (S (Z.to_nat (l - 1))) by lia. reflexivity.
Qed.

(** [ima_measurements_start] with [p + 1] steps of fuel. *)
Lemma start_within (records : list Z) (fuel : nat) (p : Z) :
  measurement_list head later mem records = true ->
  0 <= p < 2 ^ 63 ->
  (Z.to_nat p < fuel)%nat ->
  ima_measurements_start head later fuel mem p
  = Done (pointer (records !! Z.to_nat p)).
Proof.
  intros Hlist Hp Hfuel. unfold measurement_list in Hlist.
  unfold ima_measurements_start.
  destruct (mem !! head) as [hd|]; [|discriminate].
  exact (list_for_each_entry_stops records fuel (next hd) p Hlist Hp Hfuel).
Qed.

(** [ima_measurements_start] at position [p] never walks past position
    [p]: [p + 1] steps are enough however long the list is. *)
Theorem start_stops_at_position (records : list Z) (fuel : nat) (p : Z) :
  measurement_list head later mem records = true ->
  0 <= p < 2 ^ 63 ->
  (Z.to_nat p < fuel)%nat ->
  ima_measurements_start head later fuel mem p
  = Done (pointer (records !! Z.to_nat p)).
Proof. exact (start_within records fuel p). Qed.

End Iterator.

(** X21. Records appended later do not move the earlier ones: if the list
    held [records] and now holds [records ++ more], reading at a
    position inside [records] returns the same record as before. *)
Theorem appended_records_keep_positions (head later : Z)
    (mem mem' : gmap Z list_head) (records more : list Z) (fuel : nat)
    (p : Z) :
  measurement_list head later mem records = true ->
  measurement_list head later mem' (records ++ more) = true ->
  0 <= p < Z.of_nat (length records) ->
  p < 2 ^ 63 ->
  (Z.to_nat p < fuel)%nat ->
  ima_measurements_start head later fuel mem' p
  = ima_measurements_start head later fuel mem p
  /\ exists qe : Z,
       ima_measurements_start head later fuel mem p = Done qe /\ qe <> 0.
Proof.
  intros Hlist Hlist' Hp Hbig Hfuel.
  rewrite (start_within head later mem records fuel p Hlist)
    by lia.
  destruct (lookup_lt_is_Some_2 records (Z.to_nat p) ltac:(lia)) as [qe Hqe].
  split.
  - unfold ima_measurements_start, measurement_list in *.
    destruct (mem' !! head) as [hd'|]; [|discriminate].
    rewrite (list_for_each_entry_stops head later mem' (records ++ more)
               fuel (next hd') p Hlist') by lia.
    rewrite lookup_app_l by lia. reflexivity.
  - exists qe. rewrite Hqe. split; [reflexivity|].
    unfold measurement_list in Hlist.
    destruct (mem !! head) as [hd|]; [|discriminate].
    exact (proj1 (ImaProofs.linked_lookup head later mem records (next hd)
                    (Z.to_nat p) qe Hlist Hqe)).
Qed.

Lemma next_agrees_with_start_witness :
  let mem : gmap Z list_head :=
    {[ 1000 := {| next := 4112; prev := 12304 |};
       4112 := {| next := 8208; prev := 1000 |};
       8208 := {| next := 12304; prev := 4112 |};
       12304 := {| next := 1000; prev := 8208 |} ]} in
  ima_measurements_start 1000 16 4 mem 1 = Done 8192
  /\ exists v : Z,
       ima_measurements_next 1000 16 mem 8192 1 = Done (v, 2)
       /\ ima_measurements_start 1000 16 4 mem 2 = Done v.
Proof.
  intros mem.
  assert (Hs : ima_measurements_start 1000 16 4 mem 1 = Done 8192)
    by (vm_compute; reflexivity).
  split; [exact Hs|].
  exact (next_agrees_with_start 1000 16 mem [4096; 8192; 12288] 4 1 8192
           ltac:(vm_compute; reflexivity) ltac:(cbn; lia) ltac:(cbn; lia)
           ltac:(lia) Hs ltac:(lia)).
Defined.

Lemma start_stops_at_position_witness :
  let mem : gmap Z list_head :=
    {[ 1000 := {| next := 4112; prev := 12304 |};
       4112 := {| next := 8208; prev := 1000 |};
       8208 := {| next := 12304; prev := 4112 |};
       12304 := {| next := 1000; prev := 8208 |} ]} in
  ima_measurements_start 1000 16 2 mem 1
  = Done (pointer ([4096; 8192; 12288] !! Z.to_nat 1)).
Proof.
  intros mem.
  exact (start_stops_at_position 1000 16 mem [4096; 8192; 12288] 2 1
           ltac:(vm_compute; reflexivity) ltac:(lia) ltac:(cbn; lia)).
Defined.

Lemma appended_records_keep_positions_witness :
  let mem : gmap Z list_head :=
    {[ 1000 := {| next := 4112; prev := 8208 |};
       4112 := {| next := 8208; prev := 1000 |};
       8208 := {| next := 1000; prev := 4112 |} ]} in
  let mem' : gmap Z list_head :=
    {[ 1000 := {| next := 4112; prev := 12304 |};
       4112 := {| next := 8208; prev := 1000 |};
       8208 := {| next := 12304; prev := 4112 |};
       12304 := {| next := 1000; prev := 8208 |} ]} in
  ima_measurements_start 1000 16 4 mem' 1
  = ima_measurements_start 1000 16 4 mem 1
  /\ exists qe : Z,
       ima_measurements_start 1000 16 4 mem 1 = Done qe /\ qe <> 0.
Proof.
  intros mem mem'.
  exact (appended_records_keep_positions 1000 16 mem mem' [4096; 8192]
           [12288] 4 1
           ltac:(vm_compute; reflexivity) ltac:(vm_compute; reflexivity)
           ltac:(cbn; lia) ltac:(lia) ltac:(cbn; lia)).
Defined.

End IterProofs.

(** ** The information functions of the base extension *)

Module BaseProofs.
Import Sbi Base.

Lemma to_unsigned_range (w v : Z) : 0 <= w -> 0 <= to_unsigned w v < 2 ^ w.
Proof.
  intros Hw. unfold to_unsigned. apply Z.mod_pos_bound.
  apply Z.pow_pos_nonneg; lia.
Qed.

Lemma lor_range (w a b : Z) :
  0 <= w -> 0 <= a < 2 ^ w -> 0 <= b < 2 ^ w -> 0 <= Z.lor a b < 2 ^ w.
Proof.
  intros Hw Ha Hb. split; [apply Z.lor_nonneg; lia|].
  destruct (Z.eq_dec (Z.lor a b) 0) as [-> | Hnz];
    [apply Z.pow_pos_nonneg; lia|].
  assert (Hpos : 0 < Z.lor a b)
    by (pose proof (proj2 (Z.lor_nonneg a b) (conj (proj1 Ha) (proj1 Hb)));
        lia).
  assert (Hw' : 0 < w).
  { destruct (Z.eq_dec w 0) as [-> | ?]; [|lia].
    exfalso. apply Hnz. replace a with 0 by lia. replace b with 0 by lia.
    reflexivity. }
  apply Z.log2_lt_pow2; [exact Hpos|].
  rewrite Z.log2_lor by lia.
  apply Z.max_lub_lt.
  - destruct (Z.eq_dec a 0) as [-> | ?]; [cbn; lia|].
    apply Z.log2_lt_pow2; lia.
  - destruct (Z.eq_dec b 0) as [-> | ?]; [cbn; lia|].
    apply Z.log2_lt_pow2; lia.
Qed.

Lemma land_le (a b : Z) : 0 <= b -> Z.land a b <= b.
Proof.
  intros Hb.
  assert (E : Z.ldiff (Z.land a b) b = 0).
  { apply Z.bits_inj'. intros n Hn.
    rewrite Z.ldiff_spec, Z.land_spec, Z.bits_0.
    destruct (Z.testbit a n), (Z.testbit b n); reflexivity. }
  pose proof (Z.sub_nocarry_ldiff b (Z.land a b) E) as Hsub.
  pose proof (proj2 (Z.ldiff_nonneg b (Z.land a b)) (or_introl Hb)).
  lia.
Qed.

(** X22. The six information functions never fail and make at most one
    call: a function that reports a constant makes none and reports a
    register-width value, a function that reports a CSR reads one CSR
    once and passes the value on unchanged. *)
Theorem info_functions_never_fail (pf : platform)
    (scratch extid funcid : Z) (args : list Z) (out_val : Z) :
  platform_ok pf = true ->
  funcid ∈ info_ids pf ->
  on_every_path
    (sbi_ecall_base_handler pf scratch extid funcid args out_val)
    (fun t r =>
       exists o : Z,
         r = Some (0, o)
         /\ ((t = [] /\ 0 <= o < 2 ^ XLEN pf)
             \/ exists c : csr, t = [answered (csr_read c) o])).
Proof.
  intros Hok Hin.
  assert (Hw : 0 <= XLEN pf).
  { pose proof (SbiProofs.platform_ok_xlen pf Hok). lia. }
  unfold info_ids in Hin. unfold sbi_ecall_base_handler.
  repeat match goal with
  | |- context [funcid =? ?c] =>
      destruct (Z.eqb_spec funcid c);
      [ cbn [on_every_path bind call]; intros;
        eexists; (split; [reflexivity|]);
        first [ left; split; [reflexivity|];
                first [ apply to_unsigned_range; exact Hw
                      | apply lor_range;
                        [exact Hw | apply to_unsigned_range; exact Hw ..] ]
              | right; eexists; reflexivity ] | ]
  end.
  exfalso.
  repeat match goal with
  | H : _ ∈ (_ :: _) |- _ => apply elem_of_cons in H; destruct H as [? | H]
  | H : _ ∈ [] |- _ => apply elem_of_nil in H; contradiction
  end; congruence.
Qed.

Lemma info_functions_never_fail_witness :
  on_every_path
    (sbi_ecall_base_handler rv64 0 16 5 [0; 0; 0; 0; 0; 0] 7)
    (fun t r =>
       exists o : Z,
         r = Some (0, o)
         /\ ((t = [] /\ 0 <= o < 2 ^ XLEN rv64)
             \/ exists c : csr, t = [answered (csr_read c) o])).
Proof.
  apply (info_functions_never_fail rv64 0 16 5 [0; 0; 0; 0; 0; 0] 7).
  - vm_compute; reflexivity.
  - unfold info_ids. cbn. set_solver.
Defined.

(** X23. The word reported for [SBI_EXT_BASE_GET_SPEC_VERSION] decodes to
    the version it was built from: with a major number that fits the
    mask, a minor number below the offset and the shifted mask inside a
    register, the major and minor numbers read back from the word are
    [SBI_ECALL_VERSION_MAJOR] and [SBI_ECALL_VERSION_MINOR]. *)
Theorem spec_version_decodes (pf : platform) (scratch extid : Z)
    (args : list Z) (out_val : Z) :
  0 <= SBI_SPEC_VERSION_MAJOR_OFFSET pf <= XLEN pf ->
  0 <= SBI_ECALL_VERSION_MAJOR pf ->
  0 <= SBI_SPEC_VERSION_MAJOR_MASK pf ->
  Z.land (SBI_ECALL_VERSION_MAJOR pf) (SBI_SPEC_VERSION_MAJOR_MASK pf)
  = SBI_ECALL_VERSION_MAJOR pf ->
  0 <= SBI_ECALL_VERSION_MINOR pf < 2 ^ SBI_SPEC_VERSION_MAJOR_OFFSET pf ->
  Z.shiftl (SBI_SPEC_VERSION_MAJOR_MASK pf)
           (SBI_SPEC_VERSION_MAJOR_OFFSET pf) < 2 ^ XLEN pf ->
  exists v : Z,
    sbi_ecall_base_handler pf scratch extid
      (SBI_EXT_BASE_GET_SPEC_VERSION pf) args out_val = Ret (0, v)
    /\ major_of pf v = SBI_ECALL_VERSION_MAJOR pf
    /\ minor_of pf v = SBI_ECALL_VERSION_MINOR pf.
Proof.
  intros Hoff Hmajor Hmask Hfits Hminor Hreg.
  unfold sbi_ecall_base_handler. rewrite Z.eqb_refl.
  eexists. split; [reflexivity|].
  set (off := SBI_SPEC_VERSION_MAJOR_OFFSET pf) in *.
  set (major := SBI_ECALL_VERSION_MAJOR pf) in *.
  set (minor := SBI_ECALL_VERSION_MINOR pf) in *.
  set (mask := SBI_SPEC_VERSION_MAJOR_MASK pf) in *.
  assert (Hpow : 2 ^ off <= 2 ^ XLEN pf)
    by (apply Z.pow_le_mono_r; lia).
  rewrite <- Z.shiftl_land, Hfits.
  assert (Hle : major <= mask).
  { pose proof (land_le major mask Hmask) as Hl. rewrite Hfits in Hl.
    exact Hl. }
  unfold to_unsigned.
  rewrite (Z.mod_small (Z.shiftl major off)).
  2:{ split; [apply Z.shiftl_nonneg; lia|].
      eapply Z.le_lt_trans; [|exact Hreg].
      rewrite !Z.shiftl_mul_pow2 by lia.
      apply Z.mul_le_mono_nonneg_r; [apply Z.pow_nonneg; lia | exact Hle]. }
  rewrite (Z.mod_small minor) by lia.
  unfold major_of, minor_of. fold off mask.
  split.
  - rewrite Z.shiftr_lor, Z.shiftr_shiftl_l, Z.sub_diag, Z.shiftl_0_r by lia.
    rewrite (Z.shiftr_div_pow2 minor) by lia.
    rewrite Z.div_small by lia.
    rewrite Z.lor_0_r. exact Hfits.
  - rewrite Z.land_lor_distr_l, !Z.land_ones by lia.
    rewrite Z.shiftl_mul_pow2 by lia.
    rewrite Z.mod_mul by (apply Z.pow_nonzero; lia).
    rewrite Z.mod_small by lia. reflexivity.
Qed.

Lemma spec_version_decodes_witness :
  exists v : Z,
    sbi_ecall_base_handler rv64 0 16 0 [0; 0; 0; 0; 0; 0] 7 = Ret (0, v)
    /\ major_of rv64 v = 0 /\ minor_of rv64 v = 2.
Proof.
  apply (spec_version_decodes rv64 0 16 [0; 0; 0; 0; 0; 0] 7);
    cbn; first [lia | reflexivity].
Defined.

End BaseProofs.

(** ** Showing a measurement record *)

Module ShowingProofs.
Import Showing.

Lemma to_int_small (v : Z) : 0 <= v < 2 ^ 31 -> to_int v = v.
Proof. intros H. unfold to_int. rewrite Z.mod_small; lia. Qed.

Lemma length_le32 (v : Z) : length (le32 v) = 4%nat.
Proof. reflexivity. Qed.

Lemma length_u32_bytes (big : bool) (v : Z) :
  length (u32_bytes big v) = 4%nat.
Proof. destruct big; reflexivity. Qed.

Lemma length_list_byte_of_string (s : string) :
  length (String.list_byte_of_string s) = String.length s.
Proof.
  unfold String.list_byte_of_string. rewrite length_map.
  induction s as [| c s IH]; cbn; [reflexivity | rewrite IH; reflexivity].
Qed.

Lemma byte_value (v : Z) :
  Z.of_N (Byte.to_N (byte_of v)) = v mod 256.
Proof.
  unfold byte_of.
  assert (Hr : 0 <= v mod 256 < 256) by (apply Z.mod_pos_bound; lia).
  destruct (Byte.of_N (Z.to_N (v mod 256))) as [b|] eqn:E.
  - apply Byte.to_of_N in E. unfold default; cbn [from_option id].
    rewrite E. lia.
  - exfalso.
    pose proof (Byte.to_of_N_option_map (Z.to_N (v mod 256))) as Hm.
    rewrite E in Hm. cbn in Hm.
    destruct (N.leb_spec (Z.to_N (v mod 256)) 255); [discriminate | lia].
Qed.

(** [le32] is the little-endian encoding: the value reads back. *)
Lemma le32_value_le32 (v : Z) :
  0 <= v < 2 ^ 32 -> le32_value (le32 v) = v.
Proof.
  intros Hv. unfold le32_value, le32. cbn [foldr].
  rewrite !byte_value.
  change (2 ^ 8) with 256. change (2 ^ 16) with 65536.
  change (2 ^ 24) with 16777216. change (2 ^ 32) with 4294967296 in Hv.
  pose proof (Z.div_mod v 256 ltac:(lia)).
  pose proof (Z.mod_pos_bound v 256 ltac:(lia)).
  pose proof (Z.div_mod (v / 256) 256 ltac:(lia)).
  pose proof (Z.mod_pos_bound (v / 256) 256 ltac:(lia)).
  pose proof (Z.div_mod (v / 256 / 256) 256 ltac:(lia)).
  pose proof (Z.mod_pos_bound (v / 256 / 256) 256 ltac:(lia)).
  replace (v / 65536) with (v / 256 / 256)
    by (rewrite Z.div_div by lia; reflexivity).
  replace (v / 16777216) with (v / 256 / 256 / 256)
    by (rewrite !Z.div_div by lia; reflexivity).
  assert (0 <= v / 256 / 256 / 256 < 256).
  { split; [repeat apply Z.div_pos; lia|].
    repeat (apply Z.div_lt_upper_bound; [lia|]). lia. }
  rewrite (Z.mod_small (v / 256 / 256 / 256)) by lia. lia.
Qed.

(** The loop of [ima_putc]. *)
Lemma ima_putc_loop_wp (n : nat) :
  forall (data : list byte)
         (post : list (step seqE) -> option unit -> Prop),
    (n <= length data)%nat ->
    (forall t, written t = map Char (take n data) -> post t (Some tt)) ->
    on_every_path (ima_putc_loop data n) post.
Proof.
  induction n as [| n IH]; intros data post Hn Hpost.
  - change (post [] (Some tt)). apply Hpost. reflexivity.
  - destruct data as [| c data]; [cbn in Hn; lia|].
    cbn [ima_putc_loop on_every_path bind call]. intros [].
    apply IH; [cbn in Hn; lia|].
    intros t Ht. apply Hpost. cbn. rewrite <- Ht. reflexivity.
Qed.

Lemma ima_putc_wp (data : list byte) (datalen : Z)
    (post : list (step seqE) -> option unit -> Prop) :
  0 <= datalen <= Z.of_nat (length data) ->
  (forall t, written t = map Char (take (Z.to_nat datalen) data) ->
             post t (Some tt)) ->
  on_every_path (ima_putc data datalen) post.
Proof.
  intros Hn Hpost. unfold ima_putc.
  rewrite (proj2 (Z.ltb_ge _ _)) by lia.
  apply ima_putc_loop_wp; [lia | exact Hpost].
Qed.

(** X24. [ima_putc] with a length inside the object writes exactly that many
    bytes, the first [datalen] of the object in order, and nothing
    else. *)
Theorem ima_putc_writes (data : list byte) (datalen : Z) :
  0 <= datalen <= Z.of_nat (length data) ->
  on_every_path (ima_putc data datalen)
    (fun t r =>
       r = Some tt
       /\ written t = map Char (take (Z.to_nat datalen) data)).
Proof.
  intros Hn. apply ima_putc_wp; [exact Hn|].
  intros t Ht. split; [reflexivity | exact Ht].
Qed.

Lemma ima_putc_writes_witness :
  on_every_path (ima_putc [x01; x02; x03] 2)
    (fun t r => r = Some tt /\ written t = [Char x01; Char x02]).
Proof.
  apply (ima_putc_writes [x01; x02; x03] 2). cbn. lia.
Defined.

(** A length beyond the object, or a negative one: every byte of the
    object is written, and then the read past its end is invalid. *)
Lemma ima_putc_overrun (data : list byte) (datalen : Z) :
  datalen < 0 \/ Z.of_nat (length data) < datalen ->
  on_every_path (ima_putc data datalen)
    (fun t r => r = None /\ written t = map Char data).
Proof.
  intros H.
  assert (Hloop :
    forall (l : list byte) (n : nat),
      (length l < n)%nat ->
      on_every_path (ima_putc_loop l n)
        (fun t r => r = None /\ written t = map Char l)).
  { induction l as [| c l IH]; intros n Hn.
    - destruct n; [cbn in Hn; lia | split; reflexivity].
    - destruct n; [lia|]. cbn [ima_putc_loop on_every_path bind call].
      intros []. eapply on_every_path_impl; [|apply (IH n); cbn in Hn; lia].
      cbn beta. intros t r [-> Ht]. split; [reflexivity|].
      cbn. unfold written in Ht. rewrite Ht. reflexivity. }
  unfold ima_putc.
  destruct (Z.ltb_spec datalen 0) as [? | Hge]; apply Hloop; lia.
Qed.

Section Platform.

Variables (big_endian : bool) (cpu_to_le32 : Z -> Z)
  (TPM_DIGEST_SIZE : Z) (IMA_TEMPLATE_IMA_NAME : string)
  (ima_canonical_fmt : bool).

(** The field loop of the binary format. *)
Lemma show_fields_wp (is_ima : bool) (e : ima_template_entry) (n : nat) :
  forall (i : nat) (post : list (step seqE) -> option unit -> Prop),
    length (template_data e) = length (fields (template_desc e)) ->
    (i + n <= length (fields (template_desc e)))%nat ->
    (forall t,
       written t
       = map (fun fd : ima_template_field * ima_field_data =>
                Field (field_show fd.1)
                  (if is_ima then legacy_show (field_id fd.1)
                   else IMA_SHOW_BINARY)
                  fd.2)
           (take n (drop i (zip (fields (template_desc e))
                                (template_data e)))) ->
       post t (Some tt)) ->
    on_every_path (show_fields is_ima e i n) post.
Proof.
  induction n as [| n IH]; intros i post Hlen Hn Hpost.
  - change (post [] (Some tt)). apply Hpost. reflexivity.
  - cbn [show_fields].
    destruct (lookup_lt_is_Some_2 (fields (template_desc e)) i ltac:(lia))
      as [field Hf].
    destruct (lookup_lt_is_Some_2 (template_data e) i ltac:(lia))
      as [d Hd].
    rewrite Hf, Hd. cbn [on_every_path bind call]. intros x.
    apply IH; [exact Hlen | lia |].
    intros t Ht. apply Hpost.
    assert (Hz : zip (fields (template_desc e)) (template_data e) !! i
                 = Some (field, d)).
    { apply lookup_zip_with_Some. exists field, d. auto. }
    rewrite (drop_S _ _ _ Hz). cbn [take map written fst snd].
    unfold written in Ht. rewrite Ht. f_equal.
    unfold item_of, answered; cbn [projT2]. f_equal.
    unfold legacy_show. destruct is_ima; cbn [andb]; [|reflexivity].
    destruct (String.eqb_spec (field_id field) "d") as [E | ?].
    + rewrite E. reflexivity.
    + reflexivity.
Qed.

(** X25. One record in the binary format. For a well-formed entry whose
    digest array holds [TPM_DIGEST_SIZE] bytes the function returns 0
    and writes, in this order: the PCR as 4 bytes, [TPM_DIGEST_SIZE]
    digest bytes, the length of the template name as 4 bytes, the name
    without its NUL, the template data length as 4 bytes unless the
    template is "ima", and then every field once through its own
    [field_show], in the "ima" template with the legacy show types and
    otherwise with [IMA_SHOW_BINARY]. With [ima_canonical_fmt] the three
    4-byte words are little-endian whatever the CPU's byte order,
    provided [cpu_to_le32] does what its name says; without it they are
    in the CPU's byte order. *)
Theorem binary_record_layout (e : ima_template_entry) :
  well_formed e ->
  0 <= TPM_DIGEST_SIZE <= Z.of_nat (length (digest e)) ->
  TPM_DIGEST_SIZE < 2 ^ 31 ->
  strlen (template_name_of (template_desc e)) < 2 ^ 31 ->
  (forall v, 0 <= v < 2 ^ 32 ->
             u32_bytes big_endian (cpu_to_le32 v) = le32 v) ->
  let template_name := template_name_of (template_desc e) in
  let is_ima := String.eqb template_name IMA_TEMPLATE_IMA_NAME in
  let word (v : Z) :=
    if ima_canonical_fmt then le32 (to_unsigned 32 v)
    else u32_bytes big_endian (to_unsigned 32 v) in
  on_every_path
    (ima_measurements_show big_endian cpu_to_le32 TPM_DIGEST_SIZE
       IMA_TEMPLATE_IMA_NAME ima_canonical_fmt (Some e))
    (fun t r =>
       r = Some 0
       /\ written t
          = map Char
              (word (pcr e)
               ++ take (Z.to_nat TPM_DIGEST_SIZE) (digest e)
               ++ word (strlen template_name)
               ++ String.list_byte_of_string template_name
               ++ (if is_ima then [] else word (template_data_len e)))
            ++ map (fun fd : ima_template_field * ima_field_data =>
                      Field (field_show fd.1)
                        (if is_ima then legacy_show (field_id fd.1)
                         else IMA_SHOW_BINARY)
                        fd.2)
                (zip (fields (template_desc e)) (template_data e))).
Proof.
  intros [Hnum Hlen] Hdigest Htpm Hname Hle template_name is_ima word.
  assert (Hword : forall v,
            u32_bytes big_endian
              (if negb ima_canonical_fmt then to_unsigned 32 v
               else cpu_to_le32 (to_unsigned 32 v))
            = word v).
  { intros v. unfold word. destruct ima_canonical_fmt; cbn [negb];
      [|reflexivity].
    apply Hle. unfold to_unsigned. apply Z.mod_pos_bound. lia. }
  assert (Hword4 : forall v, take 4 (word v) = word v).
  { intros v. apply take_ge. unfold word.
    destruct ima_canonical_fmt;
      [rewrite length_le32 | rewrite length_u32_bytes]; lia. }
  unfold ima_measurements_show. fold template_name. fold is_ima.
  rewrite !Hword.
  apply on_every_path_bind.
  apply ima_putc_wp;
    [unfold word; destruct ima_canonical_fmt;
       [rewrite length_le32 | rewrite length_u32_bytes]; lia|].
  intros t1 Ht1.
  apply on_every_path_bind.
  rewrite to_int_small by lia.
  apply ima_putc_wp; [lia|]. intros t2 Ht2.
  apply on_every_path_bind.
  apply ima_putc_wp;
    [unfold word; destruct ima_canonical_fmt;
       [rewrite length_le32 | rewrite length_u32_bytes]; lia|].
  intros t3 Ht3.
  apply on_every_path_bind.
  assert (Hs : 0 <= strlen template_name < 2 ^ 31)
    by (split; [unfold strlen; lia | exact Hname]).
  rewrite to_int_small by exact Hs.
  apply ima_putc_wp;
    [rewrite length_list_byte_of_string; unfold strlen; lia|].
  intros t4 Ht4.
  apply on_every_path_bind.
  assert (Hfive :
    forall post : list (step seqE) -> option unit -> Prop,
      (forall t,
         written t
         = map Char (if is_ima then [] else word (template_data_len e)) ->
         post t (Some tt)) ->
      on_every_path
        (if negb is_ima
         then ima_putc (word (template_data_len e)) 4
         else Ret tt) post).
  { intros post Hpost. destruct is_ima; cbn [negb].
    - cbn. apply Hpost. reflexivity.
    - apply ima_putc_wp;
        [unfold word; destruct ima_canonical_fmt;
           [rewrite length_le32 | rewrite length_u32_bytes]; lia|].
      intros t Ht. apply Hpost. rewrite Ht, Hword4. reflexivity. }
  apply Hfive. intros t5 Ht5.
  apply on_every_path_bind.
  apply show_fields_wp; [exact Hlen | lia |].
  intros t6 Ht6. cbn [on_every_path].
  split; [reflexivity|].
  unfold written in *. rewrite !map_app, Ht1, Ht2, Ht3, Ht4, Ht5, Ht6.
  change (Z.to_nat 4) with 4%nat. rewrite !Hword4.
  rewrite (take_ge (String.list_byte_of_string template_name))
    by (rewrite length_list_byte_of_string; unfold strlen; lia).
  rewrite drop_0.
  rewrite (take_ge (zip (fields (template_desc e)) (template_data e)))
    by (rewrite length_zip_with; lia).
  cbn [map]. rewrite app_nil_r, <- !app_assoc. reflexivity.
Qed.

(** The loop of [ima_print_digest]. *)
Lemma ima_print_digest_loop_wp (digest : list byte) (n : nat) :
  forall (i : nat) (post : list (step seqE) -> option unit -> Prop),
    (i + n <= length digest)%nat ->
    (forall t, written t = map hex (take n (drop i digest)) ->
               post t (Some tt)) ->
    on_every_path (ima_print_digest_loop digest i n) post.
Proof.
  induction n as [| n IH]; intros i post Hn Hpost.
  - change (post [] (Some tt)). apply Hpost. reflexivity.
  - cbn [ima_print_digest_loop].
    destruct (lookup_lt_is_Some_2 digest i ltac:(lia)) as [b Hb].
    rewrite Hb. cbn [on_every_path bind call]. intros [].
    apply IH; [lia|]. intros t Ht. apply Hpost.
    rewrite (drop_S _ _ _ Hb). cbn [take map written].
    unfold written in Ht. rewrite Ht. reflexivity.
Qed.

(** The field loop of the ASCII format. *)
Lemma ascii_fields_wp (e : ima_template_entry) (n : nat) :
  forall (i : nat) (post : list (step seqE) -> option unit -> Prop),
    length (template_data e) = length (fields (template_desc e)) ->
    (i + n <= length (fields (template_desc e)))%nat ->
    (forall t,
       written t
       = flat_map ascii_field
           (take n (drop i (zip (fields (template_desc e))
                                (template_data e)))) ->
       post t (Some tt)) ->
    on_every_path (ascii_fields e i n) post.
Proof.
  induction n as [| n IH]; intros i post Hlen Hn Hpost.
  - change (post [] (Some tt)). apply Hpost. reflexivity.
  - cbn [ascii_fields on_every_path bind call]. intros [].
    destruct (lookup_lt_is_Some_2 (fields (template_desc e)) i ltac:(lia))
      as [field Hf].
    destruct (lookup_lt_is_Some_2 (template_data e) i ltac:(lia))
      as [d Hd].
    assert (Hz : zip (fields (template_desc e)) (template_data e) !! i
                 = Some (field, d)).
    { apply lookup_zip_with_Some. exists field, d. auto. }
    rewrite Hd.
    destruct (len d =? 0) eqn:Hzero.
    + apply IH; [exact Hlen | lia |]. intros t Ht. apply Hpost.
      rewrite (drop_S _ _ _ Hz). cbn [take flat_map written map].
      unfold ascii_field at 1. cbn [fst snd]. rewrite Hzero.
      unfold written in Ht. rewrite Ht. reflexivity.
    + rewrite Hf. cbn [on_every_path bind call]. intros x.
      apply IH; [exact Hlen | lia |]. intros t Ht. apply Hpost.
      rewrite (drop_S _ _ _ Hz). cbn [take flat_map written map].
      unfold ascii_field at 1. cbn [fst snd]. rewrite Hzero.
      unfold written in Ht. rewrite Ht. reflexivity.
Qed.

(** X26. One record in the ASCII format is one line. For a well-formed entry
    whose digest array holds [TPM_DIGEST_SIZE] bytes the function
    returns 0 and writes, in this order: the PCR, two hexadecimal digits
    for each of the [TPM_DIGEST_SIZE] digest bytes, the template name,
    for every field a blank followed by the field shown as
    [IMA_SHOW_ASCII] (an empty field leaves only its blank), and a
    newline at the very end. *)
Theorem ascii_record_line (e : ima_template_entry) :
  well_formed e ->
  0 <= TPM_DIGEST_SIZE <= Z.of_nat (length (digest e)) ->
  TPM_DIGEST_SIZE < 2 ^ 32 ->
  on_every_path (ima_ascii_measurements_show TPM_DIGEST_SIZE (Some e))
    (fun t r =>
       r = Some 0
       /\ written t
          = Printf "%2d " (int_arg (pcr e))
            :: map hex (take (Z.to_nat TPM_DIGEST_SIZE) (digest e))
            ++ Printf " %s" (str_arg (template_name_of (template_desc e)))
            :: flat_map ascii_field
                 (zip (fields (template_desc e)) (template_data e))
            ++ [Text newline]).
Proof.
  intros [Hnum Hlen] Hdigest Htpm.
  unfold ima_ascii_measurements_show, ima_print_digest.
  cbn [on_every_path bind call]. intros [].
  apply on_every_path_bind.
  unfold to_unsigned. rewrite Z.mod_small by lia.
  apply ima_print_digest_loop_wp; [lia|]. intros t1 Ht1.
  cbn [on_every_path bind call]. intros [].
  apply on_every_path_bind.
  apply ascii_fields_wp; [exact Hlen | lia |]. intros t2 Ht2.
  cbn [on_every_path bind call]. intros [].
  split; [reflexivity|].
  unfold written in *. cbn [map app]. rewrite !map_app. cbn [map app].
  rewrite map_app, Ht1, Ht2. cbn [map].
  rewrite !drop_0.
  rewrite (take_ge (zip (fields (template_desc e)) (template_data e)))
    by (rewrite length_zip_with; lia).
  reflexivity.
Qed.

End Platform.

Lemma byte_of_value (b : byte) (k : Z) :
  byte_of (Z.of_N (Byte.to_N b) + 2 ^ 8 * k) = b.
Proof.
  unfold byte_of.
  pose proof (Byte.to_N_bounded b) as Hb.
  replace ((Z.of_N (Byte.to_N b) + 2 ^ 8 * k) mod 256)
    with (Z.of_N (Byte.to_N b)).
  - rewrite N2Z.id, Byte.of_to_N. reflexivity.
  - change (2 ^ 8) with 256.
    rewrite (Z.mul_comm 256 k), Z.mod_add by lia.
    rewrite Z.mod_small by lia. reflexivity.
Qed.

(** Four bytes are the little-endian encoding of their value. *)
Lemma le32_le32_value (b0 b1 b2 b3 : byte) :
  le32 (le32_value [b0; b1; b2; b3]) = [b0; b1; b2; b3].
Proof.
  unfold le32, le32_value. cbn [foldr].
  set (v3 := Z.of_N (Byte.to_N b3) + 2 ^ 8 * 0).
  set (v2 := Z.of_N (Byte.to_N b2) + 2 ^ 8 * v3).
  set (v1 := Z.of_N (Byte.to_N b1) + 2 ^ 8 * v2).
  pose proof (Byte.to_N_bounded b0). pose proof (Byte.to_N_bounded b1).
  pose proof (Byte.to_N_bounded b2). pose proof (Byte.to_N_bounded b3).
  assert (E1 : (Z.of_N (Byte.to_N b0) + 2 ^ 8 * v1) / 2 ^ 8 = v1).
  { rewrite Z.add_comm, Z.mul_comm, Z.div_add_l by lia.
    rewrite Z.div_small by lia. lia. }
  assert (E2 : (Z.of_N (Byte.to_N b0) + 2 ^ 8 * v1) / 2 ^ 16 = v2).
  { change (2 ^ 16) with (2 ^ 8 * 2 ^ 8). rewrite <- Z.div_div by lia.
    rewrite E1. unfold v1.
    rewrite Z.add_comm, Z.mul_comm, Z.div_add_l by lia.
    rewrite Z.div_small by lia. lia. }
  assert (E3 : (Z.of_N (Byte.to_N b0) + 2 ^ 8 * v1) / 2 ^ 24 = v3).
  { change (2 ^ 24) with (2 ^ 16 * 2 ^ 8). rewrite <- Z.div_div by lia.
    rewrite E2. unfold v2.
    rewrite Z.add_comm, Z.mul_comm, Z.div_add_l by lia.
    rewrite Z.div_small by lia. lia. }
  rewrite E1, E2, E3. unfold v1, v2, v3.
  rewrite !byte_of_value. reflexivity.
Qed.

(** On a big-endian CPU the byte swap meets the contract of
    [cpu_to_le32]. *)
Lemma swab32_little_endian (v : Z) :
  u32_bytes true (swab32 v) = le32 v.
Proof.
  unfold u32_bytes, swab32.
  change (rev (le32 v))
    with [byte_of (v / 2 ^ 24); byte_of (v / 2 ^ 16); byte_of (v / 2 ^ 8);
          byte_of v].
  rewrite le32_le32_value. reflexivity.
Qed.

Lemma binary_record_layout_witness :
  let shown (big_endian : bool) (cpu_to_le32 : Z -> Z) :=
    on_every_path
      (ima_measurements_show big_endian cpu_to_le32 20 "ima" true
         (Some sample_entry))
      (fun t r =>
         r = Some 0
         /\ written t
            = map Char
                (le32 10 ++ repeat xaa 20 ++ le32 6
                 ++ String.list_byte_of_string "ima-ng" ++ le32 50)
              ++ [ Field 4096 IMA_SHOW_BINARY {| data := 65536; len := 40 |};
                   Field 8192 IMA_SHOW_BINARY {| data := 65600; len := 0 |}
                 ]) in
  shown false (fun v => v) /\ shown true swab32.
Proof.
  intros shown. split.
  - exact (binary_record_layout false (fun v => v) 20 "ima" true sample_entry
             ltac:(split; reflexivity) ltac:(cbn; lia) ltac:(lia)
             ltac:(vm_compute; reflexivity)
             ltac:(intros v _; reflexivity)).
  - exact (binary_record_layout true swab32 20 "ima" true sample_entry
             ltac:(split; reflexivity) ltac:(cbn; lia) ltac:(lia)
             ltac:(vm_compute; reflexivity)
             ltac:(intros v _; apply swab32_little_endian)).
Defined.

Lemma ascii_record_line_witness :
  on_every_path (ima_ascii_measurements_show 20 (Some sample_entry))
    (fun t r =>
       r = Some 0
       /\ written t
          = Printf "%2d " (int_arg 10)
            :: repeat (Printf "%02x" (int_arg 170)) 20
            ++ [ Printf " %s" (str_arg "ima-ng");
                 Text " ";
                 Field 4096 IMA_SHOW_ASCII {| data := 65536; len := 40 |};
                 Text " ";
                 Text newline ]).
Proof.
  exact (ascii_record_line 20 sample_entry
           ltac:(split; reflexivity) ltac:(cbn; lia) ltac:(lia)).
Defined.

(** A queue entry without a template entry is not shown: both formats
    return -1 and write nothing. *)
Example null_entry_not_shown (big : bool) (cpu_to_le32 : Z -> Z)
    (size : Z) (ima_name : string) (canonical : bool) :
  ima_measurements_show big cpu_to_le32 size ima_name canonical None
  = Ret (-1)
  /\ ima_ascii_measurements_show size None = Ret (-1).
Proof. split; reflexivity. Qed.

End ShowingProofs.

(** ** Loading a policy or a digest list by path *)

Module ReadProofs.
Import Ima ReadFile.

Section Configured.

Variables (k : kconsts) (O_RDONLY : Z) (BITS_PER_LONG : Z).

(** The loop opens, reads, puts and frees nothing, and leaves with a
    non-negative [rc] only if every parser call succeeded. *)
Lemma read_loop_quiet (fuel : nat) :
  forall (st : statics) (dentry : dentry_ptr) (file : Z) (data : list byte)
         (datap : option (list byte)) (size rc : Z) (op : digest_list_op),
    on_every_path
      (read_loop BITS_PER_LONG fuel st dentry file data datap size rc op)
      (fun t r =>
         omap putting t = [] /\ omap opening t = []
         /\ omap freeing t = [] /\ omap receiving t = []
         /\ forall size' rc' : Z,
              r = Some (Some (size', rc')) -> 0 <= rc' ->
              Forall (fun a => 0 <= a) (omap parse_result t)).
Proof.
  induction fuel as [| fuel IH]; intros st dentry file data datap size rc op.
  - cbn. repeat split. intros ? ? [=].
  - cbn [read_loop].
    destruct (negb (size >? 0)); [cbn; repeat split; constructor|].
    destruct (decide (dentry = dent st ima_policy)).
    + destruct datap as [s|]; [|cbn; repeat split; constructor].
      destruct (strsep s) as [[p datap]|]; [|cbn; repeat split; intros ? ? [=]].
      cbn [on_every_path bind call]. intros [] r.
      destruct (to_int r <? 0) eqn:Hrc.
      * cbn. repeat split. intros size' rc' [= <- <-] Hge.
        apply Z.ltb_lt in Hrc. lia.
      * eapply on_every_path_impl; [|apply IH].
        cbn. intros t res (Hp & Ho & Hf & Hr & Hall).
        repeat split; try assumption.
        intros size' rc' E Hge. constructor.
        -- apply Z.ltb_ge in Hrc. exact Hrc.
        -- exact (Hall size' rc' E Hge).
    + destruct (bool_decide (dentry = dent st digest_list_data)
                || bool_decide (dentry = dent st digest_list_data_del)).
      * cbn [on_every_path bind call]. intros [] r.
        destruct (r <? 0) eqn:Hrc.
        -- cbn. repeat split. intros size' rc' [= <- <-] Hge.
           apply Z.ltb_lt in Hrc. lia.
        -- eapply on_every_path_impl; [|apply IH].
           cbn. intros t res (Hp & Ho & Hf & Hr & Hall).
           repeat split; try assumption.
           intros size' rc' E Hge. constructor.
           ++ apply Z.ltb_ge in Hrc. exact Hrc.
           ++ exact (Hall size' rc' E Hge).
      * destruct (rc <? 0); [cbn; repeat split; constructor|].
        apply IH.
Qed.

(** X27. Whenever [ima_read_file] returns, it has put the file it opened and
    freed the buffer it was given, each exactly once, and has put or
    freed nothing else; every error path returns a negative value, and a
    non-negative result is the length of the path as it was passed in,
    returned only if the file was opened and read and every parser call
    succeeded. *)
Theorem read_file_outcome (fuel : nat) (st : statics) (path : list byte)
    (dentry : dentry_ptr) :
  kconsts_ok k = true ->
  on_every_path
    (ima_read_file k O_RDONLY BITS_PER_LONG fuel st path dentry)
    (fun t r =>
       forall v : Z,
         r = Some (Some v) ->
         omap putting t = omap opening t
         /\ omap freeing t = omap receiving t
         /\ (length (omap opening t) <= 1)%nat
         /\ (0 <= v ->
             (exists n : nat, strlen path = Some n /\ v = to_int (Z.of_nat n))
             /\ length (omap opening t) = 1%nat
             /\ length (omap receiving t) = 1%nat
             /\ Forall (fun a => 0 <= a) (omap parse_result t))).
Proof.
  intros Hk.
  assert (HE : 0 < EINVAL k).
  { unfold kconsts_ok in Hk. cbn [forallb] in Hk.
    apply andb_prop in Hk. destruct Hk as [Hk _].
    apply andb_prop in Hk. destruct Hk as [Hk _]. lia. }
  unfold ima_read_file.
  destruct (strlen path) as [n|]; [|cbn; intros ? [=]].
  destruct (strsep path) as [[name rest]|]; [|cbn; intros ? [=]].
  cbn [on_every_path bind call]. intros file.
  destruct (IS_ERR_file file) eqn:Herr.
  { cbn [on_every_path bind call]. intros [] v [= <-].
    cbn. rewrite Herr. cbn.
    repeat split; try lia.
    all: unfold IS_ERR_file in Herr; lia. }
  cbn [on_every_path bind call]. intros [rc [data bytes]].
  cbn [fst snd].
  destruct (rc <? 0) eqn:Hrc.
  { cbn [on_every_path bind call]. intros [] [] v [= <-].
    cbn. rewrite Herr, Hrc. cbn.
    repeat split; try lia.
    all: apply Z.ltb_lt in Hrc; lia. }
  apply on_every_path_bind.
  eapply on_every_path_impl; [|apply read_loop_quiet].
  cbn beta. intros t [[[size' rc']|]|] (Hp & Ho & Hf & Hr & Hall).
  - cbn [on_every_path bind call]. intros [] [].
    assert (Hshape :
      omap putting
        (answered (filp_open name O_RDONLY 0) file
         :: answered (kernel_read_file file 0 INT_MAX
              (if bool_decide (dentry = dent st digest_list_data)
                  || bool_decide (dentry = dent st digest_list_data_del)
               then READING_DIGEST_LIST else READING_POLICY))
              (rc, (data, bytes))
         :: t ++ [answered (vfree data) tt; answered (fput file) tt])
      = [file]
      /\ omap opening
           (answered (filp_open name O_RDONLY 0) file
            :: answered (kernel_read_file file 0 INT_MAX
                 (if bool_decide (dentry = dent st digest_list_data)
                     || bool_decide (dentry = dent st digest_list_data_del)
                  then READING_DIGEST_LIST else READING_POLICY))
                 (rc, (data, bytes))
            :: t ++ [answered (vfree data) tt; answered (fput file) tt])
         = [file]
      /\ omap freeing
           (answered (filp_open name O_RDONLY 0) file
            :: answered (kernel_read_file file 0 INT_MAX
                 (if bool_decide (dentry = dent st digest_list_data)
                     || bool_decide (dentry = dent st digest_list_data_del)
                  then READING_DIGEST_LIST else READING_POLICY))
                 (rc, (data, bytes))
            :: t ++ [answered (vfree data) tt; answered (fput file) tt])
         = [data]
      /\ omap receiving
           (answered (filp_open name O_RDONLY 0) file
            :: answered (kernel_read_file file 0 INT_MAX
                 (if bool_decide (dentry = dent st digest_list_data)
                     || bool_decide (dentry = dent st digest_list_data_del)
                  then READING_DIGEST_LIST else READING_POLICY))
                 (rc, (data, bytes))
            :: t ++ [answered (vfree data) tt; answered (fput file) tt])
         = [data]
      /\ omap parse_result
           (answered (filp_open name O_RDONLY 0) file
            :: answered (kernel_read_file file 0 INT_MAX
                 (if bool_decide (dentry = dent st digest_list_data)
                     || bool_decide (dentry = dent st digest_list_data_del)
                  then READING_DIGEST_LIST else READING_POLICY))
                 (rc, (data, bytes))
            :: t ++ [answered (vfree data) tt; answered (fput file) tt])
         = omap parse_result t).
    { cbn [omap list_omap putting opening freeing receiving parse_result
           answered projT2 fst snd].
      rewrite Herr, Hrc, !omap_app, Hp, Ho, Hf, Hr. cbn.
      rewrite app_nil_r. repeat split; reflexivity. }
    destruct Hshape as (Sp & So & Sf & Sr & Spr).
    destruct (rc' <? 0) eqn:Hrc'.
    + cbn [on_every_path]. intros v [= <-].
      cbn [app]. rewrite Sp, So, Sf, Sr.
      repeat split; try (cbn; lia).
      all: apply Z.ltb_lt in Hrc'; lia.
    + destruct (negb (size' =? 0)).
      * cbn [on_every_path]. intros v [= <-].
        cbn [app]. rewrite Sp, So, Sf, Sr.
        repeat split; try (cbn; lia).
      * cbn [on_every_path]. intros v [= <-].
        cbn [app]. rewrite Sp, So, Sf, Sr, Spr.
        repeat split; try (cbn; lia).
        -- exists n. split; reflexivity.
        -- apply (Hall size' rc' eq_refl). apply Z.ltb_ge in Hrc'. exact Hrc'.
  - cbn [on_every_path]. intros v [=].
  - intros v [=].
Qed.

(** What [strsep] returns is the first line, and what it leaves is the
    rest of the lines. *)
Lemma strsep_lines (s : list byte) :
  forall (p : list byte) (datap : option (list byte)),
    strsep s = Some (p, datap) -> lines s = p :: tokens_of datap.
Proof.
  induction s as [| c s IH]; intros p datap H; [discriminate|].
  cbn [strsep lines] in *.
  destruct (Byte.eqb c x00); [injection H as <- <-; reflexivity|].
  destruct (Byte.eqb c x0a); [injection H as <- <-; reflexivity|].
  destruct (strsep s) as [[token s']|]; [|discriminate].
  injection H as <- <-. rewrite (IH token s' eq_refl). reflexivity.
Qed.

(** The loop on the policy file. *)
Lemma read_loop_policy (fuel : nat) :
  forall (st : statics) (dentry : dentry_ptr) (file : Z) (data : list byte)
         (datap : option (list byte)) (size rc : Z) (op : digest_list_op),
    dentry = dent st ima_policy ->
    on_every_path
      (read_loop BITS_PER_LONG fuel st dentry file data datap size rc op)
      (fun t r =>
         omap list_call t = []
         /\ omap loading t = []
         /\ omap rule_of t `prefix_of` tokens_of datap
         /\ ((length (tokens_of datap) < fuel)%nat -> r <> Some None)).
Proof.
  induction fuel as [| fuel IH];
    intros st dentry file data datap size rc op Hd.
  - cbn. repeat split; [apply prefix_nil | lia].
  - cbn [read_loop].
    destruct (negb (size >? 0));
      [cbn; repeat split; [apply prefix_nil | discriminate]|].
    rewrite decide_True by exact Hd.
    destruct datap as [s|];
      [|cbn; repeat split; [apply prefix_nil | discriminate]].
    destruct (strsep s) as [[p datap]|] eqn:Hs;
      [|cbn; repeat split; [apply prefix_nil | discriminate]].
    pose proof (strsep_lines s p datap Hs) as Hl.
    cbn [on_every_path bind call]. intros [] r.
    destruct (to_int r <? 0).
    + cbn. repeat split; [|discriminate].
      rewrite Hl. apply prefix_cons, prefix_nil.
    + eapply on_every_path_impl; [|apply (IH st dentry); exact Hd].
      cbn. intros t res (Hc & Hld & Hp & Hterm).
      repeat split; try assumption.
      * rewrite Hl. apply prefix_cons. exact Hp.
      * intros Hfuel. apply Hterm. rewrite Hl in Hfuel. cbn in Hfuel. lia.
Qed.

(** X28. On the policy file the rules reach the parser in the order of the
    lines of the file: on every path the rules parsed are the first
    lines of the loaded text, none skipped or repeated; the digest-list
    parser is never called; and the loop ends, however the parser
    answers, within as many iterations as the text has lines. *)
Theorem policy_rules_in_file_order (fuel : nat) (st : statics)
    (path : list byte) (dentry : dentry_ptr) :
  dentry = dent st ima_policy ->
  on_every_path
    (ima_read_file k O_RDONLY BITS_PER_LONG fuel st path dentry)
    (fun t r =>
       omap list_call t = []
       /\ omap rule_of t `prefix_of` flat_map lines (omap loading t)
       /\ (Forall (fun text => (length (lines text) < fuel)%nat)
             (omap loading t) ->
           r <> Some None)).
Proof.
  intros Hd. unfold ima_read_file.
  destruct (strlen path) as [n|];
    [|cbn; repeat split; [apply prefix_nil | discriminate]].
  destruct (strsep path) as [[name rest]|];
    [|cbn; repeat split; [apply prefix_nil | discriminate]].
  cbn [on_every_path bind call]. intros file.
  destruct (IS_ERR_file file).
  { cbn [on_every_path bind call]. intros [].
    cbn. repeat split; [apply prefix_nil | discriminate]. }
  cbn [on_every_path bind call]. intros [rc [data bytes]].
  cbn [fst snd].
  destruct (rc <? 0) eqn:Hrc.
  { cbn [on_every_path bind call]. intros [] [].
    cbn. rewrite Hrc. repeat split; [apply prefix_nil | discriminate]. }
  apply on_every_path_bind.
  eapply on_every_path_impl; [|apply (read_loop_policy fuel st dentry); exact Hd].
  cbn beta. intros t res (Hc & Hld & Hp & Hterm).
  assert (Hshape :
    forall tail : list (step fileE),
      omap list_call tail = [] -> omap loading tail = [] ->
      omap rule_of tail = [] ->
      let whole :=
        answered (filp_open name O_RDONLY 0) file
        :: answered (kernel_read_file file 0 INT_MAX
             (if bool_decide (dentry = dent st digest_list_data)
                 || bool_decide (dentry = dent st digest_list_data_del)
              then READING_DIGEST_LIST else READING_POLICY))
             (rc, (data, bytes))
        :: t ++ tail in
      omap list_call whole = []
      /\ omap rule_of whole `prefix_of` flat_map lines (omap loading whole)
      /\ omap loading whole = [bytes]).
  { intros tail T1 T2 T3 whole. unfold whole.
    cbn [omap list_omap list_call loading rule_of answered projT2 fst snd].
    rewrite Hrc, !omap_app, Hc, Hld, T1, T2, T3. cbn [app flat_map].
    rewrite !app_nil_r. repeat split.
    destruct (data =? 0); cbn [tokens_of] in Hp; [|exact Hp].
    apply prefix_nil_inv in Hp. rewrite Hp. apply prefix_nil. }
  assert (Hfuel :
    (length (lines bytes) < fuel)%nat ->
    (length (tokens_of (if (data =? 0)%Z then None else Some bytes))
     < fuel)%nat).
  { destruct (data =? 0); cbn [tokens_of length]; lia. }
  destruct res as [[[size' rc']|]|].
  - cbn [on_every_path bind call]. intros [] [].
    destruct (Hshape [answered (vfree data) tt; answered (fput file) tt]
                eq_refl eq_refl eq_refl) as (S1 & S2 & S3).
    destruct (rc' <? 0); [|destruct (negb (size' =? 0))];
      cbn [on_every_path app]; (repeat split; [exact S1 | exact S2 | discriminate]).
  - cbn [on_every_path].
    destruct (Hshape [] eq_refl eq_refl eq_refl) as (S1 & S2 & S3).
    repeat split; [exact S1 | exact S2 |].
    rewrite S3. intros Hall. exfalso.
    apply Forall_cons in Hall. destruct Hall as [Hlen _].
    exact (Hterm (Hfuel Hlen) eq_refl).
  - destruct (Hshape [] eq_refl eq_refl eq_refl) as (S1 & S2 & S3).
    cbv zeta in S1, S2, S3. rewrite app_nil_r in S1, S2, S3.
    repeat split; [exact S1 | exact S2 | discriminate].
Qed.

Lemma strsep_one_line (rule rest : list byte) :
  one_line rule -> strsep (rule ++ x0a :: rest) = Some (rule, Some rest).
Proof.
  induction 1 as [| c rule [Hnul Hnl] _ IH]; [reflexivity|].
  cbn [app strsep].
  destruct (Byte.eqb c x00) eqn:E0;
    [apply Byte.byte_dec_bl in E0; contradiction|].
  destruct (Byte.eqb c x0a) eqn:E1;
    [apply Byte.byte_dec_bl in E1; contradiction|].
  rewrite IH. reflexivity.
Qed.

(** The loop on a policy text whose rules the parser accepts. *)
Lemma read_loop_complete (rules : list (list byte)) :
  forall (fuel : nat) (st : statics) (dentry : dentry_ptr) (file : Z)
         (data tail : list byte) (size rc : Z) (op : digest_list_op),
    dentry = dent st ima_policy ->
    Forall one_line rules ->
    size = Z.of_nat (length (file_of rules)) ->
    size < 2 ^ 31 ->
    32 <= BITS_PER_LONG ->
    (length rules < fuel)%nat ->
    0 <= rc ->
    on_every_path
      (read_loop BITS_PER_LONG fuel st dentry file data
         (Some (file_of rules ++ tail)) size rc op)
      (fun t r =>
         Forall (fun ra : list byte * Z => ra.2 = Z.of_nat (length ra.1) + 1)
           (omap rule_answer t) ->
         omap rule_of t = rules
         /\ exists rc' : Z, r = Some (Some (0, rc')) /\ 0 <= rc').
Proof.
  induction rules as [| rule rules IH];
    intros fuel st dentry file data tail size rc op Hd Hrules Hsize Hmax
           Hbits Hfuel Hrc.
  - destruct fuel as [| fuel]; [cbn in Hfuel; lia|].
    cbn in Hsize. subst size. cbn. intros _. split; [reflexivity|].
    exists rc. split; [reflexivity | exact Hrc].
  - destruct fuel as [| fuel]; [cbn in Hfuel; lia|].
    apply Forall_cons in Hrules. destruct Hrules as [Hrule Hrules].
    cbn [file_of flat_map] in Hsize. fold (file_of rules) in Hsize.
    rewrite !length_app in Hsize. cbn [length] in Hsize.
    cbn [read_loop].
    replace (negb (size >? 0)) with false
      by (symmetry; apply negb_false_iff, Z.gtb_lt; lia).
    rewrite decide_True by exact Hd.
    cbn [file_of flat_map]. fold (file_of rules).
    rewrite <- !app_assoc. cbn [app].
    rewrite (strsep_one_line rule (file_of rules ++ tail) Hrule).
    cbn [on_every_path bind call]. intros [] r.
    destruct (Z.eq_dec r (Z.of_nat (length rule) + 1)) as [-> | Hr];
      [|apply on_every_path_always; intros t res;
        destruct (to_int r <? 0); cbn;
        intros Hall; apply Forall_cons in Hall; destruct Hall as [E _];
        cbn in E; contradiction].
    rewrite ShowingProofs.to_int_small by lia.
    replace (Z.of_nat (length rule) + 1 <? 0) with false
      by (symmetry; apply Z.ltb_ge; lia).
    eapply on_every_path_impl;
      [|apply (IH fuel st dentry file data tail
                  (to_unsigned BITS_PER_LONG
                     (size - (Z.of_nat (length rule) + 1)))
                  (Z.of_nat (length rule) + 1) op Hd Hrules)].
    + cbn. intros t res Hpost Hall.
      apply Forall_cons in Hall. destruct Hall as [_ Hall].
      destruct (Hpost Hall) as (Hr & Hres).
      split; [rewrite Hr; reflexivity | exact Hres].
    + unfold to_unsigned. rewrite Z.mod_small; [lia|].
      split; [lia|].
      apply Z.lt_le_trans with (2 ^ 31); [lia|].
      apply Z.pow_le_mono_r; lia.
    + unfold to_unsigned. rewrite Z.mod_small; [lia|].
      split; [lia|].
      apply Z.lt_le_trans with (2 ^ 31); [lia|].
      apply Z.pow_le_mono_r; lia.
    + exact Hbits.
    + cbn in Hfuel. lia.
    + lia.
Qed.

(** The loop never calls [kernel_read_file]. *)
Lemma read_loop_reads_nothing (fuel : nat) :
  forall (st : statics) (dentry : dentry_ptr) (file : Z) (data : list byte)
         (datap : option (list byte)) (size rc : Z) (op : digest_list_op),
    on_every_path
      (read_loop BITS_PER_LONG fuel st dentry file data datap size rc op)
      (fun t _ => omap read_answer t = []).
Proof.
  induction fuel as [| fuel IH]; intros st dentry file data datap size rc op.
  - reflexivity.
  - cbn [read_loop].
    destruct (negb (size >? 0)); [reflexivity|].
    destruct (decide (dentry = dent st ima_policy)).
    + destruct datap as [s|]; [|reflexivity].
      destruct (strsep s) as [[p datap]|]; [|reflexivity].
      cbn [on_every_path bind call]. intros [] r.
      destruct (to_int r <? 0); [reflexivity|].
      eapply on_every_path_impl; [|apply IH].
      cbn. intros t _ Ht. exact Ht.
    + destruct (bool_decide (dentry = dent st digest_list_data)
                || bool_decide (dentry = dent st digest_list_data_del)).
      * cbn [on_every_path bind call]. intros [] r.
        destruct (r <? 0); [reflexivity|].
        eapply on_every_path_impl; [|apply IH].
        cbn. intros t _ Ht. exact Ht.
      * destruct (rc <? 0); [reflexivity|]. apply IH.
Qed.

(** X29. A policy file the parser accepts is loaded completely. If the file
    holds the given rules, one to a line and every line ended by a
    newline, [kernel_read_file] reports its length, and the parser
    answers every rule with the number of bytes it took (the rule and
    its newline), then every rule reaches the parser, in the order of
    the file and once each, nothing is read beyond the last newline
    (whatever follows the text in the buffer), and the result is the
    length of the path as it was passed in. *)
Theorem accepted_policy_fully_loaded (fuel : nat) (st : statics)
    (path : list byte) (dentry : dentry_ptr) (rules : list (list byte))
    (data : Z) (tail : list byte) :
  dentry = dent st ima_policy ->
  32 <= BITS_PER_LONG ->
  Forall one_line rules ->
  Z.of_nat (length (file_of rules)) < 2 ^ 31 ->
  (length rules < fuel)%nat ->
  data <> 0 ->
  on_every_path
    (ima_read_file k O_RDONLY BITS_PER_LONG fuel st path dentry)
    (fun t r =>
       omap read_answer t
       = [(Z.of_nat (length (file_of rules)), data, file_of rules ++ tail)] ->
       Forall (fun ra : list byte * Z => ra.2 = Z.of_nat (length ra.1) + 1)
         (omap rule_answer t) ->
       omap rule_of t = rules
       /\ exists n : nat,
            strlen path = Some n /\ r = Some (Some (to_int (Z.of_nat n)))).
Proof.
  intros Hd Hbits Hrules Hmax Hfuel Hdata. unfold ima_read_file.
  destruct (strlen path) as [n|]; [|cbn; intros [=]].
  destruct (strsep path) as [[name rest]|]; [|cbn; intros [=]].
  cbn [on_every_path bind call]. intros file.
  destruct (IS_ERR_file file).
  { cbn [on_every_path bind call]. intros []. cbn. intros [=]. }
  cbn [on_every_path bind call]. intros [rc [data' bytes]].
  cbn [fst snd].
  set (n0 := Z.of_nat (length (file_of rules))) in *.
  destruct (rc <? 0) eqn:Hrc.
  { cbn [on_every_path bind call]. intros [] []. cbn.
    intros [= -> _ _]. apply Z.ltb_lt in Hrc. unfold n0 in Hrc. lia. }
  apply on_every_path_bind.
  eapply on_every_path_impl with
    (post := fun t r =>
       (rc = n0 /\ data' = data /\ bytes = file_of rules ++ tail) ->
       Forall (fun ra : list byte * Z => ra.2 = Z.of_nat (length ra.1) + 1)
         (omap rule_answer t) ->
       omap rule_of t = rules
       /\ omap read_answer t = []
       /\ exists rc' : Z, r = Some (Some (0, rc')) /\ 0 <= rc').
  - cbn beta. intros t res Hloop.
    assert (Hpre :
      forall tl : list (step fileE),
        omap read_answer tl = [] -> omap rule_answer tl = [] ->
        omap rule_of tl = [] ->
        omap read_answer
          (answered (filp_open name O_RDONLY 0) file
           :: answered (kernel_read_file file 0 INT_MAX
                (if bool_decide (dentry = dent st digest_list_data)
                    || bool_decide (dentry = dent st digest_list_data_del)
                 then READING_DIGEST_LIST else READING_POLICY))
                (rc, (data', bytes))
           :: t ++ tl)
        = [(n0, data, file_of rules ++ tail)] ->
        Forall (fun ra : list byte * Z => ra.2 = Z.of_nat (length ra.1) + 1)
          (omap rule_answer
             (answered (filp_open name O_RDONLY 0) file
              :: answered (kernel_read_file file 0 INT_MAX
                   (if bool_decide (dentry = dent st digest_list_data)
                       || bool_decide (dentry = dent st digest_list_data_del)
                    then READING_DIGEST_LIST else READING_POLICY))
                   (rc, (data', bytes))
              :: t ++ tl)) ->
        omap rule_of
          (answered (filp_open name O_RDONLY 0) file
           :: answered (kernel_read_file file 0 INT_MAX
                (if bool_decide (dentry = dent st digest_list_data)
                    || bool_decide (dentry = dent st digest_list_data_del)
                 then READING_DIGEST_LIST else READING_POLICY))
                (rc, (data', bytes))
           :: t ++ tl)
        = rules
        /\ exists rc' : Z, res = Some (Some (0, rc')) /\ 0 <= rc').
    { intros tl T1 T2 T3.
      cbn [omap list_omap read_answer rule_answer rule_of answered projT2
           fst snd].
      rewrite !omap_app, T1, T2, T3, !app_nil_r.
      intros Hread Hall.
      injection Hread as -> -> -> Hnone.
      destruct (Hloop (conj eq_refl (conj eq_refl eq_refl)) Hall)
        as (Hr & _ & Hres).
      split; [exact Hr | exact Hres]. }
    destruct res as [[[size' rc']|]|].
    + cbn [on_every_path bind call]. intros [] [].
      assert (Hfin :
        forall w : option (option Z),
          (forall rc'' : Z,
             Some (Some (size', rc')) = Some (Some (0, rc'')) -> 0 <= rc'' ->
             w = Some (Some (to_int (Z.of_nat n)))) ->
          omap read_answer
            (answered (filp_open name O_RDONLY 0) file
             :: answered (kernel_read_file file 0 INT_MAX
                  (if bool_decide (dentry = dent st digest_list_data)
                      || bool_decide (dentry = dent st digest_list_data_del)
                   then READING_DIGEST_LIST else READING_POLICY))
                  (rc, (data', bytes))
             :: t ++ [answered (vfree data') tt; answered (fput file) tt])
          = [(n0, data, file_of rules ++ tail)] ->
          Forall (fun ra : list byte * Z =>
                    ra.2 = Z.of_nat (length ra.1) + 1)
            (omap rule_answer
               (answered (filp_open name O_RDONLY 0) file
                :: answered (kernel_read_file file 0 INT_MAX
                     (if bool_decide (dentry = dent st digest_list_data)
                         || bool_decide
                              (dentry = dent st digest_list_data_del)
                      then READING_DIGEST_LIST else READING_POLICY))
                     (rc, (data', bytes))
                :: t ++ [answered (vfree data') tt;
                         answered (fput file) tt])) ->
          omap rule_of
            (answered (filp_open name O_RDONLY 0) file
             :: answered (kernel_read_file file 0 INT_MAX
                  (if bool_decide (dentry = dent st digest_list_data)
                      || bool_decide (dentry = dent st digest_list_data_del)
                   then READING_DIGEST_LIST else READING_POLICY))
                  (rc, (data', bytes))
             :: t ++ [answered (vfree data') tt; answered (fput file) tt])
          = rules
          /\ exists m : nat,
               Some n = Some m /\ w = Some (Some (to_int (Z.of_nat m)))).
      { intros w Hw Hread Hall.
        destruct (Hpre [answered (vfree data') tt; answered (fput file) tt]
                    eq_refl eq_refl eq_refl Hread Hall)
          as (Hr & rc'' & E & Hge).
        split; [exact Hr|]. exists n. split; [reflexivity|].
        exact (Hw rc'' E Hge). }
      destruct (rc' <? 0) eqn:Hneg;
        [|destruct (negb (size' =? 0)) eqn:Hsz];
        cbn [on_every_path app]; apply Hfin;
        intros rc'' [= -> ->] Hge.
      * apply Z.ltb_lt in Hneg. lia.
      * discriminate Hsz.
      * reflexivity.
    + cbn [on_every_path]. intros Hread Hall.
      destruct (Hpre [] eq_refl eq_refl eq_refl Hread Hall)
        as (_ & rc'' & [=] & _).
    + intros Hread Hall.
      assert (Hnil : t ++ [] = t) by apply app_nil_r.
      rewrite <- Hnil in Hread, Hall.
      destruct (Hpre [] eq_refl eq_refl eq_refl Hread Hall)
        as (_ & rc'' & [=] & _).
  - apply on_every_path_assuming. intros (-> & -> & ->).
    rewrite (proj2 (Z.eqb_neq data 0) Hdata).
    eapply on_every_path_impl;
      [|apply on_every_path_conj;
        [apply (read_loop_complete rules fuel st dentry file
                  (file_of rules ++ tail) tail
                  (to_unsigned BITS_PER_LONG n0) 0 DIGEST_LIST_OP_ADD
                  Hd Hrules)
        |apply read_loop_reads_nothing]].
    + cbn beta. intros t res [Hpost Hnone] Hall.
      destruct (Hpost Hall) as (Hr & Hres).
      split; [exact Hr|]. split; [exact Hnone | exact Hres].
    + unfold to_unsigned. rewrite Z.mod_small; [reflexivity|].
      split; [unfold n0; lia|].
      apply Z.lt_le_trans with (2 ^ 31); [exact Hmax|].
      apply Z.pow_le_mono_r; lia.
    + unfold to_unsigned. rewrite Z.mod_small; [exact Hmax|].
      split; [unfold n0; lia|].
      apply Z.lt_le_trans with (2 ^ 31); [exact Hmax|].
      apply Z.pow_le_mono_r; lia.
    + exact Hbits.
    + exact Hfuel.
    + lia.
Qed.

(** The loop on a digest-list file. *)
Lemma read_loop_lists (fuel : nat) :
  forall (st : statics) (dentry : dentry_ptr) (file : Z) (data : list byte)
         (datap : option (list byte)) (size rc : Z) (op : digest_list_op),
    dentry <> dent st ima_policy ->
    dentry = dent st digest_list_data
    \/ dentry = dent st digest_list_data_del ->
    0 <= BITS_PER_LONG ->
    0 <= size ->
    op = DIGEST_LIST_OP_ADD \/ dentry = dent st digest_list_data_del ->
    on_every_path
      (read_loop BITS_PER_LONG fuel st dentry file data datap size rc op)
      (fun t r =>
         omap rule_of t = []
         /\ Forall (fun c : Z * list byte * digest_list_op =>
                      c.1.2 = data /\ c.2 = op_of st dentry /\ 0 < c.1.1)
              (omap list_call t)
         /\ omap list_event_of t
            = flat_map (fun c : Z * list byte * digest_list_op =>
                          [Checked file; Parsed c.1.1 c.1.2 c.2])
                (omap list_call t)
         /\ counts_down BITS_PER_LONG size (omap list_answer t)
         /\ (Forall progress (omap list_answer t) ->
             (Z.to_nat size < fuel)%nat -> r <> Some None)).
Proof.
  induction fuel as [| fuel IH];
    intros st dentry file data datap size rc op Hnp Hd Hbits Hsize Hop.
  - cbn. repeat split; [constructor | lia].
  - cbn [read_loop].
    destruct (Z.gtb_spec size 0) as [Hpos | Hzero]; cbn [negb];
      [|cbn; repeat split; [constructor | discriminate]].
    rewrite decide_False by exact Hnp.
    replace (bool_decide (dentry = dent st digest_list_data)
             || bool_decide (dentry = dent st digest_list_data_del))
      with true
      by (symmetry; apply orb_true_iff;
          destruct Hd as [Hd | Hd]; [left | right];
          apply bool_decide_eq_true_2; exact Hd).
    cbn [on_every_path bind call]. intros [] r.
    assert (Hexp :
      (if decide (dentry = dent st digest_list_data_del)
       then DIGEST_LIST_OP_DEL else op) = op_of st dentry).
    { unfold op_of.
      destruct (decide (dentry = dent st digest_list_data_del));
        [reflexivity|].
      destruct Hop as [-> | ?]; [reflexivity | contradiction]. }
    rewrite Hexp.
    destruct (r <? 0) eqn:Hneg.
    + cbn. repeat split; [|discriminate].
      constructor; [|constructor]. cbn. repeat split. lia.
    + apply Z.ltb_ge in Hneg.
      assert (Hnext : 0 <= to_unsigned BITS_PER_LONG (size - r)).
      { unfold to_unsigned. apply Z.mod_pos_bound.
        apply Z.pow_pos_nonneg; lia. }
      eapply on_every_path_impl;
        [|apply (IH st dentry file data datap
                    (to_unsigned BITS_PER_LONG (size - r)) r
                    (op_of st dentry) Hnp Hd Hbits Hnext)].
      * cbn. intros t res (Hr & Hc & Hk & Hcount & Hterm).
        repeat split.
        -- exact Hr.
        -- constructor; [cbn; repeat split; lia | exact Hc].
        -- rewrite Hk. reflexivity.
        -- exact Hcount.
        -- intros Hall Hfuel.
           apply Forall_cons in Hall. destruct Hall as [Hprog Hall].
           apply (Hterm Hall).
           unfold progress in Hprog. cbn in Hprog.
           assert (0 < r <= size) as Hr' by lia.
           assert (to_unsigned BITS_PER_LONG (size - r) <= size - r).
           { unfold to_unsigned. apply Z.mod_le; [lia|].
             apply Z.pow_pos_nonneg; lia. }
           lia.
      * unfold op_of.
        destruct (decide (dentry = dent st digest_list_data_del));
          [right; assumption | left; reflexivity].
Qed.

(** A trace without [kernel_read_file] shows no read. *)
Lemma no_read_answer (t : list (step fileE)) :
  omap read_answer t = [] ->
  omap read_kind t = [] /\ omap loading t = [] /\ omap read_size t = [].
Proof.
  induction t as [| s t IH]; intros H; [repeat split|].
  destruct s as [X [e x]].
  destruct e; cbn in *; try discriminate; apply IH; exact H.
Qed.

(** X30. A digest-list file is read as [READING_DIGEST_LIST] and goes to the
    digest-list parser only, each call straight after an
    [ima_check_measured_appraised] of the open file. Every call is
    handed the loaded buffer from its start, whatever the earlier calls
    took, together with the number of bytes still to be taken: the
    sizes count down from the size of the file by what each call
    returned. The operation is [DIGEST_LIST_OP_DEL] exactly for
    [digest_list_data_del]. If every call makes progress, the loop ends
    within as many iterations as the file has bytes. *)
Theorem digest_list_loaded_whole (fuel : nat) (st : statics)
    (path : list byte) (dentry : dentry_ptr) :
  dentry <> dent st ima_policy ->
  dentry = dent st digest_list_data
  \/ dentry = dent st digest_list_data_del ->
  0 <= BITS_PER_LONG ->
  on_every_path
    (ima_read_file k O_RDONLY BITS_PER_LONG fuel st path dentry)
    (fun t r =>
       omap rule_of t = []
       /\ Forall (fun id => id = READING_DIGEST_LIST) (omap read_kind t)
       /\ Forall (fun c : Z * list byte * digest_list_op =>
                    omap loading t = [c.1.2]
                    /\ c.2 = op_of st dentry /\ 0 < c.1.1)
            (omap list_call t)
       /\ omap list_event_of t
          = flat_map (fun c : Z * list byte * digest_list_op =>
                        map Checked (omap opening t)
                        ++ [Parsed c.1.1 c.1.2 c.2])
              (omap list_call t)
       /\ Forall (fun n =>
                    counts_down BITS_PER_LONG (to_unsigned BITS_PER_LONG n)
                      (omap list_answer t))
            (omap read_size t)
       /\ (Forall progress (omap list_answer t) ->
           Forall (fun n => (Z.to_nat n < fuel)%nat) (omap read_size t) ->
           r <> Some None)).
Proof.
  intros Hnp Hd Hbits. unfold ima_read_file.
  assert (Hid :
    (if bool_decide (dentry = dent st digest_list_data)
        || bool_decide (dentry = dent st digest_list_data_del)
     then READING_DIGEST_LIST else READING_POLICY) = READING_DIGEST_LIST).
  { replace (bool_decide (dentry = dent st digest_list_data)
             || bool_decide (dentry = dent st digest_list_data_del))
      with true; [reflexivity|].
    symmetry; apply orb_true_iff.
    destruct Hd as [Hd | Hd]; [left | right];
      apply bool_decide_eq_true_2; exact Hd. }
  rewrite Hid.
  destruct (strlen path) as [n|];
    [|cbn; repeat split; solve [constructor | discriminate]].
  destruct (strsep path) as [[name rest]|];
    [|cbn; repeat split; solve [constructor | discriminate]].
  cbn [on_every_path bind call]. intros file.
  destruct (IS_ERR_file file) eqn:Herr.
  { cbn [on_every_path bind call]. intros [].
    cbn. try rewrite Herr.
    repeat split; solve [constructor | discriminate]. }
  cbn [on_every_path bind call]. intros [rc [data bytes]].
  cbn [fst snd].
  destruct (rc <? 0) eqn:Hrc.
  { cbn [on_every_path bind call]. intros [] [].
    cbn. try rewrite Herr. try rewrite Hrc.
    repeat split; solve [constructor; [reflexivity | constructor]
                        | constructor | discriminate]. }
  apply on_every_path_bind.
  assert (Hsz : 0 <= to_unsigned BITS_PER_LONG rc).
  { unfold to_unsigned. apply Z.mod_pos_bound.
    apply Z.pow_pos_nonneg; lia. }
  eapply on_every_path_impl;
    [|apply on_every_path_conj;
      [apply (read_loop_lists fuel st dentry file bytes
                (if data =? 0 then None else Some bytes)
                (to_unsigned BITS_PER_LONG rc) 0 DIGEST_LIST_OP_ADD
                Hnp Hd Hbits Hsz (or_introl eq_refl))
      |apply on_every_path_conj;
        [apply read_loop_reads_nothing
        |apply (read_loop_quiet fuel st dentry file bytes
                  (if data =? 0 then None else Some bytes)
                  (to_unsigned BITS_PER_LONG rc) 0 DIGEST_LIST_OP_ADD)]]].
  cbn beta.
  intros t res
    ((Hr & Hc & Hk & Hcount & Hterm) & Hnone & (_ & Ho & _ & _ & _)).
  destruct (no_read_answer t Hnone) as (Hkind & Hload & Hsize).
  assert (Hshape :
    forall tl : list (step fileE),
      omap rule_of tl = [] -> omap read_kind tl = [] ->
      omap list_call tl = [] -> omap loading tl = [] ->
      omap opening tl = [] -> omap list_event_of tl = [] ->
      omap list_answer tl = [] -> omap read_size tl = [] ->
      let whole :=
        answered (filp_open name O_RDONLY 0) file
        :: answered (kernel_read_file file 0 INT_MAX READING_DIGEST_LIST)
             (rc, (data, bytes))
        :: t ++ tl in
      omap rule_of whole = []
      /\ Forall (fun id => id = READING_DIGEST_LIST) (omap read_kind whole)
      /\ Forall (fun c : Z * list byte * digest_list_op =>
                   omap loading whole = [c.1.2]
                   /\ c.2 = op_of st dentry /\ 0 < c.1.1)
           (omap list_call whole)
      /\ omap list_event_of whole
         = flat_map (fun c : Z * list byte * digest_list_op =>
                       map Checked (omap opening whole)
                       ++ [Parsed c.1.1 c.1.2 c.2])
             (omap list_call whole)
      /\ Forall (fun n =>
                   counts_down BITS_PER_LONG (to_unsigned BITS_PER_LONG n)
                     (omap list_answer whole))
           (omap read_size whole)
      /\ (Forall progress (omap list_answer whole) ->
          Forall (fun n => (Z.to_nat n < fuel)%nat)
            (omap read_size whole) ->
          res <> Some None)).
  { intros tl T1 T2 T3 T4 T5 T6 T7 T8 whole. unfold whole.
    cbn [omap list_omap rule_of read_kind list_call loading opening
         list_event_of list_answer read_size answered projT2 fst snd].
    rewrite Herr, Hrc, !omap_app.
    rewrite Hr, Hkind, Hload, Ho, Hsize, T1, T2, T3, T4, T5, T6, T7, T8.
    rewrite !app_nil_r. cbn [app map].
    repeat split.
    - constructor; [reflexivity | constructor].
    - eapply Forall_impl; [exact Hc|].
      cbn beta. intros c (-> & Hop & Hpos). repeat split; assumption.
    - exact Hk.
    - constructor; [exact Hcount | constructor].
    - intros Hall Hfuel. apply (Hterm Hall).
      apply Forall_cons in Hfuel. destruct Hfuel as [Hfuel _].
      assert (to_unsigned BITS_PER_LONG rc <= rc).
      { unfold to_unsigned. apply Z.mod_le;
          [apply Z.ltb_ge in Hrc; lia | apply Z.pow_pos_nonneg; lia]. }
      lia. }
  destruct res as [[[size' rc']|]|].
  - cbn [on_every_path bind call]. intros [] [].
    destruct (rc' <? 0); [|destruct (negb (size' =? 0))];
      cbn [on_every_path app];
      destruct (Hshape [answered (vfree data) tt; answered (fput file) tt]
                  eq_refl eq_refl eq_refl eq_refl eq_refl eq_refl eq_refl
                  eq_refl)
        as (S1 & S2 & S3 & S4 & S5 & S6);
      (repeat split;
       [exact S1 | exact S2 | exact S3 | exact S4 | exact S5|]);
      discriminate.
  - cbn [on_every_path].
    destruct (Hshape [] eq_refl eq_refl eq_refl eq_refl eq_refl eq_refl
                eq_refl eq_refl)
      as (S1 & S2 & S3 & S4 & S5 & S6).
    repeat split; [exact S1 | exact S2 | exact S3 | exact S4 | exact S5|].
    intros Hall Hfuel. exfalso. exact (S6 Hall Hfuel eq_refl).
  - destruct (Hshape [] eq_refl eq_refl eq_refl eq_refl eq_refl eq_refl
                eq_refl eq_refl)
      as (S1 & S2 & S3 & S4 & S5 & S6).
    cbv zeta in S1, S2, S3, S4, S5, S6.
    rewrite app_nil_r in S1, S2, S3, S4, S5, S6.
    repeat split; [exact S1 | exact S2 | exact S3 | exact S4 | exact S5|].
    discriminate.
Qed.

End Configured.

Lemma read_file_outcome_witness :
  on_every_path
    (ima_read_file linux 0 64 3 ImaSpec.mounted [x2f; x70; x0a; x00]
       (dent ImaSpec.mounted ima_policy))
    (fun t r =>
       forall v : Z,
         r = Some (Some v) ->
         omap putting t = omap opening t
         /\ omap freeing t = omap receiving t
         /\ (length (omap opening t) <= 1)%nat
         /\ (0 <= v ->
             (exists n : nat,
                strlen [x2f; x70; x0a; x00] = Some n
                /\ v = to_int (Z.of_nat n))
             /\ length (omap opening t) = 1%nat
             /\ length (omap receiving t) = 1%nat
             /\ Forall (fun a => 0 <= a) (omap parse_result t))).
Proof.
  exact (read_file_outcome linux 0 64 3 ImaSpec.mounted [x2f; x70; x0a; x00]
           (dent ImaSpec.mounted ima_policy) ltac:(reflexivity)).
Defined.

Lemma policy_rules_in_file_order_witness :
  on_every_path
    (ima_read_file linux 0 64 3 ImaSpec.mounted [x2f; x70; x0a; x00]
       (dent ImaSpec.mounted ima_policy))
    (fun t r =>
       omap list_call t = []
       /\ omap rule_of t `prefix_of` flat_map lines (omap loading t)
       /\ (Forall (fun text => (length (lines text) < 3)%nat)
             (omap loading t) ->
           r <> Some None)).
Proof.
  exact (policy_rules_in_file_order linux 0 64 3 ImaSpec.mounted
           [x2f; x70; x0a; x00] (dent ImaSpec.mounted ima_policy)
           ltac:(reflexivity)).
Defined.

Lemma accepted_policy_fully_loaded_witness :
  on_every_path
    (ima_read_file linux 0 64 3 ImaSpec.mounted [x2f; x70; x0a; x00]
       (dent ImaSpec.mounted ima_policy))
    (fun t r =>
       omap read_answer t = [(4, 4096, [x61; x0a; x62; x0a] ++ [])] ->
       Forall (fun ra : list byte * Z => ra.2 = Z.of_nat (length ra.1) + 1)
         (omap rule_answer t) ->
       omap rule_of t = [[x61]; [x62]]
       /\ exists n : nat,
            strlen [x2f; x70; x0a; x00] = Some n
            /\ r = Some (Some (to_int (Z.of_nat n)))).
Proof.
  exact (accepted_policy_fully_loaded linux 0 64 3 ImaSpec.mounted
           [x2f; x70; x0a; x00] (dent ImaSpec.mounted ima_policy)
           [[x61]; [x62]] 4096 []
           ltac:(reflexivity) ltac:(lia)
           ltac:(repeat (constructor; try (split; discriminate)))
           ltac:(vm_compute; reflexivity) ltac:(cbn; lia) ltac:(lia)).
Defined.

Lemma digest_list_loaded_whole_witness :
  let st := ImaSpec.mounted in
  let dentry := dent st digest_list_data_del in
  on_every_path
    (ima_read_file linux 0 64 3 st [x2f; x70; x0a; x00] dentry)
    (fun t r =>
       omap rule_of t = []
       /\ Forall (fun id => id = READING_DIGEST_LIST) (omap read_kind t)
       /\ Forall (fun c : Z * list byte * digest_list_op =>
                    omap loading t = [c.1.2]
                    /\ c.2 = op_of st dentry /\ 0 < c.1.1)
            (omap list_call t)
       /\ omap list_event_of t
          = flat_map (fun c : Z * list byte * digest_list_op =>
                        map Checked (omap opening t)
                        ++ [Parsed c.1.1 c.1.2 c.2])
              (omap list_call t)
       /\ Forall (fun n => counts_down 64 (to_unsigned 64 n)
                             (omap list_answer t))
            (omap read_size t)
       /\ (Forall progress (omap list_answer t) ->
           Forall (fun n => (Z.to_nat n < 3)%nat) (omap read_size t) ->
           r <> Some None)).
Proof.
  intros st dentry.
  exact (digest_list_loaded_whole linux 0 64 3 st [x2f; x70; x0a; x00] dentry
           ltac:(vm_compute; discriminate)
           ltac:(right; reflexivity) ltac:(lia)).
Defined.

(** A policy file whose last line has no newline, in a buffer without a
    NUL after the text: [strsep] runs off the end of the buffer. *)
Example unterminated_last_line :
  on_every_path
    (read_loop 64 3 ImaSpec.mounted (dent ImaSpec.mounted ima_policy) 7
       [x61; x0a; x62] (Some [x61; x0a; x62]) 3 0 DIGEST_LIST_OP_ADD)
    (fun t r =>
       Forall (fun ra : list byte * Z => ra.2 = Z.of_nat (length ra.1) + 1)
         (omap rule_answer t) ->
       r = None).
Proof.
  cbn [read_loop]. change (negb (3 >? 0)) with false. cbv iota.
  rewrite decide_True by reflexivity.
  change (strsep [x61; x0a; x62]) with (Some ([x61], Some [x62])).
  cbn [on_every_path bind call]. intros [] r.
  destruct (Z.eq_dec r 2) as [-> | Hr];
    [|apply on_every_path_always; intros t res;
      destruct (to_int r <? 0); cbn;
      intros Hall; apply Forall_cons in Hall; destruct Hall as [E _];
      cbn in E; contradiction].
  change (to_int 2) with 2. change (2 <? 0) with false. cbv iota.
  change (to_unsigned 64 (3 - 2)) with 1.
  cbn [read_loop]. change (negb (1 >? 0)) with false. cbv iota.
  rewrite decide_True by reflexivity.
  change (strsep [x62]) with (@None (list byte * option (list byte))).
  cbn [on_every_path]. intros _. reflexivity.
Qed.


Section Shape.

Variables (k : kconsts) (O_RDONLY : Z) (BITS_PER_LONG : Z).

(** The loop makes only the steps of its file. *)
Lemma read_loop_steps (fuel : nat) :
  forall (st : statics) (dentry : dentry_ptr) (file : Z) (data : list byte)
         (datap : option (list byte)) (size rc : Z) (op : digest_list_op),
    op = DIGEST_LIST_OP_ADD \/ dentry = dent st digest_list_data_del ->
    on_every_path
      (read_loop BITS_PER_LONG fuel st dentry file data datap size rc op)
      (fun t _ => Forall (loop_step st dentry) t).
Proof.
  induction fuel as [| fuel IH];
    intros st dentry file data datap size rc op Hop.
  - constructor.
  - cbn [read_loop].
    destruct (negb (size >? 0)); [constructor|].
    destruct (decide (dentry = dent st ima_policy)) as [Hp | Hp].
    + destruct datap as [s|]; [|constructor].
      destruct (strsep s) as [[p datap]|]; [|constructor].
      cbn [on_every_path bind call]. intros [] r.
      destruct (to_int r <? 0).
      * cbn. repeat constructor; exact Hp.
      * eapply on_every_path_impl; [|apply (IH st dentry); exact Hop].
        cbn beta. intros t _ Ht. repeat constructor; assumption.
    + destruct (bool_decide (dentry = dent st digest_list_data)
                || bool_decide (dentry = dent st digest_list_data_del))
        eqn:Hd.
      * assert (Hfile :
          dentry = dent st
            (file_of_op
               (if decide (dentry = dent st digest_list_data_del)
                then DIGEST_LIST_OP_DEL else op))).
        { destruct (decide (dentry = dent st digest_list_data_del))
            as [Hdel | Hdel]; [exact Hdel|].
          destruct Hop as [-> | ?]; [|contradiction].
          apply orb_true_iff in Hd. destruct Hd as [Hd | Hd];
            apply bool_decide_eq_true_1 in Hd;
            [exact Hd | contradiction]. }
        cbn [on_every_path bind call]. intros [] r.
        destruct (r <? 0).
        -- cbn. repeat constructor; assumption.
        -- eapply on_every_path_impl;
             [|apply (IH st dentry)].
           ++ cbn beta. intros t _ Ht. repeat constructor; assumption.
           ++ destruct (decide (dentry = dent st digest_list_data_del));
                [right; assumption | exact Hop].
      * destruct (rc <? 0); [constructor|].
        apply IH. exact Hop.
Qed.

(** Every run of [ima_read_file] has the shape [run_shape]. *)
Lemma read_file_shape (fuel : nat) (st : statics) (path : list byte)
    (dentry : dentry_ptr) :
  on_every_path
    (ima_read_file k O_RDONLY BITS_PER_LONG fuel st path dentry)
    (run_shape O_RDONLY st path dentry).
Proof.
  unfold ima_read_file, run_shape.
  destruct (strlen path) as [n|]; [|left; split; reflexivity].
  destruct (strsep path) as [[name rest]|] eqn:Hsep;
    [|left; split; reflexivity].
  cbn [on_every_path bind call]. intros file.
  destruct (IS_ERR_file file) eqn:Herr.
  { cbn [on_every_path bind call]. intros [].
    right. exists name, rest, file. split; [reflexivity|].
    left. repeat split. exact Herr. }
  cbn [on_every_path bind call]. intros [rc [data bytes]].
  cbn [fst snd].
  destruct (rc <? 0) eqn:Hrc.
  { cbn [on_every_path bind call]. intros [] [].
    right. exists name, rest, file. split; [reflexivity|].
    right. split; [exact Herr|].
    eexists _, rc, data, bytes. left.
    repeat split. apply Z.ltb_lt. exact Hrc. }
  apply Z.ltb_ge in Hrc.
  apply on_every_path_bind.
  eapply on_every_path_impl;
    [|apply (read_loop_steps fuel st dentry file bytes
               (if data =? 0 then None else Some bytes)
               (to_unsigned BITS_PER_LONG rc) 0 DIGEST_LIST_OP_ADD
               (or_introl eq_refl))].
  cbn beta. intros tl res Hsteps.
  assert (Hend :
    forall (t : list (step fileE)) (r : option (option Z)),
      (t = answered (filp_open name O_RDONLY 0) file
           :: answered
                (kernel_read_file file 0 INT_MAX
                   (if bool_decide (dentry = dent st digest_list_data)
                       || bool_decide (dentry = dent st digest_list_data_del)
                    then READING_DIGEST_LIST else READING_POLICY))
                (rc, (data, bytes))
           :: tl ++ [answered (vfree data) tt; answered (fput file) tt]
       /\ exists v : Z, r = Some (Some v))
      \/ (t = answered (filp_open name O_RDONLY 0) file
              :: answered
                   (kernel_read_file file 0 INT_MAX
                      (if bool_decide (dentry = dent st digest_list_data)
                          || bool_decide
                               (dentry = dent st digest_list_data_del)
                       then READING_DIGEST_LIST else READING_POLICY))
                   (rc, (data, bytes))
              :: tl
          /\ forall v : Z, r <> Some (Some v)) ->
      run_shape O_RDONLY st path dentry t r).
  { intros t r Hcase. unfold run_shape. right. exists name, rest, file.
    split; [exact Hsep|]. right. split; [exact Herr|].
    eexists _, rc, data, bytes. right. split; [exact Hrc|].
    exists tl. split; [exact Hsteps | exact Hcase]. }
  unfold run_shape in Hend. rewrite Hsep in Hend.
  destruct res as [[[size' rc']|]|].
  - cbn [on_every_path bind call]. intros [] [].
    destruct (rc' <? 0); [|destruct (negb (size' =? 0))];
      cbn [on_every_path]; apply Hend; left;
      (split; [reflexivity | eexists; reflexivity]).
  - cbn [on_every_path]. apply Hend. right.
    split; [rewrite app_nil_r; reflexivity | intros v [=]].
  - apply Hend. right. split; [reflexivity | intros v [=]].
Qed.

(** A list of loop steps opens, reads, puts and frees nothing. *)
Lemma loop_steps_quiet (st : statics) (dentry : dentry_ptr)
    (tl : list (step fileE)) :
  Forall (loop_step st dentry) tl ->
  omap opening tl = [] /\ omap putting tl = [] /\ omap freeing tl = []
  /\ omap receiving tl = [] /\ omap open_request tl = [].
Proof.
  induction 1 as [| [X [e x]] tl Hs _ IH]; [repeat split|].
  destruct e; cbn in Hs; try contradiction; exact IH.
Qed.

(** The parser calls among loop steps are those of the file. *)
Lemma loop_steps_gated (st : statics) (dentry : dentry_ptr)
    (tl : list (step fileE)) :
  Forall (loop_step st dentry) tl ->
  (omap rule_of tl <> [] -> dentry = dent st ima_policy)
  /\ Forall (fun c : Z * list byte * digest_list_op =>
               dentry <> dent st ima_policy
               /\ dentry = dent st (file_of_op c.2))
       (omap list_call tl).
Proof.
  induction 1 as [| [X [e x]] tl Hs _ [IHr IHl]];
    [split; [intros H; contradiction | constructor]|].
  destruct e; cbn in Hs; try contradiction; cbn.
  - split; [exact IHr | exact IHl].
  - split; [intros _; exact Hs | exact IHl].
  - split; [exact IHr | exact IHl].
  - split; [exact IHr | constructor; [exact Hs | exact IHl]].
Qed.

(** A run that returns has put the file it opened and freed the buffer
    it was given, and nothing else. *)
Lemma shape_balance (st : statics) (path : list byte) (dentry : dentry_ptr)
    (t : list (step fileE)) (r : option (option Z)) :
  run_shape O_RDONLY st path dentry t r ->
  forall v : Z,
    r = Some (Some v) ->
    omap freeing t = omap receiving t
    /\ omap putting t = omap opening t
    /\ (length (omap receiving t) <= 1)%nat.
Proof.
  intros [[-> ->] | (name & rest & file & _ & Hcase)] v Hv;
    [discriminate Hv|].
  destruct Hcase as [(Herr & -> & _) | (Herr & id & rc & data & bytes & Hcase)].
  - cbn. rewrite Herr. cbn. repeat split; lia.
  - destruct Hcase as [(Hrc & -> & _) | (Hrc & tl & Hsteps & Hcase)].
    + cbn. rewrite Herr. rewrite (proj2 (Z.ltb_lt rc 0) Hrc).
      cbn. repeat split; lia.
    + destruct (loop_steps_quiet st dentry tl Hsteps)
        as (Ho & Hp & Hf & Hr & _).
      destruct Hcase as [(-> & _) | (_ & Hno)];
        [|exfalso; exact (Hno v Hv)].
      cbn [omap list_omap freeing receiving putting opening answered projT2
           fst snd].
      rewrite Herr, (proj2 (Z.ltb_ge rc 0) Hrc), !omap_app, Ho, Hp, Hf, Hr.
      cbn. repeat split; lia.
Qed.

(** What a run opens is the file named by the first line of the path,
    read-only. *)
Lemma shape_opens (st : statics) (path : list byte) (dentry : dentry_ptr)
    (t : list (step fileE)) (r : option (option Z)) :
  run_shape O_RDONLY st path dentry t r ->
  forall (name : list byte) (flags : Z),
    In (name, flags) (omap open_request t) ->
    exists rest : option (list byte),
      strsep path = Some (name, rest) /\ flags = O_RDONLY.
Proof.
  intros [[-> ->] | (name & rest & file & Hsep & Hcase)] name' flags Hin;
    [contradiction|].
  assert (Hreq : omap open_request t = [(name, O_RDONLY)]).
  { destruct Hcase
      as [(_ & -> & _) | (_ & id & rc & data & bytes & Hcase)];
      [reflexivity|].
    destruct Hcase as [(_ & -> & _) | (_ & tl & Hsteps & Hcase)];
      [reflexivity|].
    destruct (loop_steps_quiet st dentry tl Hsteps) as (_ & _ & _ & _ & Hq).
    destruct Hcase as [(-> & _) | (-> & _)];
      cbn [omap list_omap open_request answered projT2 fst snd];
      rewrite ?omap_app, Hq; reflexivity. }
  rewrite Hreq in Hin. destruct Hin as [[= <- <-] | []].
  exists rest. split; [exact Hsep | reflexivity].
Qed.

(** The parser calls of a run are those of its file. *)
Lemma shape_gated (st : statics) (path : list byte) (dentry : dentry_ptr)
    (t : list (step fileE)) (r : option (option Z)) :
  run_shape O_RDONLY st path dentry t r ->
  (omap rule_of t <> [] -> dentry = dent st ima_policy)
  /\ Forall (fun c : Z * list byte * digest_list_op =>
               dentry <> dent st ima_policy
               /\ dentry = dent st (file_of_op c.2))
       (omap list_call t).
Proof.
  intros [[-> ->] | (name & rest & file & _ & Hcase)];
    [split; [intros H; contradiction | constructor]|].
  destruct Hcase as [(_ & -> & _) | (_ & id & rc & data & bytes & Hcase)];
    [split; [intros H; contradiction | constructor]|].
  destruct Hcase as [(_ & -> & _) | (_ & tl & Hsteps & Hcase)];
    [split; [intros H; contradiction | constructor]|].
  destruct (loop_steps_gated st dentry tl Hsteps) as [Hr Hl].
  destruct Hcase as [(-> & _) | (-> & _)];
    cbn [omap list_omap rule_of list_call answered projT2 fst snd];
    rewrite ?omap_app; cbn; rewrite ?app_nil_r; split; assumption.
Qed.

End Shape.

End ReadProofs.

(** ** The write path with [ima_read_file] in place *)

Module WritePathProofs.
Import Ima ImaTrace ReadFile WritePath.

Lemma on_every_path_relabel {E G : Type -> Type} {R : Type}
    (f : forall X, E X -> G X) (p : prog E R) :
  forall post : list (step G) -> option R -> Prop,
    on_every_path p (fun t r => post (map (relabel_step f) t) r) ->
    on_every_path (relabel f p) post.
Proof.
  induction p as [r | | X e q IH]; intros post H; cbn in *;
    [exact H | exact H |].
  intros x. apply IH. exact (H x).
Qed.

(** What holds of the result of a tree whatever its calls answer holds
    of the result with bodies in place of the calls, whenever that
    returns. *)
Lemma inline_result {E G : Type -> Type} {R : Type}
    (h : forall X, E X -> prog G (option X)) (Q : R -> Prop)
    (p : prog E R) :
  on_every_path p (fun _ r => forall v, r = Some v -> Q v) ->
  on_every_path (inline h p)
    (fun _ r => forall v, r = Some (Some v) -> Q v).
Proof.
  induction p as [r | | X e q IH]; intros H; cbn in *.
  - intros v [= <-]. exact (H r eq_refl).
  - intros v [=].
  - apply on_every_path_bind. apply on_every_path_always.
    intros t [[x|]|].
    + eapply on_every_path_impl; [|exact (IH x (H x))].
      cbn beta. intros _ r Hr. exact Hr.
    + cbn. intros v [=].
    + intros v [=].
Qed.

(** X1. Whenever a write returns, with [ima_read_file] run in place, its
    only file-scope effect is on [valid_policy]: it is cleared exactly
    when the file is the policy file and the result is an error; the
    dentry variables and the busy flags are never touched. *)
Theorem write_state_effect (k : kconsts) (O_RDONLY BITS_PER_LONG : Z)
    (fuel : nat) (st : statics) (dentry : dentry_ptr)
    (buf datalen ppos : Z) :
  on_every_path
    (WritePath.ima_write_data k O_RDONLY BITS_PER_LONG fuel st dentry buf
       datalen ppos)
    (fun _ r =>
       forall (result : Z) (st' : statics),
         r = Some (Some (result, st')) ->
         st' = if bool_decide (dentry = dent st ima_policy)
                  && (result <? 0)
               then set_valid_policy 0 st else st).
Proof.
  unfold WritePath.ima_write_data.
  eapply on_every_path_impl;
    [|apply (inline_result (body k O_RDONLY BITS_PER_LONG fuel st)
               (fun v : Z * statics =>
                  v.2 = if bool_decide (dentry = dent st ima_policy)
                           && (v.1 <? 0)
                        then set_valid_policy 0 st else st))].
  - cbn beta. intros _ r H result st' E. exact (H (result, st') E).
  - eapply on_every_path_impl;
      [|exact (WriteProofs.write_ends_at_out k st dentry buf datalen ppos)].
    cbn beta. intros _ r [result ->] v [= <-]. reflexivity.
Qed.

Lemma omap_own_callee (t : list (step fileE)) :
  omap own (map (relabel_step as_callee) t) = @nil (step imaE).
Proof.
  induction t as [| [X [e x]] t IH]; [reflexivity | exact IH].
Qed.

Lemma omap_helper_callee (t : list (step fileE)) :
  omap helper (map (relabel_step as_callee) t) = t.
Proof.
  induction t as [| [X [e x]] t IH]; [reflexivity|].
  cbn. f_equal. exact IH.
Qed.

Section Composed.

Variables (k : kconsts) (O_RDONLY : Z) (BITS_PER_LONG : Z).

Ltac to_helper :=
  unfold WritePath.ima_write_data, Ima.ima_write_data,
    ima_write_data_out_free;
  repeat first
    [ progress cbn [on_every_path bind call inline body fst snd]
    | rewrite WriteProofs.write_out_ret
    | intros ?
    | match goal with
      | |- context [if ?c then _ else _] => destruct c eqn:?
      end ].

Ltac split_trace :=
  cbn [omap list_omap own helper answered projT2 fst snd];
  rewrite ?omap_app, ?omap_own_callee, ?omap_helper_callee;
  cbn [omap list_omap own helper answered projT2 fst snd app].

(** X2. Whenever a write returns, with [ima_read_file] run in place, every
    buffer obtained on the way has been freed exactly once and nothing
    else has been freed: [ima_write_data] has freed the buffer it got
    from [vmalloc], [ima_read_file] the buffer [kernel_read_file] gave
    it, and [ima_read_file] has put the file it opened. At most one
    buffer of each kind is obtained. *)
Theorem write_buffer_balance (fuel : nat) (st : statics)
    (dentry : dentry_ptr) (buf datalen ppos : Z) :
  on_every_path
    (WritePath.ima_write_data k O_RDONLY BITS_PER_LONG fuel st dentry buf
       datalen ppos)
    (fun t r =>
       forall v : Z * statics,
         r = Some (Some v) ->
         freed (omap own t) = allocated (omap own t)
         /\ omap freeing (omap helper t) = omap receiving (omap helper t)
         /\ omap putting (omap helper t) = omap opening (omap helper t)
         /\ (length (allocated (omap own t)) <= 1)%nat
         /\ (length (omap receiving (omap helper t)) <= 1)%nat).
Proof.
  to_helper;
    try solve [cbn; settle; repeat split; solve [reflexivity | cbn; lia]].
  apply on_every_path_bind. apply on_every_path_relabel.
  eapply on_every_path_impl;
    [|apply (ReadProofs.read_file_shape k O_RDONLY BITS_PER_LONG)].
  cbn beta. intros th rh Hshape.
  destruct rh as [[result|]|]; [| cbn; intros ? [=] | intros ? [=]].
  destruct (ReadProofs.shape_balance O_RDONLY _ _ _ _ _ Hshape result eq_refl)
    as (Hf & Hp & Hlen).
  cbn [on_every_path bind call inline body]. intros [] [].
  rewrite WriteProofs.write_out_ret. cbn [inline on_every_path].
  intros v _. split_trace. rewrite !app_nil_r, Hf, Hp.
  repeat split; try assumption; cbn; settle;
    solve [reflexivity | cbn; lia].
Qed.




(** X4. What a write hands on, with [ima_read_file] run in place. What
    [ima_write_data] itself hands to the rule parser or the digest-list
    parser is the user's data after a complete copy, cut to the length
    of the write and closed by a terminating zero byte. [ima_read_file]
    runs only for such data that starts with a slash; the file it opens,
    read-only, is the one named by that data up to its first newline.
    (What the parsers are then given comes from that file, not from the
    write.) *)
Theorem write_parser_input (fuel : nat) (st : statics)
    (dentry : dentry_ptr) (buf datalen ppos : Z) :
  on_every_path
    (WritePath.ima_write_data k O_RDONLY BITS_PER_LONG fuel st dentry buf
       datalen ppos)
    (fun t _ =>
       (forall text : list byte,
          In text (omap parser_input (omap own t)) ->
          exists bytes : list byte,
            In (0, bytes) (omap copy_answer (omap own t))
            /\ text = written datalen bytes
            /\ last text = Some x00)
       /\ (omap helper t <> [] ->
           exists bytes : list byte,
             In (0, bytes) (omap copy_answer (omap own t))
             /\ names_file (written datalen bytes) = true
             /\ forall (name : list byte) (flags : Z),
                  In (name, flags) (omap open_request (omap helper t)) ->
                  exists rest : option (list byte),
                    strsep (written datalen bytes) = Some (name, rest)
                    /\ flags = O_RDONLY)).
Proof.
  to_helper.
  all: try solve
    [ cbn; settle; (split; [|intros Hn; contradiction]);
      intros text Hin; cbn in Hin; try contradiction;
      destruct Hin as [<- | []];
      match goal with
      | c : (Z * list byte)%type |- _ =>
          destruct c as [uncopied bytes]; exists bytes
      end;
      cbn [fst snd] in *;
      repeat match goal with
      | H : negb (?v =? 0) = false |- _ =>
          apply negb_false_iff, Z.eqb_eq in H; try subst v
      end;
      (split; [left; reflexivity|]); (split; [reflexivity|]);
      apply last_snoc ].
  apply on_every_path_bind. apply on_every_path_relabel.
  eapply on_every_path_impl;
    [|apply (ReadProofs.read_file_shape k O_RDONLY BITS_PER_LONG)].
  cbn beta. intros th rh Hshape.
  assert (Hpath :
    forall tl : list (step pathE),
      omap own tl = [answered mutex_unlock tt; answered (Ima.vfree x) tt]
      \/ omap own tl = [] ->
      omap helper tl = [] ->
      let t :=
        answered (caller (vmalloc (datalen + 1))) x
        :: answered (caller (copy_from_user x buf datalen)) x0
        :: answered (caller mutex_lock_interruptible) x1
        :: map (relabel_step as_callee) th ++ tl in
      (forall text : list byte,
         In text (omap parser_input (omap own t)) ->
         exists bytes : list byte,
           In (0, bytes) (omap copy_answer (omap own t))
           /\ text = written datalen bytes
           /\ last text = Some x00)
      /\ (omap helper t <> [] ->
          exists bytes : list byte,
            In (0, bytes) (omap copy_answer (omap own t))
            /\ names_file (written datalen bytes) = true
            /\ forall (name : list byte) (flags : Z),
                 In (name, flags) (omap open_request (omap helper t)) ->
                 exists rest : option (list byte),
                   strsep (written datalen bytes) = Some (name, rest)
                   /\ flags = O_RDONLY)).
  { intros tl Hown Hhelp t. unfold t. split_trace.
    rewrite Hhelp, ?app_nil_r.
    destruct x0 as [uncopied bytes]. cbn [fst snd] in *.
    apply negb_false_iff, Z.eqb_eq in Heqb2. subst uncopied.
    destruct Hown as [Ho | Ho]; rewrite Ho;
      cbn [omap list_omap parser_input copy_answer answered projT2 In];
      (split; [intros text []|]);
      intros _; exists bytes;
      (split; [left; reflexivity|]);
      (split; [exact Heqb4|]);
      intros name flags Hin;
      exact (ReadProofs.shape_opens O_RDONLY _ _ _ _ _ Hshape name flags
               Hin). }
  destruct rh as [[result|]|].
  - cbn [on_every_path bind call inline body]. intros [] [].
    rewrite WriteProofs.write_out_ret. cbn [inline on_every_path].
    apply Hpath; [left; reflexivity | reflexivity].
  - cbn [on_every_path]. apply Hpath; [right; reflexivity | reflexivity].
  - rewrite <- (app_nil_r (map (relabel_step as_callee) th)).
    apply Hpath; [right; reflexivity | reflexivity].
Qed.

(** X6. Which writes reach a parser, with [ima_read_file] run in place.
    Whether [ima_write_data] calls it or [ima_read_file] does, the rule
    parser is reached only on the policy file, and the digest-list
    parser only on a digest-list file that is not the policy file: as
    an addition on [digest_list_data], as a deletion on
    [digest_list_data_del]. The two checks guard only data that does not
    name a file: a rule [ima_write_data] itself hands to the parser was
    preceded by a reading of [ima_appraise] that does not demand a
    signed policy, and a compact list it hands on itself comes from the
    process registered as parser, with the length of the write. When
    the data names a file, [ima_read_file] runs and neither check is
    made. *)
Theorem write_parsers_gated (fuel : nat) (st : statics)
    (dentry : dentry_ptr) (buf datalen ppos : Z) :
  on_every_path
    (WritePath.ima_write_data k O_RDONLY BITS_PER_LONG fuel st dentry buf
       datalen ppos)
    (fun t _ =>
       (omap rule_parse (omap own t) <> []
        \/ omap rule_of (omap helper t) <> [] ->
        dentry = dent st ima_policy)
       /\ Forall (fun op : digest_list_op =>
                    dentry <> dent st ima_policy
                    /\ dentry = dent st (file_of_op op))
            (map snd (omap list_parse (omap own t))
             ++ map snd (omap list_call (omap helper t)))
       /\ (forall rule : list byte,
             In rule (omap rule_parse (omap own t)) ->
             names_file rule = false
             /\ exists a : Z,
                  In a (omap appraise_answer (omap own t))
                  /\ Z.land a (IMA_APPRAISE_POLICY k) = 0)
       /\ (forall (len : Z) (text : list byte) (op : digest_list_op),
             In (len, text, op) (omap list_parse (omap own t)) ->
             len = datalen
             /\ names_file text = false
             /\ In true (omap parser_check (omap own t)))
       /\ (omap helper t <> [] ->
           omap appraise_answer (omap own t) = []
           /\ omap parser_check (omap own t) = [])).
Proof.
  to_helper.
  all: try solve
    [ cbn; settle;
      repeat split; intros; cbn in *; cases_in; decided; subst;
      repeat split;
      try contradiction; try congruence; try assumption;
      try (left; reflexivity);
      try (eexists; split; [left; reflexivity | assumption]);
      repeat constructor; cbn; try assumption; try congruence ].
  apply on_every_path_bind. apply on_every_path_relabel.
  eapply on_every_path_impl;
    [|apply (ReadProofs.read_file_shape k O_RDONLY BITS_PER_LONG)].
  cbn beta. intros th rh Hshape.
  destruct (ReadProofs.shape_gated O_RDONLY _ _ _ _ _ Hshape)
    as [Hrules Hlists].
  assert (Hpath :
    forall tl : list (step pathE),
      omap own tl = [answered mutex_unlock tt; answered (Ima.vfree x) tt]
      \/ omap own tl = [] ->
      omap helper tl = [] ->
      let t :=
        answered (caller (vmalloc (datalen + 1))) x
        :: answered (caller (copy_from_user x buf datalen)) x0
        :: answered (caller mutex_lock_interruptible) x1
        :: map (relabel_step as_callee) th ++ tl in
      (omap rule_parse (omap own t) <> []
       \/ omap rule_of (omap helper t) <> [] ->
       dentry = dent st ima_policy)
      /\ Forall (fun op : digest_list_op =>
                   dentry <> dent st ima_policy
                   /\ dentry = dent st (file_of_op op))
           (map snd (omap list_parse (omap own t))
            ++ map snd (omap list_call (omap helper t)))
      /\ (forall rule : list byte,
            In rule (omap rule_parse (omap own t)) ->
            names_file rule = false
            /\ exists a : Z,
                 In a (omap appraise_answer (omap own t))
                 /\ Z.land a (IMA_APPRAISE_POLICY k) = 0)
      /\ (forall (len : Z) (text : list byte) (op : digest_list_op),
            In (len, text, op) (omap list_parse (omap own t)) ->
            len = datalen
            /\ names_file text = false
            /\ In true (omap parser_check (omap own t)))
      /\ (omap helper t <> [] ->
          omap appraise_answer (omap own t) = []
          /\ omap parser_check (omap own t) = [])).
  { intros tl Hown Hhelp t. unfold t. split_trace.
    rewrite Hhelp, ?app_nil_r.
    destruct Hown as [Ho | Ho]; rewrite Ho;
      cbn [omap list_omap rule_parse list_parse appraise_answer parser_check
           answered projT2 In map app];
      (split; [intros [Hn | Hn]; [contradiction | exact (Hrules Hn)]|]);
      (split;
       [apply Forall_fmap; eapply Forall_impl; [exact Hlists|];
        intros c Hc; exact Hc|]);
      (split; [intros rule []|]);
      (split; [intros len text op []|]);
      intros _; split; reflexivity. }
  destruct rh as [[result|]|].
  - cbn [on_every_path bind call inline body]. intros [] [].
    rewrite WriteProofs.write_out_ret. cbn [inline on_every_path].
    apply Hpath; [left; reflexivity | reflexivity].
  - cbn [on_every_path]. apply Hpath; [right; reflexivity | reflexivity].
  - rewrite <- (app_nil_r (map (relabel_step as_callee) th)).
    apply Hpath; [right; reflexivity | reflexivity].
Qed.

End Composed.

(** A write of the path ["/p"] to the policy file, on a kernel where
    [ima_appraise] demands a signed policy and the file named holds the
    rules ["a"] and ["b"]: both rules are parsed, [ima_appraise] is not
    read, and the write returns the length of the path. *)
Example write_by_path_run :
  let p :=
    WritePath.ima_write_data linux 0 64 3 ImaSpec.mounted
      (dent ImaSpec.mounted ima_policy) 0 3 0 in
  let h :=
    both (obliging [x2f; x70; x0a] false 8) (serving [x61; x0a; x62; x0a]) in
  run h p tt = Some (Some (3, ImaSpec.mounted), tt)
  /\ omap rule_of (omap helper (steps h p tt)) = [[x61]; [x62]]
  /\ omap appraise_answer (omap own (steps h p tt)) = []
  /\ lock_run false (map path_lock_use (steps h p tt)) = Some false.
Proof. vm_compute. repeat split. Qed.

(** The same write when the last line of the file has no newline and
    nothing follows the text in the buffer: [ima_read_file] reads past
    the buffer, and the write ends there with the mutex held and the
    buffer of the write not freed. *)
Example write_by_path_faults :
  let p :=
    WritePath.ima_write_data linux 0 64 3 ImaSpec.mounted
      (dent ImaSpec.mounted ima_policy) 0 3 0 in
  let h :=
    both (obliging [x2f; x70; x0a] false 8) (serving [x61; x0a; x62]) in
  run h p tt = None
  /\ omap rule_of (omap helper (steps h p tt)) = [[x61]]
  /\ lock_run false (map path_lock_use (steps h p tt)) = Some true
  /\ allocated (omap own (steps h p tt)) = [4096]
  /\ freed (omap own (steps h p tt)) = [].
Proof. vm_compute. repeat split. Qed.

End WritePathProofs.
